(** * Sprite Builder: the export pipeline, the animation clock and the
      effects shader

    A shallow embedding of the TypeScript sources of the sprite builder:
    the [useExport] hook ([renderFrame], [exportFrame], [exportSequence]),
    the [useAnimation] hook, the preview mapper [updateExportPreview] and
    the frame-change handler of [Viewport.tsx], the fragment shader
    [ImageEffectsShader], the folder selection [selectOutputFolder], the
    [useCamera] hook with the vertical pan of [LeftPanel], and the export
    frame of [ViewportContainer].

    Conventions.
    - A JavaScript number that holds a frame index or a frame count is a
      [Z]; any other number (pixel sizes, durations, camera fields, colour
      channels) is an exact rational [Q].  Rounding of IEEE doubles is not
      modelled, and a division by zero (Infinity or NaN in JavaScript,
      [0] in [Q]) is outside the model.
    - Objects that the code mutates in place (renderer, scene, camera,
      effect composer, the storage behind the Electron bridge) are fields
      of an explicit state that every operation takes and returns.
    - Calls into the browser, three.js or Electron that can throw or
      report failure read an oracle given as a parameter. *)

From Stdlib Require Import ZArith QArith Qround Qminmax Qabs Qreduction.
From Stdlib Require Import String Ascii DecimalString Bool List Sorted Lia Lqa.
Import ListNotations.

(* ================================================================== *)
(** * Part I: the program *)
(* ================================================================== *)

(** ** JavaScript helpers *)

Module Js.

(** [Math.floor], [Math.round] (round half up), [Math.max], [Math.min],
    [Math.abs] on numbers modelled as rationals. *)
Definition floor (x : Q) : Z := Qfloor x.
Definition round (x : Q) : Z := Qfloor (x + (1 # 2)).
Definition max (x y : Q) : Q := Qmax x y.
Definition min (x y : Q) : Q := Qmin x y.
Definition abs (x : Q) : Q := Qabs x.

(** Comparisons [<], [<=], [>], [>=], [===] on numbers. *)
Definition ltb (x y : Q) : bool := negb (Qle_bool y x).
Definition leb (x y : Q) : bool := Qle_bool x y.
Definition gtb (x y : Q) : bool := ltb y x.
Definition geb (x y : Q) : bool := leb y x.
Definition eqb (x y : Q) : bool := Qeq_bool x y.

(** [arr[arr.length - 1]]: [undefined] on the empty array. *)
Definition last_item {A : Type} (arr : list A) : option A :=
  nth_error arr (length arr - 1).

(** [n.toString()] of an integer. *)
Definition toString (n : Z) : string := NilZero.string_of_int (Z.to_int n).

(** [String(c).repeat(n)]. *)
Fixpoint repeat_char (c : ascii) (n : nat) : string :=
  match n with
  | O => EmptyString
  | S n' => String c (repeat_char c n')
  end.

(** [s.padStart(targetLength, c)] with a one-character filler. *)
Definition padStart (s : string) (targetLength : nat) (c : ascii) : string :=
  (repeat_char c (targetLength - String.length s) ++ s)%string.

(** Truthiness of a [string | null]: [null] and the empty string are
    falsy. *)
Definition truthy_string (s : option string) : bool :=
  match s with
  | Some EmptyString => false
  | Some _ => true
  | None => false
  end.

End Js.

(** ** Frame sampling of [exportSequence] *)

Module Sampling.

Local Open Scope Z_scope.

(** [for (let i = 0; i < totalFrames; i += step) framesToRender.push(i);]
    The loop is run with fuel; [None] means the fuel ran out. *)
Fixpoint push_loop (fuel : nat) (i totalFrames step : Z)
         (framesToRender : list Z) : option (list Z) :=
  if i <? totalFrames then
    match fuel with
    | O => None
    | S fuel' =>
        push_loop fuel' (i + step) totalFrames step (framesToRender ++ [i])
    end
  else Some framesToRender.

(** The values the loop still has to push when it stands at [i], at
    most [fuel] of them (used to state the loop's result). *)
Definition pending (totalFrames step i : Z) (fuel : nat) : list Z :=
  filter (fun x => x <? totalFrames)
         (map (fun k => i + Z.of_nat k * step) (seq 0 fuel)).

(** [Math.max(1, Math.floor(totalFrames / renderSteps))]. *)
Definition step_of (totalFrames renderSteps : Z) : Z :=
  Z.max 1 (Js.floor (inject_Z totalFrames / inject_Z renderSteps)).

(** The frames [exportSequence] renders: the loop, then
    [if (framesToRender[framesToRender.length - 1] !== totalFrames - 1)
       framesToRender.push(totalFrames - 1);] *)
Definition framesToRender (totalFrames renderSteps : Z) : option (list Z) :=
  let step := step_of totalFrames renderSteps in
  match push_loop (Z.to_nat totalFrames) 0 totalFrames step [] with
  | None => None
  | Some frames =>
      match Js.last_item frames with
      | Some l =>
          if l =? totalFrames - 1 then Some frames
          else Some (frames ++ [totalFrames - 1])
      | None => Some (frames ++ [totalFrames - 1])
      end
  end.

(** *** The sampling as the specification words it *)

(** stride = max(1, floor(totalFrames / renderSteps)). *)
Definition stride (totalFrames renderSteps : Z) : Z :=
  Z.max 1 (totalFrames / renderSteps).

(** {0, stride, 2*stride, ...} restricted to indices below
    [totalFrames]. *)
Definition multiples_below (totalFrames s : Z) : list Z :=
  filter (fun x => x <? totalFrames)
         (map (fun k => Z.of_nat k * s) (seq 0 (Z.to_nat totalFrames))).

(** ... with [totalFrames - 1] appended when the last multiple is not
    [totalFrames - 1]. *)
Definition sampled_frames_spec (totalFrames renderSteps : Z) : list Z :=
  let ms := multiples_below totalFrames (stride totalFrames renderSteps) in
  if last ms 0 =? totalFrames - 1 then ms else ms ++ [totalFrames - 1].

End Sampling.

(** ** The animation clock ([useAnimation]) *)

Module Animation.

Local Open Scope Z_scope.

(** An animation clip of the imported model: [anim.name],
    [anim.duration] (seconds). *)
Record Clip := mkClip { name : string; duration : Q }.

(** [model.animations]; [None] stands for a missing model or a model
    without an [animations] field. *)
Definition Model := option (list Clip).

(** The state cells of the hook and the [lastFrameTimeRef] ref. *)
Record State := mkState {
  isPlaying : bool;
  currentAnimation : option string;
  animations : list string;
  currentFrame : Z;
  totalFrames : Z;
  lastFrameTime : option Q
}.

Definition initial : State := mkState false None [] 0 0 None.

Definition setCurrentFrame (f : Z) (st : State) : State :=
  mkState (isPlaying st) (currentAnimation st) (animations st) f
          (totalFrames st) (lastFrameTime st).

Definition setTotalFrames (n : Z) (st : State) : State :=
  mkState (isPlaying st) (currentAnimation st) (animations st)
          (currentFrame st) n (lastFrameTime st).

Definition setCurrentAnimation (a : option string) (st : State) : State :=
  mkState (isPlaying st) a (animations st) (currentFrame st)
          (totalFrames st) (lastFrameTime st).

Definition setAnimations (l : list string) (st : State) : State :=
  mkState (isPlaying st) (currentAnimation st) l (currentFrame st)
          (totalFrames st) (lastFrameTime st).

Definition setLastFrameTime (t : option Q) (st : State) : State :=
  mkState (isPlaying st) (currentAnimation st) (animations st)
          (currentFrame st) (totalFrames st) t.

(** [const fps = 30; Math.floor(anim.duration * fps)]. *)
Definition fps : Q := 30.
Definition frames_of (anim : Clip) : Z := Js.floor (duration anim * fps).

(** [model.animations.find(a => a.name === animation)]. *)
Definition find_clip (clips : list Clip) (animation : string) : option Clip :=
  find (fun a => String.eqb (name a) animation) clips.

(** The effect on [[model, currentAnimation]]: publishes the clip names,
    selects the first clip when none is selected, and sets the total
    frame count from the first clip. *)
Definition on_model_change (model : Model) (st : State) : State :=
  match model with
  | None =>
      setCurrentFrame 0
        (setTotalFrames 0 (setCurrentAnimation None (setAnimations [] st)))
  | Some clips =>
      let animNames := map name clips in
      let st1 := setAnimations animNames st in
      let st2 :=
        match animNames, Js.truthy_string (currentAnimation st) with
        | first :: _, false => setCurrentAnimation (Some first) st1
        | _, _ => st1
        end in
      match clips with
      | firstAnim :: _ => setTotalFrames (frames_of firstAnim) st2
      | [] => st2
      end
  end.

(** [const frameTime = 1000 / fps]. *)
Definition frameTime : Q := 1000 / fps.

(** The callback [updateFrame(timestamp)] of the playback loop.
    [!lastFrameTimeRef.current] holds for [null] and for [0].
    [%] is the remainder of the truncated division. *)
Definition updateFrame (timestamp : Q) (st : State) : State :=
  let last :=
    match lastFrameTime st with
    | Some t => if Js.eqb t 0 then timestamp else t
    | None => timestamp
    end in
  let elapsed := (timestamp - last)%Q in
  if Js.geb elapsed frameTime then
    setLastFrameTime (Some timestamp)
      (setCurrentFrame (Z.rem (currentFrame st + 1) (totalFrames st)) st)
  else setLastFrameTime (Some last) st.

Definition togglePlayPause (st : State) : State :=
  mkState (negb (isPlaying st)) (currentAnimation st) (animations st)
          (currentFrame st) (totalFrames st) (lastFrameTime st).

(** [if (prev <= 0) return totalFrames - 1; return prev - 1;] *)
Definition previousFrame (st : State) : State :=
  setCurrentFrame
    (if currentFrame st <=? 0 then totalFrames st - 1
     else currentFrame st - 1) st.

(** [if (prev >= totalFrames - 1) return 0; return prev + 1;] *)
Definition nextFrame (st : State) : State :=
  setCurrentFrame
    (if currentFrame st >=? totalFrames st - 1 then 0
     else currentFrame st + 1) st.

(** [setAnimation(animation)]. *)
Definition setAnimation (model : Model) (animation : string) (st : State)
  : State :=
  let st1 := setCurrentFrame 0 (setCurrentAnimation (Some animation) st) in
  match model with
  | Some clips =>
      match find_clip clips animation with
      | Some anim => setTotalFrames (frames_of anim) st1
      | None => st1
      end
  | None => st1
  end.

(** Selecting an animation, as the hook handles it: [setAnimation], and
    then, [currentAnimation] being a dependency of the effect on
    [[model, currentAnimation]], that effect again when the selection
    has changed. *)
Definition selectAnimation (model : Model) (animation : string) (st : State)
  : State :=
  let st1 := setAnimation model animation st in
  match currentAnimation st with
  | Some current =>
      if String.eqb current animation then st1
      else on_model_change model st1
  | None => on_model_change model st1
  end.

(** The invariant of the clock. *)
Definition frame_in_range (st : State) : Prop :=
  0 <= currentFrame st < totalFrames st.

End Animation.

(** ** The effects shader ([ImageEffectsShader]) *)

Module Shader.

Local Open Scope Q_scope.

(** The GPU evaluates the fragment program in 32-bit floating point; the
    model evaluates it exactly. A property is stated of it only where it
    is a matter of structure, or where the steps it rests on lose
    nothing to rounding: a product with 0, with 1 or with a power of two,
    a quotient by a power of two, a sum with 0. *)

Record vec3 := mkVec3 { x3 : Q; y3 : Q; z3 : Q }.
Record vec4 := mkVec4 { x4 : Q; y4 : Q; z4 : Q; w4 : Q }.

(** GLSL built-ins, on scalars. *)
Definition step (edge x : Q) : Q := if Js.ltb x edge then 0 else 1.
Definition mix (a b t : Q) : Q := a * (1 - t) + b * t.
Definition fract (x : Q) : Q := x - inject_Z (Js.floor x).
Definition clamp (x lo hi : Q) : Q := Js.min (Js.max x lo) hi.
Definition floorQ (x : Q) : Q := inject_Z (Js.floor x).

Definition mix4 (a b : vec4) (t : Q) : vec4 :=
  mkVec4 (mix (x4 a) (x4 b) t) (mix (y4 a) (y4 b) t)
         (mix (z4 a) (z4 b) t) (mix (w4 a) (w4 b) t).

Definition map3 (f : Q -> Q) (v : vec3) : vec3 :=
  mkVec3 (f (x3 v)) (f (y3 v)) (f (z3 v)).

(** [vec3 rgb2hsv(vec3 c)]; [c.r], [c.g], [c.b] are [x3], [y3], [z3]. *)
Definition rgb2hsv (c : vec3) : vec3 :=
  let K := mkVec4 0 (-1 / 3) (2 / 3) (-1) in
  let p := mix4 (mkVec4 (z3 c) (y3 c) (w4 K) (z4 K))
                (mkVec4 (y3 c) (z3 c) (x4 K) (y4 K))
                (step (z3 c) (y3 c)) in
  let q := mix4 (mkVec4 (x4 p) (y4 p) (w4 p) (x3 c))
                (mkVec4 (x3 c) (y4 p) (z4 p) (x4 p))
                (step (x4 p) (x3 c)) in
  let d := x4 q - Js.min (w4 q) (y4 q) in
  let e := 1 / 10000000000 in
  mkVec3 (Js.abs (z4 q + (w4 q - y4 q) / (6 * d + e)))
         (d / (x4 q + e))
         (x4 q).

(** [vec3 hsv2rgb(vec3 c)]. *)
Definition hsv2rgb (c : vec3) : vec3 :=
  let K := mkVec4 1 (2 / 3) (1 / 3) 3 in
  let p := mkVec3 (Js.abs (fract (x3 c + x4 K) * 6 - w4 K))
                  (Js.abs (fract (x3 c + y4 K) * 6 - w4 K))
                  (Js.abs (fract (x3 c + z4 K) * 6 - w4 K)) in
  map3 (fun pi => z3 c * mix (x4 K) (clamp (pi - x4 K) 0 1) (y3 c)) p.

(** The uniforms of the pass, written from the [ImageEffects] value of
    the [useImageEffects] hook. *)
Record ImageEffects := mkEffects {
  brightness : Q;
  contrast : Q;
  saturation : Q;
  hue : Q;
  colorSteps : Q
}.

(** The initial value of the hook, also set by [resetEffects]. *)
Definition defaultEffects : ImageEffects := mkEffects 1 1 1 0 0.

(** The setters the [useImageEffects] hook returns. *)
Inductive Action :=
| SetBrightness (value : Q)
| SetContrast (value : Q)
| SetSaturation (value : Q)
| SetHue (value : Q)
| SetColorSteps (value : Q)
| ResetEffects.

(** [setEffects(prev => ({ ...prev, field: value }))]. *)
Definition update (prev : ImageEffects) (a : Action) : ImageEffects :=
  match a with
  | SetBrightness value =>
      mkEffects value (contrast prev) (saturation prev) (hue prev)
                (colorSteps prev)
  | SetContrast value =>
      mkEffects (brightness prev) value (saturation prev) (hue prev)
                (colorSteps prev)
  | SetSaturation value =>
      mkEffects (brightness prev) (contrast prev) value (hue prev)
                (colorSteps prev)
  | SetHue value =>
      mkEffects (brightness prev) (contrast prev) (saturation prev) value
                (colorSteps prev)
  | SetColorSteps value =>
      mkEffects (brightness prev) (contrast prev) (saturation prev)
                (hue prev) value
  | ResetEffects => defaultEffects
  end.

(** The value of the hook after a run of setter calls. *)
Definition useImageEffects (calls : list Action) : ImageEffects :=
  fold_left update calls defaultEffects.

(** The posterization step on one channel:
    [floor(color * steps) / steps] with
    [steps = max(2.0, floor(colorSteps))], under [colorSteps > 0.0]. *)
Definition posterize_channel (colorSteps c : Q) : Q :=
  if Js.gtb colorSteps 0 then
    let steps := Js.max 2 (floorQ colorSteps) in
    floorQ (c * steps) / steps
  else c.

Definition posterize (colorSteps : Q) (color : vec3) : vec3 :=
  map3 (posterize_channel colorSteps) color.

(** The colour the shader holds just before the posterization step. *)
Definition graded (u : ImageEffects) (texel : vec4) : vec3 :=
  let color := mkVec3 (x4 texel * brightness u) (y4 texel * brightness u)
                      (z4 texel * brightness u) in
  let color := map3 (fun c => (c - (1 # 2)) * contrast u + (1 # 2)) color in
  let hsv := rgb2hsv color in
  let hsv := mkVec3 (fract (x3 hsv + hue u / 360)) (y3 hsv) (z3 hsv) in
  let hsv := mkVec3 (x3 hsv) (y3 hsv * saturation u) (z3 hsv) in
  hsv2rgb hsv.

(** [void main()]: the value written to [gl_FragColor] for the sampled
    [texel]. *)
Definition main (u : ImageEffects) (texel : vec4) : vec4 :=
  let color := posterize (colorSteps u) (graded u texel) in
  mkVec4 (x3 color) (y3 color) (z3 color) (w4 texel).

(** *** Notions used to state properties of the posterization *)

(** The red, green and blue channels of a fragment. *)
Definition rgb (v : vec4) : vec3 := mkVec3 (x4 v) (y4 v) (z4 v).

(** With four colour steps every channel value between 0 and 1 comes out
    on one of four levels. *)
Definition fourLevels : Prop :=
  exists levels : list Q,
    length levels = 4%nat
    /\ forall c : Q, 0 <= c <= 1 ->
         exists l, In l levels /\ l == posterize_channel 4 c.

End Shader.

(** ** The preview mapper ([updateExportPreview]) *)

Module Preview.

Local Open Scope Q_scope.

(** The record stored in [canvas.__exportPreviewRect]. *)
Record ExportPreviewRect := mkRect {
  left : Z;
  top : Z;
  width : Z;
  height : Z;
  containerWidth : Q;
  containerHeight : Q;
  exportWidth : Q;
  exportHeight : Q;
  exportAspectRatio : Q
}.

(** [previewWidth] and [previewHeight] after the minimum-size clamp,
    before rounding. *)
Definition previewSize (containerWidth containerHeight
                        exportWidth exportHeight : Q) : Q * Q :=
  let exportAspectRatio := exportWidth / exportHeight in
  let containerAspectRatio := containerWidth / containerHeight in
  let '(previewWidth, previewHeight) :=
    if Js.gtb exportAspectRatio containerAspectRatio then
      let scaleFactor :=
        Js.min 0.98 (0.85 + (containerWidth / 1500) * 0.13) in
      let previewWidth := containerWidth * scaleFactor in
      (previewWidth, previewWidth / exportAspectRatio)
    else
      let scaleFactor :=
        Js.min 0.98 (0.85 + (containerHeight / 1000) * 0.13) in
      let previewHeight := containerHeight * scaleFactor in
      (previewHeight * exportAspectRatio, previewHeight) in
  let minPreviewSize := Js.min containerWidth containerHeight * 0.5 in
  (Js.max previewWidth (minPreviewSize * exportAspectRatio),
   Js.max previewHeight minPreviewSize).

Definition updateExportPreview (containerWidth containerHeight
                                exportWidth exportHeight : Q)
  : ExportPreviewRect :=
  let '(previewWidth, previewHeight) :=
    previewSize containerWidth containerHeight exportWidth exportHeight in
  let left := (containerWidth - previewWidth) / 2 in
  let top := (containerHeight - previewHeight) / 2 in
  mkRect (Js.round left) (Js.round top)
         (Js.round previewWidth) (Js.round previewHeight)
         containerWidth containerHeight exportWidth exportHeight
         (exportWidth / exportHeight).

(** *** The rectangle as the specification describes it *)

(** Aspect ratio of the export, inside the viewport, shorter side at
    least 30% of the shorter viewport side, no side above 90% of its
    viewport axis. *)
Definition asSpecified (W H ew eh : Q) : Prop :=
  let pw := fst (previewSize W H ew eh) in
  let ph := snd (previewSize W H ew eh) in
  let r := updateExportPreview W H ew eh in
  pw / ph == ew / eh
  /\ ((0 <= left r)%Z /\ (0 <= top r)%Z
      /\ inject_Z (left r + width r) <= W
      /\ inject_Z (top r + height r) <= H)
  /\ 0.3 * Js.min W H <= Js.min pw ph
  /\ (pw <= 0.9 * W /\ ph <= 0.9 * H).

End Preview.

(** ** The size of an HTML canvas *)

Module Canvas.

Local Open Scope Z_scope.

(** The integer part of a number, towards zero. *)
Definition integerPart (value : Q) : Z :=
  if Js.leb 0%Q value then Qfloor value else Qceiling value.

(** The conversion of a number to an [unsigned long]: the integer part,
    modulo 2^32. *)
Definition toUnsignedLong (value : Q) : Z :=
  integerPart value mod 4294967296.

(** An assignment to [canvas.width] or [canvas.height]: the value is
    converted to an [unsigned long] and stored when it is at most
    2147483647; otherwise the attribute takes its default. *)
Definition assigned (value : Q) (default : Z) : Z :=
  let n := toUnsignedLong value in
  if n <=? 2147483647 then n else default.

(** The defaults are 300 for the width and 150 for the height. *)
Definition width (value : Q) : Z := assigned value 300.
Definition height (value : Q) : Z := assigned value 150.

End Canvas.

(** ** The frame renderer ([renderFrame] of [useExport]) *)

Module Render.

Local Open Scope Q_scope.

Record Vector3 := mkVector3 { vx : Q; vy : Q; vz : Q }.
Record Euler := mkEuler { ex : Q; ey : Q; ez : Q; order : string }.
Record Color := mkColor { red : Q; green : Q; blue : Q }.

(** The two camera classes with their own fields. *)
Inductive Projection :=
| Perspective (aspect fov near far : Q)
| Orthographic (left right top bottom near far : Q).

Record Camera := mkCamera {
  position : Vector3;
  rotation : Euler;
  zoom : Q;
  projection : Projection
}.

(** [THREE.WebGLRenderer]: the logical size read by [getSize], the pixel
    ratio, the clear colour and alpha, and the pixel size of
    [renderer.domElement]. *)
Record Renderer := mkRenderer {
  size : Q * Q;
  pixelRatio : Q;
  clearColor : Color;
  clearAlpha : Q;
  domElement : Z * Z
}.

(** [EffectComposer]: its size and the sizes handed to its passes. *)
Record Composer := mkComposer {
  composerSize : Q * Q;
  passSizes : list (Q * Q)
}.

(** One call of [composer.render()] or [renderer.render(scene, camera)]
    with the settings in force when it ran. *)
Record Draw := mkDraw {
  drawSize : Q * Q;
  drawPixelRatio : Q;
  drawClearAlpha : Q;
  drawBackground : option Color;
  drawCamera : Camera;
  withEffects : bool
}.

(** The shared objects [renderFrame] works on: renderer, scene
    (its [background]), camera, the composer stored on the canvas
    ([canvas.__effectComposer], possibly absent) and the log of draws. *)
Record Context := mkContext {
  renderer : Renderer;
  background : option Color;
  camera : Camera;
  composer : option Composer;
  draws : list Draw
}.

(** *** three.js operations used by [renderFrame] *)

(** [renderer.setSize(width, height, false)]: stores the logical size
    and assigns [floor(size * pixelRatio)] to the width and the height of
    the canvas. *)
Definition setSize (width height : Q) (r : Renderer) : Renderer :=
  mkRenderer (width, height) (pixelRatio r) (clearColor r) (clearAlpha r)
             (Canvas.width (inject_Z (Js.floor (width * pixelRatio r))),
              Canvas.height (inject_Z (Js.floor (height * pixelRatio r)))).

(** [renderer.setPixelRatio(value)]: stores the ratio and re-applies the
    current size. *)
Definition setPixelRatio (value : Q) (r : Renderer) : Renderer :=
  setSize (fst (size r)) (snd (size r))
          (mkRenderer (size r) value (clearColor r) (clearAlpha r)
                      (domElement r)).

(** [renderer.setClearColor(color, alpha)]. *)
Definition setClearColor (color : Color) (alpha : Q) (r : Renderer)
  : Renderer :=
  mkRenderer (size r) (pixelRatio r) color alpha (domElement r).

(** [composer.setSize(w, h)] followed by [pass.setSize(w, h)] on every
    pass. *)
Definition composerSetSize (w h : Q) (c : Composer) : Composer :=
  mkComposer (w, h) (map (fun _ => (w, h)) (passSizes c)).

(** *** Field updates of the context *)

Definition onRenderer (f : Renderer -> Renderer) (c : Context) : Context :=
  mkContext (f (renderer c)) (background c) (camera c) (composer c)
            (draws c).

Definition setBackground (b : option Color) (c : Context) : Context :=
  mkContext (renderer c) b (camera c) (composer c) (draws c).

Definition onCamera (f : Camera -> Camera) (c : Context) : Context :=
  mkContext (renderer c) (background c) (f (camera c)) (composer c)
            (draws c).

Definition onComposer (f : Composer -> Composer) (c : Context) : Context :=
  mkContext (renderer c) (background c) (camera c)
            (option_map f (composer c)) (draws c).

Definition setProjection (p : Projection) (cam : Camera) : Camera :=
  mkCamera (position cam) (rotation cam) (zoom cam) p.

(** A draw call appends to the log what it draws with. *)
Definition draw (effects : bool) (c : Context) : Context :=
  mkContext (renderer c) (background c) (camera c) (composer c)
            (draws c ++
             [mkDraw (size (renderer c)) (pixelRatio (renderer c))
                     (clearAlpha (renderer c)) (background c) (camera c)
                     effects]).

(** *** State and exceptions *)

(** A computation runs on the context and either returns a value or
    throws an [Error] with a message; the context it leaves is kept in
    both cases. *)
Definition M (A : Type) : Type := Context -> Context * (string + A).

Definition ret {A : Type} (a : A) : M A := fun c => (c, inr a).

Definition bind {A B : Type} (m : M A) (k : A -> M B) : M B :=
  fun c =>
    let (c1, r) := m c in
    match r with
    | inl e => (c1, inl e)
    | inr a => k a c1
    end.

Definition throw {A : Type} (message : string) : M A :=
  fun c => (c, inl message).

Definition get : M Context := fun c => (c, inr c).

Definition modify (f : Context -> Context) : M unit :=
  fun c => (f c, inr tt).

(** [try { body } finally { fin }]: [fin] runs after [body] however
    [body] ends; an exception of [fin] replaces the outcome. *)
Definition try_finally {A : Type} (body : M A) (fin : M unit) : M A :=
  fun c =>
    let (c1, r) := body c in
    let (c2, rf) := fin c1 in
    match rf with
    | inl e => (c2, inl e)
    | inr _ => (c2, r)
    end.

Declare Scope render_scope.
Delimit Scope render_scope with render.
Notation "x <- m ;; k" := (bind m (fun x => k))
  (at level 61, m at next level, right associativity) : render_scope.
Notation "m ;; k" := (bind m (fun _ => k))
  (at level 61, right associativity) : render_scope.

(** *** [renderFrame] *)

(** The values stored before the [try] block. The camera-specific ones
    are [undefined] ([None]) for the other camera class. *)
Record Snapshot := mkSnapshot {
  originalSize : Q * Q;
  originalClearColor : Color;
  originalClearAlpha : Q;
  originalBackgroundColor : option Color;
  originalPixelRatio : Q;
  originalCameraPosition : Vector3;
  originalCameraRotation : Euler;
  originalCameraZoom : Q;
  originalCameraAspect : option Q;
  originalCameraFov : option Q;
  originalCameraFar : option Q;
  originalCameraNear : option Q;
  originalCameraLeft : option Q;
  originalCameraRight : option Q;
  originalCameraTop : option Q;
  originalCameraBottom : option Q
}.

Definition takeSnapshot (c : Context) : Snapshot :=
  let r := renderer c in
  let cam := camera c in
  match projection cam with
  | Perspective aspect fov near far =>
      mkSnapshot (size r) (clearColor r) (clearAlpha r) (background c)
                 (pixelRatio r) (position cam) (rotation cam) (zoom cam)
                 (Some aspect) (Some fov) (Some far) (Some near)
                 None None None None
  | Orthographic l_ r_ top bottom near far =>
      mkSnapshot (size r) (clearColor r) (clearAlpha r) (background c)
                 (pixelRatio r) (position cam) (rotation cam) (zoom cam)
                 None None (Some far) (Some near)
                 (Some l_) (Some r_) (Some top) (Some bottom)
  end.

(** The camera update of the [try] block: the perspective camera takes
    the export aspect; the orthographic camera keeps its height and
    widens symmetrically. *)
Definition fitAspect (aspectRatio : Q) (p : Projection) : Projection :=
  match p with
  | Perspective _ fov near far => Perspective aspectRatio fov near far
  | Orthographic l_ r_ top bottom near far =>
      let currentHeight := top - bottom in
      let currentWidth := r_ - l_ in
      let newWidth := currentHeight * aspectRatio in
      let widthDiff := newWidth - currentWidth in
      Orthographic (l_ - widthDiff / 2) (r_ + widthDiff / 2)
                   top bottom near far
  end.

(** [x!] on a stored original: the value is present whenever the guard
    of its branch holds, because the snapshot sets the fields of one
    camera class together; otherwise the field is left as it is. *)
Definition orKeep (original : option Q) (current : Q) : Q :=
  match original with
  | Some v => v
  | None => current
  end.

(** The camera-specific part of the [finally] block. *)
Definition restoreProjection (s : Snapshot) (p : Projection) : Projection :=
  match p, originalCameraAspect s, originalCameraLeft s with
  | Perspective _ fov near far, Some aspect0, _ =>
      Perspective aspect0
                  (orKeep (originalCameraFov s) fov)
                  (orKeep (originalCameraNear s) near)
                  (orKeep (originalCameraFar s) far)
  | Orthographic _ r_ top bottom near far, _, Some left0 =>
      Orthographic left0
                   (orKeep (originalCameraRight s) r_)
                   (orKeep (originalCameraTop s) top)
                   (orKeep (originalCameraBottom s) bottom)
                   (orKeep (originalCameraNear s) near)
                   (orKeep (originalCameraFar s) far)
  | _, _, _ => p
  end.

(** The [finally] block. *)
Definition restore (s : Snapshot) : M unit :=
  (modify (onRenderer
             (setSize (fst (originalSize s)) (snd (originalSize s)))) ;;
   modify (onRenderer
             (setClearColor (originalClearColor s) (originalClearAlpha s))) ;;
   modify (onRenderer (setPixelRatio (originalPixelRatio s))) ;;
   modify (setBackground (originalBackgroundColor s)) ;;
   modify (onCamera (fun cam =>
             mkCamera (originalCameraPosition s) (originalCameraRotation s)
                      (originalCameraZoom s) (projection cam))) ;;
   modify (onCamera (fun cam =>
             setProjection (restoreProjection s (projection cam)) cam)) ;;
   modify (onComposer
             (composerSetSize (fst (originalSize s))
                              (snd (originalSize s)))))%render.

(** The source rectangle of the final [drawImage], as
    [(sourceX, sourceY, sourceWidth, sourceHeight)]. *)
Definition sourceRectangle (rendererCanvas : Z * Z) (width height : Q)
  : Z * Z * Z * Z :=
  let rendererAspect :=
    inject_Z (fst rendererCanvas) / inject_Z (snd rendererCanvas) in
  let targetAspect := width / height in
  let sourceWidth := fst rendererCanvas in
  let sourceHeight := snd rendererCanvas in
  if Js.gtb (Js.abs (rendererAspect - targetAspect)) 0.01 then
    if Js.gtb rendererAspect targetAspect then
      let sourceWidth := Js.round (inject_Z sourceHeight * targetAspect) in
      let sourceX :=
        Js.round (inject_Z (fst rendererCanvas - sourceWidth) / 2) in
      (sourceX, 0%Z, sourceWidth, sourceHeight)
    else
      let sourceHeight := Js.round (inject_Z sourceWidth / targetAspect) in
      let sourceY :=
        Js.round (inject_Z (snd rendererCanvas - sourceHeight) / 2) in
      (0%Z, sourceY, sourceWidth, sourceHeight)
  else (0%Z, 0%Z, sourceWidth, sourceHeight).

(** The PNG behind the returned data URL: the pixel size of the export
    canvas, the source rectangle copied from the renderer canvas and the
    draw that was on the renderer canvas at that moment. *)
Record ExportImage := mkImage {
  imageWidth : Z;
  imageHeight : Z;
  sourceRect : Z * Z * Z * Z;
  picture : option Draw
}.

(** The calls of the [try] block that reach outside the hook. An oracle
    says which of them throws. *)
Inductive FaultPoint :=
| AtSetSize | AtSetPixelRatio | AtSetClearColor | AtUpdateProjection
| AtComposerSetSize | AtRender | AtGetContext | AtDrawImage
| AtToDataURL | AtVerify.

Definition faultMessage (p : FaultPoint) : string :=
  match p with
  | AtSetSize => "setSize failed"
  | AtSetPixelRatio => "setPixelRatio failed"
  | AtSetClearColor => "setClearColor failed"
  | AtUpdateProjection => "updateProjectionMatrix failed"
  | AtComposerSetSize => "composer.setSize failed"
  | AtRender => "render failed"
  | AtGetContext => "Could not get 2D context for export canvas"
  | AtDrawImage => "drawImage failed"
  | AtToDataURL => "toDataURL failed"
  | AtVerify => "verifyImageDimensions failed"
  end%string.

Definition noFaults : FaultPoint -> bool := fun _ => false.

Definition check (faults : FaultPoint -> bool) (p : FaultPoint) : M unit :=
  if faults p then throw (faultMessage p) else ret tt.

(** [ctx.drawImage(rendererCanvas, ...)]: the browser throws an
    [InvalidStateError] for a source canvas of width or height zero. *)
Definition drawImage (faults : FaultPoint -> bool) (rendererCanvas : Z * Z)
  : M unit :=
  if ((fst rendererCanvas =? 0) || (snd rendererCanvas =? 0))%Z
  then throw "InvalidStateError"%string
  else check faults AtDrawImage.

(** The [try] block; [width] and [height] are the state cells of the
    hook. The export canvas takes the size that the assignments
    [exportCanvas.width = width] and [exportCanvas.height = height] give
    it. (An export canvas left empty behind a renderer canvas that is
    not, which takes a negative fractional size whose integer part is a
    multiple of 2^32, such as -0.5, gives an empty data URL on which
    [verifyImageDimensions] never settles; that case is outside the
    model.) *)
Definition renderBody (faults : FaultPoint -> bool) (width height : Q)
  : M ExportImage :=
  (check faults AtSetSize ;;
   modify (onRenderer (setSize width height)) ;;
   check faults AtSetPixelRatio ;;
   modify (onRenderer (setPixelRatio 1)) ;;
   check faults AtSetClearColor ;;
   modify (onRenderer (setClearColor (mkColor 0 0 0) 0)) ;;
   modify (setBackground None) ;;
   modify (onCamera (fun cam =>
             setProjection (fitAspect (width / height) (projection cam))
                           cam)) ;;
   check faults AtUpdateProjection ;;
   c <- get ;;
   match composer c with
   | Some _ =>
       check faults AtComposerSetSize ;;
       modify (onComposer (composerSetSize width height)) ;;
       check faults AtRender ;;
       modify (draw true)
   | None =>
       check faults AtRender ;;
       modify (draw false)
   end ;;
   check faults AtGetContext ;;
   c <- get ;;
   drawImage faults (domElement (renderer c)) ;;
   check faults AtToDataURL ;;
   check faults AtVerify ;;
   ret (mkImage (Canvas.width width) (Canvas.height height)
                (sourceRectangle (domElement (renderer c)) width height)
                (Js.last_item (draws c))))%render.

(** [renderFrame(frameIndex, scene, camera, renderer)]: snapshot, then
    [try { ... } finally { ... }]. *)
Definition renderFrame (faults : FaultPoint -> bool) (width height : Q)
           (frameIndex : Z) : M ExportImage :=
  (c <- get ;;
   try_finally (renderBody faults width height)
               (restore (takeSnapshot c)))%render.


(** *** Notions used to state properties of [renderFrame] *)

(** Two projections belong to the same camera class. *)
Definition sameClass (p q : Projection) : Prop :=
  match p, q with
  | Perspective _ _ _ _, Perspective _ _ _ _ => True
  | Orthographic _ _ _ _ _ _, Orthographic _ _ _ _ _ _ => True
  | _, _ => False
  end.

(** A computation leaves the camera in its class, however it ends. *)
Definition keepsClass {A : Type} (m : M A) : Prop :=
  forall c,
    sameClass (projection (camera c)) (projection (camera (fst (m c)))).

(** The canvas of a renderer has the pixel size that [setSize] gives
    it. *)
Definition canvasInSync (r : Renderer) : Prop :=
  domElement r = domElement (setSize (fst (size r)) (snd (size r)) r).

(** No call up to and including the render call throws. *)
Definition reachesRender (faults : FaultPoint -> bool) : Prop :=
  faults AtSetSize = false /\ faults AtSetPixelRatio = false
  /\ faults AtSetClearColor = false /\ faults AtUpdateProjection = false
  /\ faults AtComposerSetSize = false /\ faults AtRender = false.

(** The call fails and leaves the context as it found it: nothing was
    drawn and nothing was changed. *)
Definition rejectsUpFront (faults : FaultPoint -> bool) (width height : Q)
           (c : Context) : Prop :=
  exists message, renderFrame faults width height 0 c = (c, inl message).

End Render.

(** ** The frame-change listener of the viewport ([handleFrameChange]) *)

Module Viewport.

Local Open Scope Q_scope.

(** What the listener reads: the props [model], [currentAnimation],
    [totalFrames] and whether [animationMixerRef.current] is set. *)
Record Props := mkProps {
  model : Animation.Model;
  currentAnimation : option string;
  totalFrames : Z;
  hasMixer : bool
}.

(** [const normalizedTime = frame / (totalFramesInEvent - 1)]. *)
Definition normalizedTime (frame totalFramesInEvent : Z) : Q :=
  inject_Z frame / inject_Z (totalFramesInEvent - 1).

(** The listener on the events [set-frame] and [frame-change], for an
    event with [detail = { frame, totalFrames }]: the argument of
    [animationMixerRef.current.setTime], or [None] when the listener
    does nothing. ([event.detail.totalFrames || totalFrames] falls back
    to the prop when the detail is [0]; the redraw of the live view that
    follows the seek is not modelled.) *)
Definition handleFrameChange (props : Props) (frame detailTotalFrames : Z)
  : option Q :=
  match hasMixer props, model props,
        Js.truthy_string (currentAnimation props), currentAnimation props
  with
  | true, Some clips, true, Some current =>
      let totalFramesInEvent :=
        if (detailTotalFrames =? 0)%Z then totalFrames props
        else detailTotalFrames in
      match Animation.find_clip clips current with
      | Some anim =>
          Some (normalizedTime frame totalFramesInEvent
                * Animation.duration anim)
      | None => None
      end
  | _, _, _, _ => None
  end.

(** The effect of the viewport on [[currentFrame, totalFrames, ...]]
    (the seek of the paused preview):
    [normalizedTime = currentFrame / totalFrames]. *)
Definition pausedSeek (props : Props) (isPlaying : bool) (currentFrame : Z)
  : option Q :=
  match hasMixer props, model props,
        Js.truthy_string (currentAnimation props), currentAnimation props
  with
  | true, Some clips, true, Some current =>
      match Animation.find_clip clips current with
      | Some clip =>
          if (totalFrames props >? 0)%Z && negb isPlaying then
            Some (inject_Z currentFrame / inject_Z (totalFrames props)
                  * Animation.duration clip)
          else None
      | None => None
      end
  | _, _, _, _ => None
  end.

End Viewport.

(** ** Export of a frame and of a sequence ([useExport]) *)

Module UseExport.

Import Render.
Local Open Scope string_scope.

Record Toast := mkToast {
  title : string;
  description : string;
  destructive : bool
}.

(** The state cells of the hook. *)
Record Settings := mkSettings {
  width : Q;
  height : Q;
  backgroundColor : string;
  renderSteps : Z;
  outputFolder : option string
}.

(** [useState] initial values. *)
Definition defaultSettings : Settings :=
  mkSettings 128 128 "#121212" 1 None.

(** The Electron bridge: which of [window.electron] and
    [window.electronAPI] offer the storage functions, and what
    [createDirectory] and [saveFile] / [saveImageFile] answer for a
    path. *)
Record Bridge := mkBridge {
  hasElectronAPI : bool;
  hasElectronAPIFallback : bool;
  electron_createDirectory : string -> bool;
  electron_saveFile : string -> bool;
  electronAPI_createDirectory : string -> bool;
  electronAPI_saveImageFile : string -> bool
}.

(** Everything the export functions read and change outside the hook:
    the render context reached through [canvas.__r3f.fiber] ([None]
    while the viewport is not initialised), the toasts shown, the
    downloads triggered, the directories and files written, and the
    times passed to the animation mixer. *)
Record World := mkWorld {
  context : option Context;
  toasts : list Toast;
  downloads : list ExportImage;
  directories : list string;
  files : list (string * ExportImage);
  seeks : list Q
}.

Definition toast (t : Toast) (w : World) : World :=
  mkWorld (context w) (toasts w ++ [t]) (downloads w) (directories w)
          (files w) (seeks w).

Definition setContext (c : Context) (w : World) : World :=
  mkWorld (Some c) (toasts w) (downloads w) (directories w) (files w)
          (seeks w).

Definition download (image : ExportImage) (w : World) : World :=
  mkWorld (context w) (toasts w) (downloads w ++ [image]) (directories w)
          (files w) (seeks w).

Definition addDirectory (path : string) (w : World) : World :=
  mkWorld (context w) (toasts w) (downloads w) (directories w ++ [path])
          (files w) (seeks w).

Definition addFile (path : string) (image : ExportImage) (w : World)
  : World :=
  mkWorld (context w) (toasts w) (downloads w) (directories w)
          (files w ++ [(path, image)]) (seeks w).

Definition seek (time : option Q) (w : World) : World :=
  match time with
  | Some t =>
      mkWorld (context w) (toasts w) (downloads w) (directories w)
              (files w) (seeks w ++ [t])
  | None => w
  end.

Definition sceneError : Toast :=
  mkToast "Error" "Could not access the 3D scene" true.

(** [exportFrame()]. *)
Definition exportFrame (faults : FaultPoint -> bool) (st : Settings)
           (w : World) : World :=
  match context w with
  | None => toast sceneError w
  | Some c =>
      let (c', r) := renderFrame faults (width st) (height st) 0 c in
      let w' := setContext c' w in
      match r with
      | inr dataURL =>
          toast (mkToast "Success"
                         "Frame exported successfully with effects applied"
                         false)
                (download dataURL w')
      | inl message =>
          toast (mkToast "Error" ("Failed to export frame: " ++ message)
                         true) w'
      end
  end.

(** [`${animationFolder}/frame_${paddedIndex}.png`] with
    [paddedIndex = frameIndex.toString().padStart(4, '0')]. *)
Definition frameFilename (animationFolder : string) (frameIndex : Z)
  : string :=
  animationFolder ++ "/frame_"
    ++ Js.padStart (Js.toString frameIndex) 4 "0"%char ++ ".png".

(** A call through the bridge: [window.electron] first, then
    [window.electronAPI] when the first did not succeed. *)
Definition viaBridge (b : Bridge) (first fallback : string -> bool)
           (path : string) : bool :=
  let done := if hasElectronAPI b then first path else false in
  if negb done && hasElectronAPIFallback b then fallback path else done.

(** The loop [for (let i = 0; i < framesToRender.length; i++)] over the
    frames still to export; [i] is the position of the first of them and
    [count] is [framesToRender.length]. It stops at the first exception
    and returns its message. *)
Fixpoint exportLoop (b : Bridge) (faults : Z -> FaultPoint -> bool)
         (st : Settings) (props : Viewport.Props)
         (animationFolder : string) (totalFrames : Z) (count : nat)
         (i : nat) (frames : list Z) (c : Context) (w : World)
  : Context * World * option string :=
  match frames with
  | [] => (c, w, None)
  | frameIndex :: rest =>
      let w1 :=
        seek (Viewport.handleFrameChange props frameIndex totalFrames) w in
      let (c1, r) :=
        renderFrame (faults frameIndex) (width st) (height st)
                    frameIndex c in
      match r with
      | inl message => (c1, w1, Some message)
      | inr dataURL =>
          let filename := frameFilename animationFolder frameIndex in
          if viaBridge b (electron_saveFile b)
                       (electronAPI_saveImageFile b) filename
          then
            let w2 := addFile filename dataURL w1 in
            let w3 :=
              toast (mkToast "Export Progress"
                       ("Frame " ++ Js.toString (Z.of_nat (i + 1)) ++ "/"
                        ++ Js.toString (Z.of_nat count)
                        ++ " exported with effects") false) w2 in
            exportLoop b faults st props animationFolder totalFrames
                       count (i + 1) rest c1 w3
          else (c1, w1, Some ("Failed to save file: " ++ filename))
      end
  end.

(** [exportSequence(currentAnimation, totalFrames)]. The sampling loop
    always returns a list (lemma [framesToRender_total] below), so the
    branch for its running out of fuel is never taken. *)
Definition exportSequence (b : Bridge) (faults : Z -> FaultPoint -> bool)
           (st : Settings) (props : Viewport.Props)
           (currentAnimation : option string) (totalFrames : Z)
           (w : World) : World :=
  match outputFolder st, Js.truthy_string (outputFolder st) with
  | Some folder, true =>
    match currentAnimation, Js.truthy_string currentAnimation with
    | Some animation, true =>
      if negb (hasElectronAPI b) && negb (hasElectronAPIFallback b) then
        toast (mkToast "Error" "File system access is not available" true) w
      else
        match context w with
        | None => toast sceneError w
        | Some c =>
          let failed message c' w' :=
            toast (mkToast "Error"
                     ("Failed to export sequence: " ++ message) true)
                  (setContext c' w') in
          let animationFolder := folder ++ "/" ++ animation in
          if viaBridge b (electron_createDirectory b)
                       (electronAPI_createDirectory b) animationFolder
          then
            let w1 := addDirectory animationFolder w in
            match Sampling.framesToRender totalFrames (renderSteps st) with
            | None => w1
            | Some framesToRender =>
              let count := length framesToRender in
              let w2 :=
                toast (mkToast "Export Started"
                         ("Exporting " ++ Js.toString (Z.of_nat count)
                          ++ " frames with effects applied...") false)
                      w1 in
              match exportLoop b faults st props animationFolder
                               totalFrames count 0 framesToRender c w2
              with
              | (c', w3, None) =>
                  toast (mkToast "Export Complete"
                           (Js.toString (Z.of_nat count)
                            ++ " frames exported with effects to "
                            ++ animationFolder) false)
                        (setContext c' w3)
              | (c', w3, Some message) => failed message c' w3
              end
            end
          else
            failed ("Failed to create directory: " ++ animationFolder) c w
        end
    | _, _ => toast (mkToast "Error" "No animation selected" true) w
    end
  | _, _ =>
      toast (mkToast "Error" "Please select an output folder first" true) w
  end.

(** The paths of the files written, in the order of writing. *)
Definition written (w : World) : list string := map fst (files w).

End UseExport.

(** ** Sample data *)

Module Sample.

Import Render UseExport.
Local Open Scope Q_scope.

(** An initialised 800 x 600 viewport on a display of pixel ratio 2,
    with the orthographic camera and the two-pass composer. *)
Definition camera : Camera :=
  mkCamera (mkVector3 5 5 5) (mkEuler 0 0 0 "XYZ") 1
           (Orthographic (-8) 8 6 (-6) 0.1 1000).

Definition renderer : Renderer :=
  mkRenderer (800, 600) 2 (mkColor 0 0 0) 1 (1600, 1200)%Z.

Definition context : Context :=
  mkContext renderer (Some (mkColor 0.07 0.07 0.07)) camera
            (Some (mkComposer (800, 600) [(800, 600); (800, 600)])) [].

Definition world : World := mkWorld (Some context) [] [] [] [] [].

(** The page before the viewport is initialised. *)
Definition blank : World := mkWorld None [] [] [] [] [].

(** A bridge whose [window.electron] functions succeed. *)
Definition bridge : Bridge :=
  mkBridge true false (fun _ => true) (fun _ => true)
           (fun _ => false) (fun _ => false).

(** A model with one clip of two seconds. *)
Definition clips : list Animation.Clip := [Animation.mkClip "walk" 2].

Definition props : Viewport.Props :=
  Viewport.mkProps (Some clips) (Some "walk"%string) 60 true.

(** The default settings with an output folder selected. *)
Definition settings : Settings :=
  mkSettings 128 128 "#121212" 1 (Some "out"%string).

(** The clock playing the clip, on its last frame, one second after the
    start of the page. *)
Definition clock : Animation.State :=
  Animation.mkState true (Some "walk"%string) ["walk"%string] 59 60
                    (Some 1000).

End Sample.

(** ** Further notions on the render context *)

Module View.

Import Render.

(** What the user sees of the live view: the renderer settings, the
    scene background and the camera. *)
Definition sameView (c c' : Context) : Prop :=
  size (renderer c') = size (renderer c)
  /\ pixelRatio (renderer c') = pixelRatio (renderer c)
  /\ clearColor (renderer c') = clearColor (renderer c)
  /\ clearAlpha (renderer c') = clearAlpha (renderer c)
  /\ background c' = background c
  /\ camera c' = camera c.

(** The number of passes of the composer, if there is one. *)
Definition passCount (c : Context) : option nat :=
  option_map (fun k => length (passSizes k)) (composer c).

(** A computation keeps the composer with its passes, whatever their
    sizes become. *)
Definition keepsPasses {A : Type} (m : M A) : Prop :=
  forall c, passCount (fst (m c)) = passCount c.

(** A source rectangle [(x, y, w, h)] lies within a canvas of the given
    pixel size. *)
Definition withinCanvas (rect : Z * Z * Z * Z) (canvas : Z * Z) : Prop :=
  let '(x, y, w, h) := rect in
  (0 <= x /\ 0 <= y /\ 0 <= w /\ 0 <= h
   /\ x + w <= fst canvas /\ y + h <= snd canvas)%Z.

(** The values a computation can return all satisfy [P]. *)
Definition returnsOnly {A : Type} (P : A -> Prop) (m : M A) : Prop :=
  forall c a, snd (m c) = inr a -> P a.

End View.

(** ** Further notions on the export *)

Module Report.

Import UseExport.

(** The toast shown last. *)
Definition lastToast (w : World) : option Toast := Js.last_item (toasts w).

(** Every storage call through [window.electron] succeeds. *)
Definition storageWorks (b : Bridge) : Prop :=
  hasElectronAPI b = true
  /\ (forall path, electron_createDirectory b path = true)
  /\ (forall path, electron_saveFile b path = true).

End Report.

(** ** More sample data *)

Module Sample2.

Import UseExport.

(** The sample settings with thirty render steps. *)
Definition thirtySteps : Settings :=
  mkSettings 128 128 "#121212" 30 (Some "out"%string).

(** The 31 frames sampled of 60 with thirty render steps. *)
Definition evenFrames : list Z :=
  [0; 2; 4; 6; 8; 10; 12; 14; 16; 18; 20; 22; 24; 26; 28; 30; 32; 34; 36;
   38; 40; 42; 44; 46; 48; 50; 52; 54; 56; 58; 59]%Z.

(** Effects with the saturation at 0 and the hue turned by 120 degrees. *)
Definition greyscale : Shader.ImageEffects := Shader.mkEffects 1 1 0 120 0.

(** An opaque orange texel. *)
Definition orange : Shader.vec4 := Shader.mkVec4 0.9 0.5 0.1 1.

End Sample2.

(** ** Notions used to state properties of the colour grading *)

Module Grade.

Import Shader.
Local Open Scope Q_scope.

(** The colour the shader holds after the brightness and contrast steps,
    before the conversion to HSV. *)
Definition contrasted (u : ImageEffects) (texel : vec4) : vec3 :=
  let color := mkVec3 (x4 texel * brightness u) (y4 texel * brightness u)
                      (z4 texel * brightness u) in
  map3 (fun c => (c - (1 # 2)) * contrast u + (1 # 2)) color.

(** Two colours with the same channel values. *)
Definition sameColour (a b : vec3) : Prop :=
  x3 a == x3 b /\ y3 a == y3 b /\ z3 a == z3 b.

(** A colour whose three channels are all [v]. *)
Definition greyOf (v : Q) (a : vec3) : Prop :=
  x3 a == v /\ y3 a == v /\ z3 a == v.

(** A colour whose three channels are alike. *)
Definition isGrey (a : vec3) : Prop :=
  x3 a == y3 a /\ y3 a == z3 a.

(** The uniforms with another hue, with another saturation. *)
Definition withHue (u : ImageEffects) (h : Q) : ImageEffects :=
  update u (SetHue h).

Definition withSaturation (u : ImageEffects) (s : Q) : ImageEffects :=
  update u (SetSaturation s).

End Grade.

(** ** The camera hook ([useCamera]) *)

Module UseCamera.

Import Render.
Local Open Scope Q_scope.

(** The state cells of the hook. *)
Record State := mkState {
  cameraPosition : Vector3;
  cameraTarget : Vector3;
  modelOffset : Vector3;
  zoom : Q;
  isOrthographic : bool
}.

(** [useState] initial values. *)
Definition initial : State :=
  mkState (mkVector3 5 5 5) (mkVector3 0 0 0) (mkVector3 0 0 0) 1 true.

Definition setCameraPosition (position : Vector3) (st : State) : State :=
  mkState position (cameraTarget st) (modelOffset st) (zoom st)
          (isOrthographic st).

Definition setCameraTarget (target : Vector3) (st : State) : State :=
  mkState (cameraPosition st) target (modelOffset st) (zoom st)
          (isOrthographic st).

(** [setModelOffset(prev => ...)]. *)
Definition setModelOffset (f : Vector3 -> Vector3) (st : State) : State :=
  mkState (cameraPosition st) (cameraTarget st) (f (modelOffset st))
          (zoom st) (isOrthographic st).

Definition setZoom (z : Q) (st : State) : State :=
  mkState (cameraPosition st) (cameraTarget st) (modelOffset st) z
          (isOrthographic st).

Definition setIsOrthographic (checked : bool) (st : State) : State :=
  mkState (cameraPosition st) (cameraTarget st) (modelOffset st) (zoom st)
          checked.

Definition setPresetView (position : Vector3) (st : State) : State :=
  setCameraTarget (mkVector3 0 0 0) (setCameraPosition position st).

Definition viewTopLeft : State -> State := setPresetView (mkVector3 (-5) 5 5).
Definition viewTop : State -> State := setPresetView (mkVector3 0 10 0).
Definition viewTopRight : State -> State := setPresetView (mkVector3 5 5 5).
Definition viewLeft : State -> State := setPresetView (mkVector3 (-10) 0 0).
Definition viewCenter : State -> State :=
  setPresetView (mkVector3 0 10 0.001).
Definition viewRight : State -> State := setPresetView (mkVector3 10 0 0).
Definition viewBottomLeft : State -> State :=
  setPresetView (mkVector3 (-5) 5 (-5)).
Definition viewBottom : State -> State :=
  setPresetView (mkVector3 0 0 (-10)).
Definition viewBottomRight : State -> State :=
  setPresetView (mkVector3 5 5 (-5)).

(** [panCameraUp] moves the model down by a quarter. *)
Definition panCameraUp (st : State) : State :=
  let offset := mkVector3 0 (-0.25) 0 in
  setModelOffset (fun prev =>
                    let newY := vy prev + vy offset in
                    mkVector3 (vx prev) newY (vz prev)) st.

(** [panCameraDown] moves the model up by a quarter. *)
Definition panCameraDown (st : State) : State :=
  let offset := mkVector3 0 0.25 0 in
  setModelOffset (fun prev =>
                    let newY := vy prev + vy offset in
                    mkVector3 (vx prev) newY (vz prev)) st.

Definition resetCamera (st : State) : State :=
  setIsOrthographic true
    (setZoom 1
       (setModelOffset (fun _ => mkVector3 0 0 0)
          (setCameraTarget (mkVector3 0 0 0)
             (setCameraPosition (mkVector3 5 5 5) st)))).

End UseCamera.

(** ** The camera controls of the left panel ([LeftPanel]) *)

Module LeftPanel.

Import Render.
Local Open Scope Q_scope.

(** The panel's own [verticalPan] cell beside the camera hook it is
    given. The orbit controls that the handlers switch off and on are
    not part of this state. *)
Record State := mkPanel {
  verticalPan : Q;
  camera : UseCamera.State
}.

Definition initial : State := mkPanel 0 UseCamera.initial.

(** [for (let i = 0; i < bound; i++) pan();] run with fuel; [None]
    means the fuel ran out. *)
Fixpoint pan_loop (fuel : nat) (i : Z) (bound : Q)
         (pan : UseCamera.State -> UseCamera.State) (c : UseCamera.State)
  : option UseCamera.State :=
  if Js.ltb (inject_Z i) bound then
    match fuel with
    | O => None
    | S fuel' => pan_loop fuel' (i + 1) bound pan (pan c)
    end
  else Some c.

(** [handleVerticalInputChange(value)], the handler of the vertical-pan
    slider. *)
Definition handleVerticalInputChange (value : Q) (st : State)
  : option State :=
  let clampedValue := Js.max (-4) (Js.min 4 value) in
  let diff := clampedValue - verticalPan st in
  if negb (Js.eqb diff 0) then
    let bound := Js.abs diff * 2 in
    let fuel := Z.to_nat (Qceiling bound) in
    let moved :=
      if Js.gtb diff 0 then
        pan_loop fuel 0 bound UseCamera.panCameraUp (camera st)
      else
        pan_loop fuel 0 bound UseCamera.panCameraDown (camera st) in
    match moved with
    | Some c => Some (mkPanel clampedValue c)
    | None => None
    end
  else Some (mkPanel clampedValue (camera st)).

(** The nine preset buttons of the panel. *)
Inductive View :=
| TopLeft | Top | TopRight
| Left | Center | Right
| BottomLeft | Bottom | BottomRight.

Definition preset (v : View) : UseCamera.State -> UseCamera.State :=
  match v with
  | TopLeft => UseCamera.viewTopLeft
  | Top => UseCamera.viewTop
  | TopRight => UseCamera.viewTopRight
  | Left => UseCamera.viewLeft
  | Center => UseCamera.viewCenter
  | Right => UseCamera.viewRight
  | BottomLeft => UseCamera.viewBottomLeft
  | Bottom => UseCamera.viewBottom
  | BottomRight => UseCamera.viewBottomRight
  end.

(** The camera controls of the panel: the preset buttons, the zoom
    slider, the vertical-pan slider and the orthographic switch. *)
Inductive Control :=
| PresetButton (v : View)
| ZoomSlider (value : Q)
| VerticalPanSlider (value : Q)
| OrthographicSwitch (checked : bool).

Definition handle (control : Control) (st : State) : option State :=
  match control with
  | PresetButton v => Some (mkPanel (verticalPan st) (preset v (camera st)))
  | ZoomSlider value =>
      Some (mkPanel (verticalPan st) (UseCamera.setZoom value (camera st)))
  | VerticalPanSlider value => handleVerticalInputChange value st
  | OrthographicSwitch checked =>
      Some (mkPanel (verticalPan st)
                    (UseCamera.setIsOrthographic checked (camera st)))
  end.

(** A run of control events, in order. *)
Fixpoint handleAll (controls : list Control) (st : State) : option State :=
  match controls with
  | [] => Some st
  | control :: rest =>
      match handle control st with
      | Some st' => handleAll rest st'
      | None => None
      end
  end.

(** *** Notions used to state properties of the vertical pan *)

(** A slider value on the half-step grid of the slider ([step={0.5}]). *)
Definition isHalfStep (value : Q) : bool :=
  Js.eqb (inject_Z (Js.floor (value * 2))) (value * 2).

(** The height of the model. *)
Definition modelHeight (st : State) : Q :=
  vy (UseCamera.modelOffset (camera st)).

(** What the pans keep of the camera state. *)
Definition keepsView (c c' : UseCamera.State) : Prop :=
  UseCamera.cameraPosition c' = UseCamera.cameraPosition c
  /\ UseCamera.cameraTarget c' = UseCamera.cameraTarget c
  /\ UseCamera.zoom c' = UseCamera.zoom c
  /\ UseCamera.isOrthographic c' = UseCamera.isOrthographic c
  /\ vx (UseCamera.modelOffset c') = vx (UseCamera.modelOffset c)
  /\ vz (UseCamera.modelOffset c') = vz (UseCamera.modelOffset c).

End LeftPanel.

(** ** The export frame of the viewport container ([ViewportContainer]) *)

Module Container.

Local Open Scope Q_scope.

(** The detail of the [export-frame-update] event, which is also the
    style written to the frame element. *)
Record ExportFrame := mkFrame {
  width : Z;
  height : Z;
  left : Z;
  top : Z;
  exportWidth : Q;
  exportHeight : Q
}.

(** [frameWidth] and [frameHeight] after the minimum and the maximum
    clamp, before rounding. *)
Definition frameSize (viewportWidth viewportHeight
                      exportWidth exportHeight : Q) : Q * Q :=
  let exportAspectRatio := exportWidth / exportHeight in
  let '(frameWidth, frameHeight) :=
    if Js.gtb exportAspectRatio (viewportWidth / viewportHeight) then
      let frameWidth := viewportWidth * 0.8 in
      (frameWidth, frameWidth / exportAspectRatio)
    else
      let frameHeight := viewportHeight * 0.8 in
      (frameHeight * exportAspectRatio, frameHeight) in
  let minSize := Js.min viewportWidth viewportHeight * 0.3 in
  let frameWidth := Js.max frameWidth (minSize * exportAspectRatio) in
  let frameHeight := Js.max frameHeight minSize in
  let frameWidth := Js.min frameWidth (viewportWidth * 0.9) in
  let frameHeight := Js.min frameHeight (viewportHeight * 0.9) in
  (frameWidth, frameHeight).

(** [updateExportFrame()]: nothing while the frame element or the
    viewport box is not mounted; [viewportBox] is the size of the
    bounding rectangle of the viewport box. *)
Definition updateExportFrame (exportFrameRef : bool)
           (viewportBox : option (Q * Q)) (exportWidth exportHeight : Q)
  : option ExportFrame :=
  match viewportBox with
  | Some (viewportWidth, viewportHeight) =>
      if exportFrameRef then
        let '(frameWidth, frameHeight) :=
          frameSize viewportWidth viewportHeight exportWidth exportHeight in
        let frameWidth := Js.round frameWidth in
        let frameHeight := Js.round frameHeight in
        let left_ := Js.round ((viewportWidth - inject_Z frameWidth) / 2) in
        let top_ := Js.round ((viewportHeight - inject_Z frameHeight) / 2) in
        Some (mkFrame frameWidth frameHeight left_ top_
                      exportWidth exportHeight)
      else None
  | None => None
  end.

End Container.

(** ** The viewport as the container mounts it *)

Module Mounted.

Local Open Scope Q_scope.

(** The export size among the props of [<Viewport>]; [None] is a prop
    that is not passed. *)
Record ViewportProps := mkViewportProps {
  exportWidth : option Q;
  exportHeight : option Q
}.

(** The default of a destructured prop, as in [exportWidth = 128]. *)
Definition orDefault (prop : option Q) (default : Q) : Q :=
  match prop with
  | Some value => value
  | None => default
  end.

(** [updateExportPreview] of a viewport with these props:
    [exportWidth = 128, exportHeight = 128] unless they are passed. *)
Definition viewportPreviewSize (props : ViewportProps)
           (containerWidth containerHeight : Q) : Q * Q :=
  Preview.previewSize containerWidth containerHeight
                      (orDefault (exportWidth props) 128)
                      (orDefault (exportHeight props) 128).

Definition viewportPreview (props : ViewportProps)
           (containerWidth containerHeight : Q) : Preview.ExportPreviewRect :=
  Preview.updateExportPreview containerWidth containerHeight
                              (orDefault (exportWidth props) 128)
                              (orDefault (exportHeight props) 128).

(** The props that [ViewportContainer] passes to [<Viewport>]: the
    model, the camera, the animation, the background and the effects,
    and not the export size it was given itself. *)
Definition mountedProps (exportWidth exportHeight : Q) : ViewportProps :=
  mkViewportProps None None.

(** The preview rectangle of the running program for an export size. *)
Definition previewSize (W H exportWidth exportHeight : Q) : Q * Q :=
  viewportPreviewSize (mountedProps exportWidth exportHeight) W H.

Definition exportPreview (W H exportWidth exportHeight : Q)
  : Preview.ExportPreviewRect :=
  viewportPreview (mountedProps exportWidth exportHeight) W H.

(** *** The rectangle as the specification describes it *)

(** Aspect ratio of the export, inside the viewport, shorter side at
    least 30% of the shorter viewport side, no side above 90% of its
    viewport axis: of a size before rounding and a placed rectangle. *)
Definition specified (pw ph : Q) (left_ top_ width_ height_ : Z)
           (W H ew eh : Q) : Prop :=
  pw / ph == ew / eh
  /\ ((0 <= left_)%Z /\ (0 <= top_)%Z
      /\ inject_Z (left_ + width_) <= W
      /\ inject_Z (top_ + height_) <= H)
  /\ 0.3 * Js.min W H <= Js.min pw ph
  /\ (pw <= 0.9 * W /\ ph <= 0.9 * H).

(** ... of the preview rectangle of the running program. *)
Definition asSpecified (W H ew eh : Q) : Prop :=
  let r := exportPreview W H ew eh in
  specified (fst (previewSize W H ew eh)) (snd (previewSize W H ew eh))
            (Preview.left r) (Preview.top r)
            (Preview.width r) (Preview.height r) W H ew eh.

(** ... of the export frame that the container computes itself. *)
Definition frameAsSpecified (W H ew eh : Q) : Prop :=
  match Container.updateExportFrame true (Some (W, H)) ew eh with
  | Some r =>
      specified (fst (Container.frameSize W H ew eh))
                (snd (Container.frameSize W H ew eh))
                (Container.left r) (Container.top r)
                (Container.width r) (Container.height r) W H ew eh
  | None => False
  end.

End Mounted.

(** ** The folder selection of [useExport] ([selectOutputFolder]) *)

Module Folder.

Import UseExport.
Local Open Scope string_scope.

(** What an awaited picker does: it resolves with a folder, with nothing
    or with the empty string when the dialog is cancelled, or it
    rejects. *)
Inductive Answer :=
| Resolves (selectedFolder : option string)
| Rejects (message : string).

(** The three pickers of the bridge, [None] where the function is not
    offered: [window.electron.selectDirectory],
    [window.electronAPI.selectDirectory] and
    [window.electronAPI.openFileDialog]. *)
Record Dialogs := mkDialogs {
  electron_selectDirectory : option Answer;
  electronAPI_selectDirectory : option Answer;
  electronAPI_openFileDialog : option Answer
}.

Inductive Picker :=
| ElectronSelectDirectory
| ElectronAPISelectDirectory
| ElectronAPIOpenFileDialog.

Definition setOutputFolder (folder : string) (st : Settings) : Settings :=
  mkSettings (width st) (height st) (backgroundColor st) (renderSteps st)
             (Some folder).

(** One [if (picker is a function) { ... await ...; if (selectedFolder)
    { ...; return; } }] block of the [try]: the result is the folder
    returned with ([inr]) or the message thrown ([inl]), beside the
    pickers opened so far; [next] is the rest of the [try] block. *)
Definition attempt (picker : Picker) (answer : option Answer)
           (opened : list Picker)
           (next : list Picker -> (string + string) * list Picker)
  : (string + string) * list Picker :=
  match answer with
  | Some (Resolves selectedFolder) =>
      match selectedFolder with
      | Some folder =>
          if Js.truthy_string selectedFolder
          then (inr folder, (opened ++ [picker])%list)
          else next (opened ++ [picker])%list
      | None => next (opened ++ [picker])%list
      end
  | Some (Rejects message) => (inl message, (opened ++ [picker])%list)
  | None => next opened
  end.

(** [selectOutputFolder()]: the settings and the world after the call,
    and the pickers it opened, in order. *)
Definition selectOutputFolder (d : Dialogs) (st : Settings) (w : World)
  : Settings * World * list Picker :=
  let '(result, opened) :=
    attempt ElectronSelectDirectory (electron_selectDirectory d) []
      (fun opened =>
         attempt ElectronAPISelectDirectory (electronAPI_selectDirectory d)
           opened
           (fun opened =>
              attempt ElectronAPIOpenFileDialog
                (electronAPI_openFileDialog d) opened
                (fun opened =>
                   (inl "No working directory selection method available",
                    opened)))) in
  match result with
  | inr selectedFolder =>
      (setOutputFolder selectedFolder st,
       toast (mkToast "Output folder selected" selectedFolder false) w,
       opened)
  | inl message =>
      (st,
       toast (mkToast "Error"
                      ("Failed to select output folder: " ++ message) true)
             w,
       opened)
  end.

(** *** Notions used to state properties of the selection *)

Definition answerOf (d : Dialogs) (p : Picker) : option Answer :=
  match p with
  | ElectronSelectDirectory => electron_selectDirectory d
  | ElectronAPISelectDirectory => electronAPI_selectDirectory d
  | ElectronAPIOpenFileDialog => electronAPI_openFileDialog d
  end.

(** The pickers the bridge offers, in the order of the code. *)
Definition offered (d : Dialogs) : list Picker :=
  filter (fun p => match answerOf d p with Some _ => true | None => false end)
         [ElectronSelectDirectory; ElectronAPISelectDirectory;
          ElectronAPIOpenFileDialog].

(** A dialog closed without a folder. *)
Definition cancelled (a : Answer) : bool :=
  match a with
  | Resolves selectedFolder => negb (Js.truthy_string selectedFolder)
  | Rejects _ => false
  end.

(** The world but for its toasts. *)
Definition sameButToasts (w w' : World) : Prop :=
  context w' = context w /\ downloads w' = downloads w
  /\ directories w' = directories w /\ files w' = files w
  /\ seeks w' = seeks w.

End Folder.

(** ** Notions used to state properties of the file names *)

Module Names.

(** The frame index written in a padded index, read as a decimal
    number. *)
Definition frameIndexOf (paddedIndex : string) : option Z :=
  option_map Z.of_uint (NilEmpty.uint_of_string paddedIndex).

(** [frameIndex.toString().padStart(4, '0')]. *)
Definition paddedIndex (frameIndex : Z) : string :=
  Js.padStart (Js.toString frameIndex) 4 "0"%char.

End Names.

(* ================================================================== *)
(** * Part II: properties *)
(* ================================================================== *)

(** ** Frame sampling *)

Section SamplingFacts.

Import Sampling.
Local Open Scope Z_scope.

Lemma step_of_stride (T rs : Z) : step_of T rs = stride T rs.
Proof.
  unfold step_of, stride, Js.floor. now rewrite <- Zdiv_Qdiv.
Qed.

Lemma stride_pos (T rs : Z) : 1 <= stride T rs.
Proof. unfold stride. lia. Qed.

Lemma pending_done (T s i : Z) (fuel : nat) :
  1 <= s -> T <= i -> pending T s i fuel = [].
Proof.
  intros Hs Hi. unfold pending.
  induction (seq 0 fuel) as [|k ks IH]; simpl; [reflexivity|].
  destruct (Z.ltb_spec (i + Z.of_nat k * s) T); [nia | exact IH].
Qed.

Lemma pending_step (T s i : Z) (fuel : nat) :
  i < T -> pending T s i (S fuel) = i :: pending T s (i + s) fuel.
Proof.
  intros Hi. unfold pending. cbn [seq map filter].
  replace (i + Z.of_nat 0 * s) with i by lia.
  destruct (Z.ltb_spec i T); [|lia]. f_equal.
  rewrite <- seq_shift, map_map. f_equal.
  apply map_ext. intros k. lia.
Qed.

Lemma push_loop_pending (T s : Z) (Hs : 1 <= s) :
  forall (fuel : nat) (i : Z) (acc : list Z),
    (Z.to_nat (T - i) <= fuel)%nat ->
    push_loop fuel i T s acc = Some (acc ++ pending T s i fuel).
Proof.
  induction fuel as [|fuel IH]; intros i acc Hfuel; cbn [push_loop].
  - destruct (Z.ltb_spec i T); [lia|].
    now rewrite pending_done, app_nil_r by lia.
  - destruct (Z.ltb_spec i T).
    + rewrite IH by lia. rewrite pending_step by assumption.
      now rewrite <- app_assoc.
    + now rewrite pending_done, app_nil_r by lia.
Qed.

Lemma pending_multiples (T s : Z) :
  pending T s 0 (Z.to_nat T) = multiples_below T s.
Proof. reflexivity. Qed.

Lemma multiples_below_head (T s : Z) :
  1 <= T -> exists tl, multiples_below T s = 0 :: tl.
Proof.
  intros HT. unfold multiples_below.
  destruct (Z.to_nat T) as [|n] eqn:E; [lia|].
  cbn [seq map filter]. replace (Z.of_nat 0 * s) with 0 by lia.
  destruct (Z.ltb_spec 0 T); [|lia]. eauto.
Qed.

Lemma last_item_last (l : list Z) (d : Z) :
  l <> [] -> Js.last_item l = Some (last l d).
Proof.
  intros Hl. unfold Js.last_item.
  destruct (exists_last Hl) as (l' & a & ->).
  rewrite last_last, length_app, nth_error_app2; cbn [length]; [|lia].
  replace (length l' + 1 - 1 - length l')%nat with 0%nat by lia.
  reflexivity.
Qed.

(** The loop always ends within its fuel: [framesToRender] returns a
    list for every input. *)
Lemma framesToRender_total (T rs : Z) :
  exists frames, framesToRender T rs = Some frames.
Proof.
  unfold framesToRender. rewrite step_of_stride.
  rewrite push_loop_pending by (apply stride_pos || lia).
  destruct (Js.last_item _) as [l|]; [destruct (l =? T - 1)|]; eauto.
Qed.

(** The code computes the list the specification describes. *)
Lemma framesToRender_refines (T rs : Z) :
  1 <= T -> framesToRender T rs = Some (sampled_frames_spec T rs).
Proof.
  intros HT. unfold framesToRender, sampled_frames_spec.
  rewrite step_of_stride.
  rewrite push_loop_pending by (apply stride_pos || lia).
  cbn [app]. rewrite pending_multiples.
  destruct (multiples_below_head T (stride T rs) HT) as (tl & E).
  rewrite (last_item_last _ 0) by (rewrite E; discriminate).
  now destruct (last _ 0 =? T - 1).
Qed.

Lemma In_multiples_below (T s x : Z) :
  1 <= s ->
  In x (multiples_below T s) <-> (0 <= x < T /\ (s | x)).
Proof.
  intros Hs. unfold multiples_below.
  rewrite filter_In, in_map_iff. split.
  - intros ((k & <- & _) & Hlt). apply Z.ltb_lt in Hlt.
    split; [nia|]. now exists (Z.of_nat k).
  - intros ((H0 & HT) & (q & ->)). split; [|now apply Z.ltb_lt].
    exists (Z.to_nat q). split; [nia|]. apply in_seq. nia.
Qed.

Lemma multiples_below_sorted (T s : Z) :
  1 <= s -> StronglySorted Z.lt (multiples_below T s).
Proof.
  intros Hs. unfold multiples_below.
  generalize (Z.to_nat T) as n. generalize 0%nat as a.
  intros a n. revert a.
  induction n as [|n IH]; intros a; cbn [seq map filter].
  - constructor.
  - destruct (Z.of_nat a * s <? T).
    + constructor; [apply IH|].
      apply Forall_forall. intros x Hx.
      apply filter_In in Hx. destruct Hx as (Hx & _).
      apply in_map_iff in Hx. destruct Hx as (k & <- & Hk).
      apply in_seq in Hk. nia.
    + apply IH.
Qed.

Lemma sorted_le_last (l : list Z) (d x : Z) :
  StronglySorted Z.lt l -> In x l -> x <= last l d.
Proof.
  intros Hs. revert x.
  induction Hs as [|a l Hs IH Ha]; intros x Hx; [contradiction|].
  destruct l as [|b l'].
  - destruct Hx as [<-|[]]. cbn. lia.
  - change (last (a :: b :: l') d) with (last (b :: l') d).
    destruct Hx as [<-|Hx]; [|now apply IH].
    apply Z.lt_le_incl, Z.lt_le_trans with b.
    + apply (proj1 (Forall_forall _ _) Ha). now left.
    + apply IH. now left.
Qed.

Lemma sorted_snoc (l : list Z) (y : Z) :
  StronglySorted Z.lt l -> (forall x, In x l -> x < y) ->
  StronglySorted Z.lt (l ++ [y]).
Proof.
  induction 1 as [|a l Hs IH Ha]; intros Hy; cbn [app].
  - repeat constructor.
  - constructor.
    + apply IH. intros x Hx. apply Hy. now right.
    + apply Forall_app. split; [exact Ha|].
      constructor; [|constructor]. apply Hy. now left.
Qed.

Lemma sampled_frames_sorted (T rs : Z) :
  1 <= T -> StronglySorted Z.lt (sampled_frames_spec T rs).
Proof.
  intros HT. unfold sampled_frames_spec.
  pose proof (stride_pos T rs) as Hs.
  pose proof (multiples_below_sorted T _ Hs) as Hsorted.
  destruct (Z.eqb_spec (last (multiples_below T (stride T rs)) 0) (T - 1))
    as [E|N]; [exact Hsorted|].
  apply sorted_snoc; [exact Hsorted|]. intros x Hx.
  pose proof (sorted_le_last _ 0 _ Hsorted Hx) as Hle.
  destruct (multiples_below_head T (stride T rs) HT) as (tl & E).
  assert (Hlast : In (last (multiples_below T (stride T rs)) 0)
                     (multiples_below T (stride T rs))).
  { rewrite E.
    destruct (@exists_last _ (0 :: tl)) as (l' & a & ->); [discriminate|].
    rewrite last_last. apply in_or_app. right. now left. }
  apply In_multiples_below in Hlast; [|exact Hs]. lia.
Qed.

Lemma In_sampled_frames (T rs x : Z) :
  1 <= T ->
  In x (sampled_frames_spec T rs) <->
  ((0 <= x < T /\ (stride T rs | x)) \/ x = T - 1).
Proof.
  intros HT. unfold sampled_frames_spec.
  pose proof (stride_pos T rs) as Hs.
  destruct (multiples_below_head T (stride T rs) HT) as (tl & E).
  assert (Hlast : In (last (multiples_below T (stride T rs)) 0)
                     (multiples_below T (stride T rs))).
  { rewrite E.
    destruct (@exists_last _ (0 :: tl)) as (l' & a & ->); [discriminate|].
    rewrite last_last. apply in_or_app. right. now left. }
  destruct (Z.eqb_spec (last (multiples_below T (stride T rs)) 0) (T - 1))
    as [Elast|N].
  - rewrite In_multiples_below by exact Hs. split; [tauto|].
    intros [H | Hx]; [exact H|]. subst x.
    rewrite <- Elast. now apply In_multiples_below.
  - rewrite in_app_iff, In_multiples_below by exact Hs. cbn [In].
    split; intros [H|H]; auto.
    destruct H as [H|[]]. now right.
Qed.

(** C2. For totalFrames >= 1 and renderSteps >= 1, [exportSequence]
    samples the multiples of stride = max(1, floor(totalFrames /
    renderSteps)) below totalFrames, with totalFrames - 1 appended when
    the last multiple is not totalFrames - 1; the list is strictly
    ascending; 100 frames with 7 render steps give
    0,14,28,42,56,70,84,98,99 and 5 frames with 12 render steps give
    0,1,2,3,4. *)
Theorem frame_sampling :
  (forall T rs : Z,
      1 <= T -> 1 <= rs ->
      framesToRender T rs = Some (sampled_frames_spec T rs)
      /\ (forall x, In x (sampled_frames_spec T rs) <->
                    ((0 <= x < T /\ (stride T rs | x)) \/ x = T - 1))
      /\ StronglySorted Z.lt (sampled_frames_spec T rs))
  /\ framesToRender 100 7 = Some [0; 14; 28; 42; 56; 70; 84; 98; 99]
  /\ framesToRender 5 12 = Some [0; 1; 2; 3; 4].
Proof.
  split; [|split; reflexivity].
  intros T rs HT _. split; [|split].
  - now apply framesToRender_refines.
  - intros x. now apply In_sampled_frames.
  - now apply sampled_frames_sorted.
Qed.

Lemma frame_sampling_witness :
  framesToRender 100 7 = Some (sampled_frames_spec 100 7)
  /\ (forall x, In x (sampled_frames_spec 100 7) <->
                ((0 <= x < 100 /\ (stride 100 7 | x)) \/ x = 100 - 1))
  /\ StronglySorted Z.lt (sampled_frames_spec 100 7).
Proof. apply (proj1 frame_sampling 100 7); lia. Defined.

End SamplingFacts.

(** ** The frame renderer *)

Section RenderFacts.

Import Render.
Local Open Scope render_scope.

Lemma sameClass_refl (p : Projection) : sameClass p p.
Proof. now destruct p. Qed.

Lemma sameClass_trans (p q r : Projection) :
  sameClass p q -> sameClass q r -> sameClass p r.
Proof. destruct p, q, r; simpl; tauto. Qed.

Lemma sameClass_fitAspect (a : Q) (p : Projection) :
  sameClass p (fitAspect a p).
Proof. now destruct p. Qed.

Lemma keeps_ret {A : Type} (a : A) : keepsClass (ret a).
Proof. intros c. apply sameClass_refl. Qed.

Lemma keeps_throw {A : Type} (e : string) : keepsClass (@throw A e).
Proof. intros c. apply sameClass_refl. Qed.

Lemma keeps_get : keepsClass get.
Proof. intros c. apply sameClass_refl. Qed.

Lemma keeps_modify (f : Context -> Context) :
  (forall c, sameClass (projection (camera c)) (projection (camera (f c)))) ->
  keepsClass (modify f).
Proof. intros Hf c. apply Hf. Qed.

Lemma keeps_bind {A B : Type} (m : M A) (k : A -> M B) :
  keepsClass m -> (forall a, keepsClass (k a)) -> keepsClass (bind m k).
Proof.
  intros Hm Hk c. unfold bind. specialize (Hm c).
  destruct (m c) as [c1 [e|a]]; [exact Hm|].
  eapply sameClass_trans; [exact Hm | apply Hk].
Qed.

Lemma keeps_check (faults : FaultPoint -> bool) (p : FaultPoint) :
  keepsClass (check faults p).
Proof.
  unfold check. destruct (faults p); [apply keeps_throw | apply keeps_ret].
Qed.

Lemma keeps_drawImage (faults : FaultPoint -> bool) (canvas : Z * Z) :
  keepsClass (drawImage faults canvas).
Proof.
  unfold drawImage.
  destruct (_ || _)%bool; [apply keeps_throw | apply keeps_check].
Qed.

Create HintDb render.
#[local] Hint Resolve keeps_ret keeps_throw keeps_get keeps_check
  keeps_drawImage sameClass_refl sameClass_fitAspect : render.

Ltac keeps_step :=
  lazymatch goal with
  | |- keepsClass (bind _ _) => apply keeps_bind; [|intros ?]
  | |- keepsClass (modify _) =>
      apply keeps_modify; intros ?; simpl; auto with render
  | |- keepsClass (match composer ?c with _ => _ end) =>
      destruct (composer c)
  | |- keepsClass _ => solve [auto with render]
  end.

(** The [try] block never changes the class of the camera. *)
Lemma keeps_renderBody (faults : FaultPoint -> bool) (width height : Q) :
  keepsClass (renderBody faults width height).
Proof. unfold renderBody. repeat keeps_step. Qed.

(** What the [finally] block leaves, from any context whose camera is of
    the class the snapshot was taken from. *)
Lemma restore_resets (c c1 : Context) :
  sameClass (projection (camera c)) (projection (camera c1)) ->
  let c2 := fst (restore (takeSnapshot c) c1) in
  snd (restore (takeSnapshot c) c1) = inr tt
  /\ size (renderer c2) = size (renderer c)
  /\ pixelRatio (renderer c2) = pixelRatio (renderer c)
  /\ clearColor (renderer c2) = clearColor (renderer c)
  /\ clearAlpha (renderer c2) = clearAlpha (renderer c)
  /\ domElement (renderer c2)
     = domElement (setSize (fst (size (renderer c)))
                           (snd (size (renderer c))) (renderer c))
  /\ background c2 = background c
  /\ camera c2 = camera c
  /\ draws c2 = draws c1.
Proof.
  intros Hclass.
  destruct c as [r b [pos rot z p] comp ds].
  destruct c1 as [r1 b1 [pos1 rot1 z1 p1] comp1 ds1].
  destruct r as [[w h] pr cc ca canvas].
  destruct p, p1; simpl in Hclass; try contradiction;
    cbn; repeat split; reflexivity.
Qed.

(** The context [renderFrame] leaves is the one the [finally] block
    makes of the context the [try] block left. *)
Lemma renderFrame_exit (faults : FaultPoint -> bool) (width height : Q)
      (frameIndex : Z) (c : Context) :
  fst (renderFrame faults width height frameIndex c)
  = fst (restore (takeSnapshot c)
                 (fst (renderBody faults width height c))).
Proof.
  unfold renderFrame, bind, get, try_finally.
  destruct (renderBody faults width height c) as [c1 r].
  cbn [fst]. destruct (restore (takeSnapshot c) c1) as [c2 [e|u]];
    reflexivity.
Qed.

(** C1. Whatever [renderFrame] is called with and wherever its [try]
    block throws, on exit the renderer's size, pixel ratio, clear colour
    and clear alpha, the scene background and the camera (position,
    rotation, zoom and the fields of its projection) are what they were
    before the call; the canvas of a renderer that was in sync with its
    size is left as it was too. *)
Theorem renderFrame_restores :
  forall (faults : FaultPoint -> bool) (width height : Q) (frameIndex : Z)
         (c : Context),
    let c' := fst (renderFrame faults width height frameIndex c) in
    size (renderer c') = size (renderer c)
    /\ pixelRatio (renderer c') = pixelRatio (renderer c)
    /\ clearColor (renderer c') = clearColor (renderer c)
    /\ clearAlpha (renderer c') = clearAlpha (renderer c)
    /\ background c' = background c
    /\ camera c' = camera c
    /\ (canvasInSync (renderer c) -> renderer c' = renderer c).
Proof.
  intros faults width height frameIndex c c'. subst c'.
  rewrite renderFrame_exit.
  destruct (restore_resets c (fst (renderBody faults width height c))
              (keeps_renderBody faults width height c))
    as (_ & Hsize & Hpr & Hcc & Hca & Hdom & Hbg & Hcam & _).
  repeat split; try assumption.
  intros Hsync. unfold canvasInSync in Hsync.
  destruct (renderer (fst (restore _ _))) as [s' pr' cc' ca' d'].
  destruct (renderer c) as [s0 pr0 cc0 ca0 d0].
  simpl in *. congruence.
Qed.

Lemma renderFrame_restores_witness :
  canvasInSync (renderer Sample.context)
  /\ renderer (fst (renderFrame noFaults 64 128 0 Sample.context))
     = renderer Sample.context
  /\ camera (fst (renderFrame noFaults 64 128 0 Sample.context))
     = camera Sample.context.
Proof.
  destruct (renderFrame_restores noFaults 64 128 0 Sample.context)
    as (_ & _ & _ & _ & _ & Hcam & Hsync).
  split; [reflexivity|]. split; [apply Hsync; reflexivity | exact Hcam].
Defined.

(** Both outcomes occur: the sample frame is exported, and a render call
    that throws makes the call fail. *)
Example renderFrame_returns :
  exists image,
    snd (renderFrame noFaults 64 128 0 Sample.context) = inr image
    /\ imageWidth image = 64%Z /\ imageHeight image = 128%Z.
Proof. eexists. split; [reflexivity|]. split; reflexivity. Qed.

Example renderFrame_throws :
  snd (renderFrame (fun p => match p with AtRender => true | _ => false end)
                   64 128 0 Sample.context)
  = inl "render failed"%string.
Proof. reflexivity. Qed.

(** *** Guards of the export *)

Import UseExport.

(** The draws of the [try] block when nothing throws before the render
    call: one more, at the requested size, at pixel ratio 1, on a
    transparent clear colour and without scene background. *)
Lemma renderBody_draws (faults : FaultPoint -> bool) (width height : Q)
      (c : Context) :
  reachesRender faults ->
  exists d,
    draws (fst (renderBody faults width height c)) = draws c ++ [d]
    /\ drawSize d = (width, height) /\ drawPixelRatio d = 1
    /\ drawClearAlpha d = 0 /\ drawBackground d = None.
Proof.
  intros (H1 & H2 & H3 & H4 & H5 & H6).
  unfold renderBody, bind, check, modify, get, drawImage, check.
  rewrite H1, H2, H3, H4. cbn.
  destruct (composer c) as [comp|]; rewrite ?H5, H6; cbn;
    destruct (faults AtGetContext); cbn;
    try (eexists; repeat split; reflexivity);
    destruct (_ || _)%bool; cbn;
    try (eexists; repeat split; reflexivity);
    destruct (faults AtDrawImage); cbn;
    try (eexists; repeat split; reflexivity);
    destruct (faults AtToDataURL); cbn;
    try (eexists; repeat split; reflexivity);
    destruct (faults AtVerify); cbn;
    eexists; repeat split; reflexivity.
Qed.

(** The claim as the specification states it fails: with width 0 the
    sample frame is drawn before the call fails. *)
Lemma zero_width_not_rejected :
  ~ rejectsUpFront noFaults 0 128 Sample.context.
Proof.
  intros (message & H).
  apply (f_equal (fun x => length (draws (fst x)))) in H.
  vm_compute in H. discriminate.
Qed.

(** C5, amended. Without an initialised renderer, scene and camera,
    [exportFrame] shows the toast "Could not access the 3D scene" and
    [exportSequence] shows an error toast, and neither does anything
    else. The export size is not checked: for every width and height,
    unless a call before the render throws, [renderFrame] draws once at
    that size, at pixel ratio 1, transparent and without background. *)
Theorem export_guards :
  (forall faults st w,
      context w = None -> exportFrame faults st w = toast sceneError w)
  /\ (forall b faults st props animation totalFrames w,
         context w = None ->
         exists t,
           exportSequence b faults st props animation totalFrames w
           = toast t w
           /\ destructive t = true)
  /\ (forall faults width height frameIndex c,
         reachesRender faults ->
         exists d,
           draws (fst (renderFrame faults width height frameIndex c))
           = draws c ++ [d]
           /\ drawSize d = (width, height) /\ drawPixelRatio d = 1
           /\ drawClearAlpha d = 0 /\ drawBackground d = None).
Proof.
  split; [|split].
  - intros faults st w Hw. unfold exportFrame. now rewrite Hw.
  - intros b faults st props animation totalFrames w Hw.
    unfold exportSequence. rewrite Hw.
    destruct (outputFolder st) as [folder|];
      [destruct (Js.truthy_string _)|];
      try (eexists; split; reflexivity).
    destruct animation as [animation|];
      [destruct (Js.truthy_string _)|];
      try (eexists; split; reflexivity).
    destruct (_ && _)%bool; eexists; split; reflexivity.
  - intros faults width height frameIndex c Hreach.
    rewrite renderFrame_exit.
    destruct (restore_resets c (fst (renderBody faults width height c))
                (keeps_renderBody faults width height c))
      as (_ & _ & _ & _ & _ & _ & _ & _ & Hdraws).
    rewrite Hdraws. now apply renderBody_draws.
Qed.

Lemma export_guards_witness :
  exportFrame noFaults Sample.settings Sample.blank
  = toast sceneError Sample.blank
  /\ (exists t,
        exportSequence Sample.bridge (fun _ => noFaults) Sample.settings
                       Sample.props (Some "walk"%string) 60 Sample.blank
        = toast t Sample.blank
        /\ destructive t = true)
  /\ exists d,
       draws (fst (renderFrame noFaults 0 128 0 Sample.context))
       = draws Sample.context ++ [d]
       /\ drawSize d = (0, 128) /\ drawPixelRatio d = 1
       /\ drawClearAlpha d = 0 /\ drawBackground d = None.
Proof.
  destruct export_guards as (Hframe & Hsequence & Hdraw). split; [|split].
  - apply Hframe. reflexivity.
  - apply Hsequence. reflexivity.
  - apply Hdraw. repeat split.
Defined.

Example exportSequence_blank :
  exportSequence Sample.bridge (fun _ => noFaults) Sample.settings
                 Sample.props (Some "walk"%string) 60 Sample.blank
  = toast sceneError Sample.blank.
Proof. reflexivity. Qed.

End RenderFacts.

(** ** The sequence export *)

Section SequenceFacts.

Import Sampling Render UseExport.
Local Open Scope Z_scope.

(** With one render step the stride is the frame count: the first and
    the last frame are all that is sampled. *)
Lemma framesToRender_one_step (T : Z) :
  2 <= T -> framesToRender T 1 = Some [0; T - 1].
Proof.
  intros HT. unfold framesToRender.
  rewrite step_of_stride. unfold stride.
  rewrite Z.div_1_r, Z.max_r by lia.
  destruct (Z.to_nat T) as [|fuel] eqn:E; [lia|].
  cbn [push_loop app].
  destruct (Z.ltb_spec 0 T); [|lia].
  replace (push_loop fuel (0 + T) T T [0]) with (Some [0]).
  - unfold Js.last_item. cbn [length Nat.sub nth_error app].
    destruct (Z.eqb_spec 0 (T - 1)); [lia | reflexivity].
  - destruct fuel; cbn [push_loop];
      destruct (Z.ltb_spec (0 + T) T); (lia || reflexivity).
Qed.

(** C3, the code at the input of the claim. The two-second clip gives 60
    frames, and the export with the default [renderSteps = 1] writes two
    files, frame_0000.png and frame_0059.png, not sixty. *)
Theorem one_render_step_writes_two_files :
  Animation.totalFrames
    (Animation.on_model_change (Some Sample.clips) Animation.initial) = 60
  /\ framesToRender 60 1 = Some [0; 59]
  /\ written (exportSequence Sample.bridge (fun _ => noFaults)
                             Sample.settings Sample.props
                             (Some "walk"%string) 60 Sample.world)
     = ["out/walk/frame_0000.png"; "out/walk/frame_0059.png"]%string.
Proof. repeat split; vm_compute; reflexivity. Qed.

(** C7, the code at a pair of inputs of the claim. Of 100 frames, 1
    render step samples 2 frames, 7 render steps sample 9 and 12 render
    steps sample 14: more render steps, more frames. *)
Theorem more_render_steps_more_frames :
  option_map (@length Z) (framesToRender 100 1) = Some 2%nat
  /\ option_map (@length Z) (framesToRender 100 7) = Some 9%nat
  /\ option_map (@length Z) (framesToRender 100 12) = Some 14%nat.
Proof. repeat split; vm_compute; reflexivity. Qed.

(** The time the listener seeks to, in general. *)
Lemma handleFrameChange_time (props : Viewport.Props)
      (clips : list Animation.Clip) (current : string)
      (anim : Animation.Clip) (frame total : Z) :
  Viewport.hasMixer props = true ->
  Viewport.model props = Some clips ->
  Viewport.currentAnimation props = Some current ->
  current <> EmptyString ->
  Animation.find_clip clips current = Some anim ->
  total <> 0 ->
  Viewport.handleFrameChange props frame total
  = Some (inject_Z frame / inject_Z (total - 1) * Animation.duration anim)%Q.
Proof.
  intros Hmixer Hmodel Hcurrent Hname Hfind Htotal.
  unfold Viewport.handleFrameChange, Viewport.normalizedTime.
  rewrite Hmixer, Hmodel, Hcurrent. cbn [Js.truthy_string].
  destruct current as [|ch rest]; [congruence|].
  rewrite Hfind. destruct (Z.eqb_spec total 0); [contradiction|reflexivity].
Qed.

(** C6, the code at inputs of the claim. The listener that the export
    drives divides by [totalFrames - 1]: frame 30 of 60 is sought at
    30/59 of the clip, not at 30/60, and the last frame, 59, at the very
    end of the two-second clip; the seek of the paused preview divides
    by [totalFrames]. *)
Theorem export_seek_divides_by_last_index :
  (Viewport.normalizedTime 30 60 == 30 # 59)%Q
  /\ ~ (Viewport.normalizedTime 30 60 == inject_Z 30 / inject_Z 60)%Q
  /\ Viewport.handleFrameChange Sample.props 59 60
     = Some (Viewport.normalizedTime 59 60 * 2)%Q
  /\ (Viewport.normalizedTime 59 60 * 2 == 2)%Q
  /\ Forall2 Qeq
       (seeks (exportSequence Sample.bridge (fun _ => noFaults)
                              Sample.settings Sample.props
                              (Some "walk"%string) 60 Sample.world))
       [0%Q; 2%Q]
  /\ Viewport.pausedSeek Sample.props false 30
     = Some (inject_Z 30 / inject_Z 60 * 2)%Q.
Proof.
  split; [reflexivity|]. split; [discriminate|].
  split; [reflexivity|]. split; [reflexivity|].
  split; [|reflexivity].
  vm_compute. repeat constructor.
Qed.

End SequenceFacts.

(** ** The animation clock *)

Section AnimationFacts.

Import Animation.
Local Open Scope Z_scope.

Lemma updateFrame_frame (timestamp : Q) (st : State) :
  totalFrames (updateFrame timestamp st) = totalFrames st
  /\ (currentFrame (updateFrame timestamp st) = currentFrame st
      \/ currentFrame (updateFrame timestamp st)
         = Z.rem (currentFrame st + 1) (totalFrames st)).
Proof.
  unfold updateFrame. destruct (Js.geb _ frameTime); cbn; auto.
Qed.

Lemma rem_wraps (f T : Z) :
  0 <= f < T -> Z.rem (f + 1) T = (f + 1) mod T /\ 0 <= (f + 1) mod T < T.
Proof.
  intros H. split.
  - apply Z.rem_mod_nonneg; lia.
  - apply Z.mod_pos_bound. lia.
Qed.

(** The operations of the clock, each on its own. With at least one
    frame and the current frame in range, the
    playback tick keeps the frame or moves it to the next one modulo
    totalFrames, and moves it once a frame time has elapsed; nextFrame
    steps forward and wraps from totalFrames - 1 to 0; previousFrame
    steps back and wraps from 0 to totalFrames - 1; all three keep the
    frame in range and the frame count unchanged. [setAnimation], before
    the effect of the hook runs again, sets the current frame to 0 and,
    for a clip of the model, the frame count to floor(duration * 30),
    which leaves the frame in range when that count is at least 1. *)
Theorem clock_keeps_frame_in_range :
  forall st : State,
    1 <= totalFrames st -> frame_in_range st ->
    (forall timestamp,
        frame_in_range (updateFrame timestamp st)
        /\ totalFrames (updateFrame timestamp st) = totalFrames st
        /\ (currentFrame (updateFrame timestamp st) = currentFrame st
            \/ currentFrame (updateFrame timestamp st)
               = (currentFrame st + 1) mod totalFrames st))
    /\ (forall t0 timestamp,
           lastFrameTime st = Some t0 -> ~ (t0 == 0)%Q ->
           (t0 + frameTime <= timestamp)%Q ->
           currentFrame (updateFrame timestamp st)
           = (currentFrame st + 1) mod totalFrames st)
    /\ (frame_in_range (nextFrame st)
        /\ totalFrames (nextFrame st) = totalFrames st
        /\ currentFrame (nextFrame st)
           = (currentFrame st + 1) mod totalFrames st
        /\ (currentFrame st = totalFrames st - 1 ->
            currentFrame (nextFrame st) = 0))
    /\ (frame_in_range (previousFrame st)
        /\ totalFrames (previousFrame st) = totalFrames st
        /\ currentFrame (previousFrame st)
           = (currentFrame st - 1) mod totalFrames st
        /\ (currentFrame st = 0 ->
            currentFrame (previousFrame st) = totalFrames st - 1))
    /\ (forall (clips : list Clip) (animation : string) (anim : Clip),
           find_clip clips animation = Some anim ->
           let st' := setAnimation (Some clips) animation st in
           currentAnimation st' = Some animation
           /\ currentFrame st' = 0
           /\ totalFrames st' = Js.floor (duration anim * 30)
           /\ (1 <= totalFrames st' -> frame_in_range st')).
Proof.
  intros st HT Hin. unfold frame_in_range in *.
  destruct (rem_wraps (currentFrame st) (totalFrames st) Hin) as (Hrem & Hmod).
  split; [|split; [|split; [|split]]].
  - intros timestamp.
    destruct (updateFrame_frame timestamp st) as (Htot & [Hf|Hf]).
    + rewrite Htot, Hf. auto.
    + rewrite Htot, Hf, Hrem. auto.
  - intros t0 timestamp Hlast Ht0 Hel.
    unfold updateFrame. rewrite Hlast.
    unfold Js.eqb, Js.geb, Js.leb.
    destruct (Qeq_bool t0 0) eqn:E; [apply Qeq_bool_iff in E; contradiction|].
    replace (Qle_bool frameTime (timestamp - t0)) with true.
    + cbn. exact Hrem.
    + symmetry. apply Qle_bool_iff.
      apply Qplus_le_l with (z := t0). ring_simplify.
      now rewrite Qplus_comm.
  - unfold nextFrame. cbn.
    destruct (Z.geb_spec (currentFrame st) (totalFrames st - 1)) as [Hge|Hlt].
    + assert (E : currentFrame st + 1 = totalFrames st) by lia.
      rewrite E, Z.mod_same by lia. repeat split; lia.
    + rewrite Z.mod_small by lia. repeat split; lia.
  - unfold previousFrame. cbn.
    destruct (Z.leb_spec (currentFrame st) 0) as [Hle|Hgt].
    + assert (E : currentFrame st = 0) by lia.
      assert (Hm : (0 - 1) mod totalFrames st = totalFrames st - 1).
      { symmetry. apply Z.mod_unique with (q := -1); lia. }
      rewrite E, Hm. repeat split; lia.
    + rewrite Z.mod_small by lia. repeat split; lia.
  - intros clips animation anim Hfind.
    unfold setAnimation. rewrite Hfind. cbn.
    repeat split; try reflexivity; lia.
Qed.

Lemma clock_keeps_frame_in_range_witness :
  currentFrame (updateFrame 1034 Sample.clock) = 0
  /\ currentFrame (nextFrame Sample.clock) = 0
  /\ currentFrame (previousFrame Sample.clock) = 58
  /\ totalFrames (setAnimation (Some Sample.clips) "walk" Sample.clock) = 60.
Proof.
  assert (HT : 1 <= totalFrames Sample.clock) by (cbn; lia).
  assert (Hin : frame_in_range Sample.clock)
    by (unfold frame_in_range; cbn; lia).
  destruct (clock_keeps_frame_in_range Sample.clock HT Hin)
    as (_ & Htick & (_ & _ & Hnext & _) & (_ & _ & Hprev & _) & Hset).
  split; [|split; [|split]].
  - rewrite (Htick 1000%Q 1034%Q); [reflexivity | reflexivity | | ].
    + discriminate.
    + discriminate.
  - rewrite Hnext. reflexivity.
  - rewrite Hprev. reflexivity.
  - destruct (Hset Sample.clips "walk"%string (mkClip "walk" 2))
      as (_ & _ & Htot & _); [reflexivity|].
    rewrite Htot. reflexivity.
Defined.

(** The effect of the hook on [[model, currentAnimation]] runs again after
    a switch and takes the frame count from the first clip: the count set
    by [setAnimation] for the selected clip does not outlast it. *)
Remark model_effect_takes_first_clip :
  let model := Some [mkClip "walk" 2; mkClip "run" 1] in
  let st := on_model_change model initial in
  totalFrames (setAnimation model "run" st) = 30
  /\ totalFrames (on_model_change model (setAnimation model "run" st)) = 60
  /\ frame_in_range (on_model_change model (setAnimation model "run" st)).
Proof. repeat split; vm_compute; congruence. Qed.

(** C9. Switching the animation does not leave the hook with the frame
    count of the selected clip. [setAnimation] sets totalFrames to
    floor(duration * 30) of the clip it is given, but the effect of the
    hook on [[model, currentAnimation]] runs again after the switch and
    sets totalFrames from the first clip of the model. After a switch to
    another animation the hook holds the selected animation, frame 0 and
    the frame count of the first clip, with the frame in range when that
    count is at least 1. For a model with a clip "walk" of 2 s and a clip
    "run" of 1 s, switching from "walk" to "run" ends with 60 frames, not
    with floor(1 * 30) = 30. *)
Theorem switch_keeps_first_clip_count :
  (forall (first : Clip) (rest : list Clip) (animation : string)
          (st : State),
      animation <> EmptyString ->
      currentAnimation st <> Some animation ->
      let st' := selectAnimation (Some (first :: rest)) animation st in
      currentAnimation st' = Some animation
      /\ currentFrame st' = 0
      /\ totalFrames st' = frames_of first
      /\ (1 <= frames_of first -> frame_in_range st'))
  /\ (let model := Some [mkClip "walk" 2; mkClip "run" 1] in
      let st := on_model_change model initial in
      currentAnimation st = Some "walk"%string
      /\ totalFrames st = 60
      /\ find_clip [mkClip "walk" 2; mkClip "run" 1] "run"
         = Some (mkClip "run" 1)
      /\ totalFrames (setAnimation model "run" st) = Js.floor (1 * 30)
      /\ totalFrames (selectAnimation model "run" st) = 60
      /\ totalFrames (selectAnimation model "run" st)
         <> Js.floor (duration (mkClip "run" 1) * 30)).
Proof.
  split.
  - intros first rest animation st Hname Hother st'. subst st'.
    assert (Hrun : selectAnimation (Some (first :: rest)) animation st
                   = on_model_change (Some (first :: rest))
                       (setAnimation (Some (first :: rest)) animation st)).
    { unfold selectAnimation.
      destruct (currentAnimation st) as [current|]; [|reflexivity].
      destruct (String.eqb_spec current animation) as [->|_];
        [now contradiction Hother | reflexivity]. }
    rewrite Hrun. unfold on_model_change, setAnimation, frame_in_range.
    destruct animation as [|a0 animation']; [contradiction|].
    destruct (find_clip (first :: rest) (String a0 animation'));
      cbn; repeat split; try reflexivity; lia.
  - cbv zeta. repeat split; try reflexivity. vm_compute. discriminate.
Qed.

Lemma switch_keeps_first_clip_count_witness :
  totalFrames (selectAnimation (Some [mkClip "walk" 2; mkClip "run" 1]) "run"
                 (on_model_change (Some [mkClip "walk" 2; mkClip "run" 1])
                                  initial))
  = frames_of (mkClip "walk" 2).
Proof.
  destruct switch_keeps_first_clip_count as (Hswitch & _).
  apply (Hswitch (mkClip "walk" 2) [mkClip "run" 1] "run"%string
                 (on_model_change (Some [mkClip "walk" 2; mkClip "run" 1])
                                  initial));
    discriminate.
Defined.

End AnimationFacts.

(** ** The effects shader *)

Section ShaderFacts.

Import Shader.
Local Open Scope Q_scope.

(** C10. Whatever the brightness, contrast, saturation, hue and colour
    steps, and so after any run of the setters of [useImageEffects], the
    fragment written has the alpha of the texel read. *)
Theorem shader_keeps_alpha :
  (forall (u : ImageEffects) (texel : vec4), w4 (main u texel) = w4 texel)
  /\ (forall (calls : list Action) (texel : vec4),
         w4 (main (useImageEffects calls) texel) = w4 texel).
Proof.
  assert (Halpha : forall u texel, w4 (main u texel) = w4 texel).
  { intros u texel. unfold main. reflexivity. }
  split; [exact Halpha|].
  intros calls texel. apply Halpha.
Qed.

Lemma posterize_channel_four (c : Q) :
  posterize_channel 4 c = inject_Z (Qfloor (c * 4)) / 4.
Proof. reflexivity. Qed.

Lemma posterize_channel_off (c : Q) : posterize_channel 0 c = c.
Proof. reflexivity. Qed.

Lemma posterize_channel_zero (steps c : Q) :
  steps == 0 -> posterize_channel steps c = c.
Proof.
  intros Hs. unfold posterize_channel, Js.gtb, Js.ltb.
  now rewrite Hs.
Qed.

(** The outputs at 0, 1/4, 1/2, 3/4 and 1 are five different values. *)
Lemma five_outputs :
  map (fun c => Qred (posterize_channel 4 c)) [0; 1 # 4; 1 # 2; 3 # 4; 1]
  = [0; 1 # 4; 1 # 2; 3 # 4; 1].
Proof. vm_compute. reflexivity. Qed.

(** The claim as the specification states it fails: four colour steps
    send the channel values of [0, 1] to five levels, 1 included. *)
Lemma four_steps_five_levels : ~ fourLevels.
Proof.
  intros (levels & Hlen & Hlevels).
  assert (Hincl : incl [0; 1 # 4; 1 # 2; 3 # 4; 1] (map Qred levels)).
  { rewrite <- five_outputs. intros v Hv.
    apply in_map_iff in Hv. destruct Hv as (c & <- & Hc).
    destruct (Hlevels c) as (l & Hl & Heq).
    - cbn in Hc.
      destruct Hc as [<-|[<-|[<-|[<-|[<-|[]]]]]]; split; discriminate.
    - rewrite <- (Qred_complete _ _ Heq). now apply in_map. }
  apply NoDup_incl_length in Hincl.
  - rewrite length_map, Hlen in Hincl. cbn in Hincl. lia.
  - repeat constructor; cbn; intuition discriminate.
Qed.

(** C8, amended. With [colorSteps = 0] the posterization leaves every
    channel as it is, so the fragment carries the colour computed before
    it. With [colorSteps = 4] a channel value c becomes floor(4c)/4, the
    multiple of 1/4 just below it: a value in [0, 1) lands on one of the
    four levels 0, 1/4, 1/2, 3/4, and the value 1 stays 1. *)
Theorem posterization_levels :
  (forall c : Q, posterize_channel 0 c = c)
  /\ (forall (u : ImageEffects) (texel : vec4),
         colorSteps u == 0 -> rgb (main u texel) = graded u texel)
  /\ (forall c : Q,
         posterize_channel 4 c == inject_Z (Js.floor (c * 4)) / 4
         /\ posterize_channel 4 c <= c
         /\ c < posterize_channel 4 c + (1 # 4))
  /\ (forall c : Q,
         0 <= c -> c < 1 ->
         exists k : Z,
           (0 <= k <= 3)%Z /\ posterize_channel 4 c == inject_Z k / 4)
  /\ posterize_channel 4 1 == 1.
Proof.
  split; [|split; [|split; [|split]]].
  - exact posterize_channel_off.
  - intros u texel Hu. unfold main, posterize, rgb, map3.
    rewrite !(posterize_channel_zero _ _ Hu). cbn [x4 y4 z4].
    now destruct (graded u texel).
  - intros c. rewrite posterize_channel_four.
    pose proof (Qfloor_le (c * 4)) as Hle.
    pose proof (Qlt_floor (c * 4)) as Hlt.
    rewrite inject_Z_plus in Hlt.
    split; [reflexivity|]. split.
    + apply Qle_shift_div_r; [reflexivity | exact Hle].
    + setoid_replace (inject_Z (Qfloor (c * 4)) / 4 + (1 # 4))
        with ((inject_Z (Qfloor (c * 4)) + inject_Z 1) / 4) by field.
      apply Qlt_shift_div_l; [reflexivity | exact Hlt].
  - intros c H0 H1. rewrite posterize_channel_four.
    exists (Qfloor (c * 4)). split; [|reflexivity].
    split.
    + assert (H : (Qfloor 0 <= Qfloor (c * 4))%Z)
        by (apply Qfloor_resp_le; nra).
      exact H.
    + apply Z.lt_succ_r. change (Z.succ 3) with 4%Z.
      rewrite Zlt_Qlt.
      apply Qle_lt_trans with (c * 4); [apply Qfloor_le|].
      change (c * 4 < 4). nra.
  - reflexivity.
Qed.

Lemma posterization_levels_witness :
  exists k : Z,
    (0 <= k <= 3)%Z /\ posterize_channel 4 0.3 == inject_Z k / 4.
Proof.
  destruct posterization_levels as (_ & _ & _ & Hlevels & _).
  apply Hlevels; [discriminate | reflexivity].
Defined.

End ShaderFacts.

(** ** The preview mapper *)

Section PreviewFacts.

Import Preview.
Local Open Scope Q_scope.

Lemma aspect_pos (ew eh : Q) : 1 <= ew -> 1 <= eh -> 0 < ew / eh.
Proof.
  intros Hew Heh. apply Qlt_shift_div_l; lra.
Qed.

Lemma scale_bounds (x d : Q) :
  0 < x -> 0 < d ->
  0.85 <= Js.min 0.98 (0.85 + (x / d) * 0.13) <= 0.98.
Proof.
  intros Hx Hd. unfold Js.min. split; [|apply Q.le_min_l].
  apply Q.min_glb; [lra|].
  assert (0 < x / d) by (apply Qlt_shift_div_l; lra).
  lra.
Qed.

Lemma max_scale (x y a : Q) :
  0 < a -> Qmax (x * a) (y * a) == Qmax x y * a.
Proof.
  intros Ha.
  destruct (Q.max_spec x y) as [(Hlt & ->)|(Hle & ->)].
  - apply Q.max_r. nra.
  - apply Q.max_l. nra.
Qed.

Lemma gtb_true (x y : Q) : Js.gtb x y = true -> y < x.
Proof.
  unfold Js.gtb, Js.ltb. intros E. apply negb_true_iff in E.
  apply Qnot_le_lt. intros Hle. apply Qle_bool_iff in Hle. congruence.
Qed.

Lemma gtb_false (x y : Q) : Js.gtb x y = false -> x <= y.
Proof.
  unfold Js.gtb, Js.ltb. intros E. apply negb_false_iff in E.
  now apply Qle_bool_iff.
Qed.

Lemma div_mul_cancel (x y : Q) : 0 < y -> x / y * y == x.
Proof. intros Hy. field. lra. Qed.

Lemma previewSize_cases (W H ew eh : Q) :
  0 < W -> 0 < H -> 1 <= ew -> 1 <= eh ->
  exists pw ph : Q,
    previewSize W H ew eh
    = (Js.max pw (Js.min W H * 0.5 * (ew / eh)),
       Js.max ph (Js.min W H * 0.5))
    /\ pw == ph * (ew / eh)
    /\ ph <= 0.98 * H
    /\ pw <= 0.98 * W.
Proof.
  intros HW HH Hew Heh.
  pose proof (aspect_pos ew eh Hew Heh) as Ha.
  unfold previewSize. set (a := ew / eh) in *.
  pose proof (div_mul_cancel W H HH) as HWH.
  set (q := W / H) in *.
  destruct (Js.gtb a q) eqn:E; cbv beta iota zeta.
  - apply gtb_true in E.
    destruct (scale_bounds W 1500 HW) as (Hs0 & Hs1); [reflexivity|].
    set (s := Js.min 0.98 (0.85 + W / 1500 * 0.13)) in *.
    pose proof (div_mul_cancel (W * s) a Ha) as Hph.
    set (ph := W * s / a) in *.
    exists (W * s), ph. split; [reflexivity|].
    split; [now symmetry|]. split; nra.
  - apply gtb_false in E.
    destruct (scale_bounds H 1000 HH) as (Hs0 & Hs1); [reflexivity|].
    set (s := Js.min 0.98 (0.85 + H / 1000 * 0.13)) in *.
    exists (H * s * a), (H * s). split; [reflexivity|].
    split; [reflexivity|]. split; [nra|].
    assert (H1 : H * a <= W) by nra.
    assert (H2 : 0 <= (W - H * a) * s) by (apply Qmult_le_0_compat; lra).
    assert (H3 : 0 <= W * (0.98 - s)) by (apply Qmult_le_0_compat; lra).
    lra.
Qed.

(** Given a 4:1 export size, the function has no bound that keeps the
    rectangle inside: in a square viewport of 1000 pixels it is 2000
    pixels wide and starts 500 pixels left of the viewport. *)
Lemma wide_export_leaves_viewport : ~ asSpecified 1000 1000 4 1.
Proof.
  intros (_ & (Hleft & _) & _). vm_compute in Hleft. now apply Hleft.
Qed.

(** The other bounds fail too: a square export in a 1500 x 1000
    viewport is 980 pixels high, above 90% of the height, and a 1:10
    export in a square viewport of 1000 pixels is 98 pixels wide, below
    30% of the viewport side. *)
Example square_export_fills_98_percent : ~ asSpecified 1500 1000 1 1.
Proof.
  intros (_ & _ & _ & (_ & Hph)). vm_compute in Hph. now apply Hph.
Qed.

Example narrow_export_below_30_percent : ~ asSpecified 1000 1000 1 10.
Proof.
  intros (_ & _ & Hmin & _). vm_compute in Hmin. now apply Hmin.
Qed.

(** What the function computes of the export size it is given. For a
    viewport of positive size and an export size of at least 1 x 1, the
    rectangle before rounding has exactly the aspect ratio of that
    export size; its height is at least 50% of the shorter
    viewport side and its width at least that times the aspect ratio;
    its height is at most 98% of the viewport height; its width is
    within the viewport width whenever 50% of the shorter viewport side
    times the aspect ratio is; the stored rectangle is its rounding,
    centred in the viewport. *)
Theorem preview_rectangle :
  forall W H ew eh : Q,
    0 < W -> 0 < H -> 1 <= ew -> 1 <= eh ->
    let pw := fst (previewSize W H ew eh) in
    let ph := snd (previewSize W H ew eh) in
    let r := updateExportPreview W H ew eh in
    pw == ph * (ew / eh)
    /\ Js.min W H * 0.5 <= ph
    /\ Js.min W H * 0.5 * (ew / eh) <= pw
    /\ ph <= 0.98 * H
    /\ (Js.min W H * 0.5 * (ew / eh) <= W -> pw <= W)
    /\ left r = Js.round ((W - pw) / 2)
    /\ top r = Js.round ((H - ph) / 2)
    /\ width r = Js.round pw
    /\ height r = Js.round ph.
Proof.
  intros W H ew eh HW HH Hew Heh pw ph r. subst pw ph r.
  pose proof (aspect_pos ew eh Hew Heh) as Ha.
  destruct (previewSize_cases W H ew eh HW HH Hew Heh)
    as (pw & ph & E & Hasp & Hph & Hpw).
  unfold updateExportPreview. rewrite E. cbn [fst snd left top width height].
  unfold Js.max.
  assert (Hm : Js.min W H * 0.5 <= 0.98 * H).
  { unfold Js.min. pose proof (Q.le_min_r W H). lra. }
  repeat split; try reflexivity.
  - rewrite Hasp. now apply max_scale.
  - apply Q.le_max_r.
  - apply Q.le_max_r.
  - now apply Q.max_lub.
  - intros Hfit. apply Q.max_lub; lra.
Qed.

Lemma preview_rectangle_witness :
  fst (previewSize 800 600 128 128)
  == snd (previewSize 800 600 128 128) * (128 / 128)
  /\ snd (previewSize 800 600 128 128) <= 0.98 * 600
  /\ fst (previewSize 800 600 128 128) <= 800.
Proof.
  assert (H := preview_rectangle 800 600 128 128
                 ltac:(reflexivity) ltac:(reflexivity)
                 ltac:(discriminate) ltac:(discriminate)).
  cbv zeta in H. destruct H as (Hasp & _ & _ & Hph & Hpw & _).
  split; [exact Hasp|]. split; [exact Hph|].
  apply Hpw. discriminate.
Defined.

End PreviewFacts.

(** ** More on the frame renderer *)

Section RenderMore.

Import Render View.
Local Open Scope Q_scope.

Lemma floor_pos (x : Q) : 1 <= x -> (1 <= Qfloor x)%Z.
Proof.
  intros Hx. assert (H : (Qfloor 1 <= Qfloor x)%Z) by now apply Qfloor_resp_le.
  exact H.
Qed.

Lemma floor_times_one (x : Q) : Js.floor (x * 1) = Qfloor x.
Proof. unfold Js.floor. apply Qfloor_comp. ring. Qed.

(** The size a canvas takes for a number in its range is the integer
    part of the number. *)
Lemma integerPart_nonneg (x : Q) : 0 <= x -> Canvas.integerPart x = Qfloor x.
Proof.
  intros Hx. unfold Canvas.integerPart, Js.leb.
  now replace (Qle_bool 0 x) with true by (symmetry; now apply Qle_bool_iff).
Qed.

Lemma assigned_floor (x : Q) (default : Z) :
  0 <= x -> x < 2147483648 -> Canvas.assigned x default = Qfloor x.
Proof.
  intros H0 Hmax. unfold Canvas.assigned, Canvas.toUnsignedLong.
  rewrite integerPart_nonneg by exact H0.
  assert (Hlo : (Qfloor 0 <= Qfloor x)%Z) by now apply Qfloor_resp_le.
  change (Qfloor 0) with 0%Z in Hlo.
  assert (Hhi : (Qfloor x < 2147483648)%Z).
  { rewrite Zlt_Qlt. apply Qle_lt_trans with x; [apply Qfloor_le|].
    exact Hmax. }
  rewrite Z.mod_small by lia. cbv zeta.
  destruct (Z.leb_spec (Qfloor x) 2147483647); [reflexivity | lia].
Qed.

Lemma assigned_whole (n default : Z) :
  (0 <= n <= 2147483647)%Z -> Canvas.assigned (inject_Z n) default = n.
Proof.
  intros Hn. rewrite assigned_floor.
  - apply Qfloor_Z.
  - change 0 with (inject_Z 0). rewrite <- Zle_Qle. lia.
  - change 2147483648 with (inject_Z 2147483648). rewrite <- Zlt_Qlt. lia.
Qed.

(** A canvas asked to be between 1 and 2^32 - 1 pixels is not empty. *)
Lemma assigned_not_empty (n default : Z) :
  (1 <= n < 4294967296)%Z -> default <> 0%Z ->
  Canvas.assigned (inject_Z n) default <> 0%Z.
Proof.
  intros Hn Hd. unfold Canvas.assigned, Canvas.toUnsignedLong.
  rewrite integerPart_nonneg
    by (change 0 with (inject_Z 0); rewrite <- Zle_Qle; lia).
  rewrite Qfloor_Z, Z.mod_small by lia. cbv zeta.
  destruct (Z.leb_spec n 2147483647); [lia | exact Hd].
Qed.

Lemma floor_below (x : Q) (n : Z) :
  x < inject_Z n -> (Qfloor x < n)%Z.
Proof.
  intros Hx. rewrite Zlt_Qlt.
  apply Qle_lt_trans with x; [apply Qfloor_le | exact Hx].
Qed.

Lemma sourceRectangle_whole (W H : Z) :
  sourceRectangle (W, H) (inject_Z W) (inject_Z H) = (0, 0, W, H)%Z.
Proof.
  unfold sourceRectangle. cbn [fst snd].
  replace (Js.gtb _ 0.01) with false; [reflexivity|].
  symmetry. unfold Js.gtb, Js.ltb, Js.abs.
  apply negb_false_iff, Qle_bool_iff.
  setoid_replace (inject_Z W / inject_Z H - inject_Z W / inject_Z H)
    with 0 by ring.
  discriminate.
Qed.

(** The context the [try] block leaves when nothing throws: renderer at
    the export size and pixel ratio 1, transparent clear colour, no
    background, camera fitted to the export aspect, composer resized, one
    more draw. *)
Lemma renderBody_returns (width height : Q) (c : Context) :
  1 <= width -> width < 4294967296 -> 1 <= height -> height < 4294967296 ->
  exists d,
    snd (renderBody noFaults width height c)
    = inr (mkImage (Canvas.width width) (Canvas.height height)
             (sourceRectangle
                (Canvas.width (inject_Z (Qfloor width)),
                 Canvas.height (inject_Z (Qfloor height)))
                width height)
             (Some d))
    /\ drawSize d = (width, height) /\ drawPixelRatio d = 1
    /\ drawClearAlpha d = 0 /\ drawBackground d = None
    /\ withEffects d = match composer c with Some _ => true | None => false end
    /\ projection (drawCamera d) = fitAspect (width / height) (projection (camera c)).
Proof.
  intros Hw Hwmax Hh Hhmax.
  pose proof (floor_pos width Hw) as Hfw.
  pose proof (floor_pos height Hh) as Hfh.
  pose proof (floor_below width 4294967296 Hwmax) as Hfwmax.
  pose proof (floor_below height 4294967296 Hhmax) as Hfhmax.
  assert (Hcw : Canvas.width (inject_Z (Qfloor width)) <> 0%Z)
    by (apply assigned_not_empty; [lia | discriminate]).
  assert (Hch : Canvas.height (inject_Z (Qfloor height)) <> 0%Z)
    by (apply assigned_not_empty; [lia | discriminate]).
  unfold renderBody, bind, check, modify, get, drawImage, check, noFaults.
  cbn -[Js.floor sourceRectangle Js.last_item Canvas.width Canvas.height].
  assert (Hlast : forall (l : list Draw) (x : Draw),
             Js.last_item (l ++ [x]) = Some x).
  { intros l x. unfold Js.last_item.
    rewrite length_app, nth_error_app2 by (cbn; lia).
    cbn [length].
    replace (length l + 1 - 1 - length l)%nat with 0%nat by lia.
    reflexivity. }
  destruct (composer c) as [comp|];
    cbn -[Js.floor sourceRectangle Js.last_item Canvas.width Canvas.height];
    rewrite !floor_times_one;
    destruct (Z.eqb_spec (Canvas.width (inject_Z (Qfloor width))) 0);
    try contradiction;
    destruct (Z.eqb_spec (Canvas.height (inject_Z (Qfloor height))) 0);
    try contradiction;
    cbn -[Js.floor sourceRectangle Js.last_item Canvas.width Canvas.height];
    rewrite Hlast; eexists; repeat split; reflexivity.
Qed.

(** [renderFrame] ends as its [try] block does: the [finally] block never
    throws. *)
Lemma renderFrame_result (faults : FaultPoint -> bool) (width height : Q)
      (frameIndex : Z) (c : Context) :
  snd (renderFrame faults width height frameIndex c)
  = snd (renderBody faults width height c).
Proof.
  unfold renderFrame, bind, get, try_finally.
  pose proof (keeps_renderBody faults width height c) as Hclass.
  destruct (renderBody faults width height c) as [c1 r]. cbn [fst snd] in *.
  destruct (restore_resets c c1 Hclass) as (Hok & _).
  destruct (restore (takeSnapshot c) c1) as [c2 rf]. cbn [snd] in *.
  now rewrite Hok.
Qed.

(** X1. When no call throws, [renderFrame] returns an image of the pixel
    size that a canvas takes for the export size. For an export size in
    whole pixels, from 1 to 2147483647 each way, the image has exactly
    that size and is a copy of the whole renderer canvas, which was
    drawn at that size, at pixel ratio 1, on a transparent clear colour
    and without the scene background. For a fractional export size the
    image has the size rounded down: 3 x 3.9 gives a PNG of 3 x 3. *)
Theorem renderFrame_exports_requested_size :
  (forall (W H frameIndex : Z) (c : Context),
      (1 <= W <= 2147483647)%Z -> (1 <= H <= 2147483647)%Z ->
      exists d,
        snd (renderFrame noFaults (inject_Z W) (inject_Z H) frameIndex c)
        = inr (mkImage W H (0, 0, W, H)%Z (Some d))
        /\ drawSize d = (inject_Z W, inject_Z H) /\ drawPixelRatio d = 1
        /\ drawClearAlpha d = 0 /\ drawBackground d = None)
  /\ (forall (width height : Q) (frameIndex : Z) (c : Context),
         1 <= width -> width < 2147483648 ->
         1 <= height -> height < 2147483648 ->
         exists image,
           snd (renderFrame noFaults width height frameIndex c) = inr image
           /\ imageWidth image = Js.floor width
           /\ imageHeight image = Js.floor height).
Proof.
  split.
  - intros W H frameIndex c HW HH.
    assert (HWq : 1 <= inject_Z W /\ inject_Z W < 4294967296).
    { change 1 with (inject_Z 1).
      change 4294967296 with (inject_Z 4294967296).
      rewrite <- Zle_Qle, <- Zlt_Qlt. lia. }
    assert (HHq : 1 <= inject_Z H /\ inject_Z H < 4294967296).
    { change 1 with (inject_Z 1).
      change 4294967296 with (inject_Z 4294967296).
      rewrite <- Zle_Qle, <- Zlt_Qlt. lia. }
    destruct (renderBody_returns (inject_Z W) (inject_Z H) c
                (proj1 HWq) (proj2 HWq) (proj1 HHq) (proj2 HHq))
      as (d & Hret & Hsize & Hpr & Hca & Hbg & _).
    rewrite renderFrame_result, Hret. unfold Canvas.width, Canvas.height.
    rewrite !Qfloor_Z, !assigned_whole by lia.
    rewrite sourceRectangle_whole.
    exists d. split; [reflexivity|]. split; [exact Hsize|].
    split; [exact Hpr|]. split; [exact Hca | exact Hbg].
  - intros width height frameIndex c Hw Hwmax Hh Hhmax.
    destruct (renderBody_returns width height c Hw ltac:(lra) Hh ltac:(lra))
      as (d & Hret & _).
    rewrite renderFrame_result, Hret. eexists. split; [reflexivity|].
    cbn [imageWidth imageHeight]. unfold Canvas.width, Canvas.height, Js.floor.
    rewrite !assigned_floor by lra. split; reflexivity.
Qed.

Lemma renderFrame_exports_requested_size_witness :
  (exists d,
      snd (renderFrame noFaults (inject_Z 1024) (inject_Z 64) 0
                       Sample.context)
      = inr (mkImage 1024 64 (0, 0, 1024, 64)%Z (Some d))
      /\ drawSize d = (inject_Z 1024, inject_Z 64) /\ drawPixelRatio d = 1
      /\ drawClearAlpha d = 0 /\ drawBackground d = None)
  /\ exists image,
       snd (renderFrame noFaults 3 3.9 0 Sample.context) = inr image
       /\ imageWidth image = Js.floor 3 /\ imageHeight image = Js.floor 3.9.
Proof.
  destruct renderFrame_exports_requested_size as (Hwhole & Hfraction).
  split.
  - apply Hwhole; lia.
  - apply Hfraction; first [discriminate | reflexivity].
Defined.

(** X2. The camera update of [renderFrame]: an orthographic camera keeps
    its top, bottom, near and far and its horizontal centre, and gets the
    width that its height and the export aspect ask for; a perspective
    camera changes its aspect only. *)
Theorem fitAspect_keeps_framing :
  forall (a l r t b n f : Q),
    (exists l' r',
        fitAspect a (Orthographic l r t b n f) = Orthographic l' r' t b n f
        /\ r' - l' == (t - b) * a
        /\ l' + r' == l + r)
    /\ fitAspect a (Perspective l r t b) = Perspective a r t b.
Proof.
  intros a l r t b n f. split; [|reflexivity].
  eexists; eexists. split; [reflexivity|]. split; field.
Qed.

Lemma round_half (k : Z) : Js.round (inject_Z k / 2) = ((k + 1) / 2)%Z.
Proof.
  unfold Js.round. rewrite Zdiv_Qdiv. apply Qfloor_comp.
  rewrite inject_Z_plus. change (inject_Z 2) with 2. change (inject_Z 1) with 1.
  field.
Qed.

Lemma round_le (x : Q) (n : Z) : x <= inject_Z n -> (Js.round x <= n)%Z.
Proof.
  intros Hx. unfold Js.round.
  apply Z.lt_succ_r. rewrite Zlt_Qlt.
  apply Qle_lt_trans with (x + (1 # 2)); [apply Qfloor_le|].
  unfold Z.succ. rewrite inject_Z_plus. change (inject_Z 1) with 1. lra.
Qed.

Lemma round_nonneg (x : Q) : 0 <= x -> (0 <= Js.round x)%Z.
Proof.
  intros Hx. unfold Js.round.
  assert (H : (Qfloor 0 <= Qfloor (x + (1 # 2)))%Z)
    by (apply Qfloor_resp_le; lra).
  exact H.
Qed.

Lemma half_up_within (k : Z) : (0 <= k -> 0 <= (k + 1) / 2 <= k)%Z.
Proof.
  intros Hk. split.
  - apply Z.div_pos; lia.
  - destruct (Z.eq_dec k 0) as [->|Hne]; [reflexivity|].
    apply Z.div_le_upper_bound; lia.
Qed.

(** X3. The source rectangle of the final copy lies within the renderer
    canvas, for every canvas of at least 1 x 1 pixels and every positive
    export size; for a canvas that already has the export size it is the
    whole canvas. *)
Theorem sourceRectangle_within_canvas :
  (forall (cw ch : Z) (width height : Q),
      (1 <= cw)%Z -> (1 <= ch)%Z -> 0 < width -> 0 < height ->
      withinCanvas (sourceRectangle (cw, ch) width height) (cw, ch))
  /\ (forall W H : Z,
         (1 <= W)%Z -> (1 <= H)%Z ->
         sourceRectangle (W, H) (inject_Z W) (inject_Z H) = (0, 0, W, H)%Z).
Proof.
  split.
  - intros cw ch width height Hcw Hch Hw Hh.
    assert (Hcwq : inject_Z 1 <= inject_Z cw) by now rewrite <- Zle_Qle.
    assert (Hchq : inject_Z 1 <= inject_Z ch) by now rewrite <- Zle_Qle.
    change (inject_Z 1) with 1 in Hcwq, Hchq.
    assert (Ht : 0 < width / height) by (apply Qlt_shift_div_l; lra).
    unfold sourceRectangle. cbn [fst snd].
    set (t := width / height) in *.
    assert (Hra : inject_Z cw / inject_Z ch * inject_Z ch == inject_Z cw)
      by (field; lra).
    set (ra := inject_Z cw / inject_Z ch) in *.
    destruct (Js.gtb (Js.abs (ra - t)) 0.01) eqn:Ediff.
    + destruct (Js.gtb ra t) eqn:Ewide.
      * apply gtb_true in Ewide.
        assert (Hsw : (0 <= Js.round (inject_Z ch * t) <= cw)%Z).
        { split; [apply round_nonneg; nra | apply round_le; nra]. }
        unfold withinCanvas. cbn [fst snd]. rewrite round_half.
        pose proof (half_up_within (cw - Js.round (inject_Z ch * t))).
        lia.
      * apply gtb_false in Ewide.
        assert (Hlt : ra < t).
        { apply gtb_true in Ediff. unfold Js.abs in Ediff.
          apply Qnot_le_lt. intros Hle.
          assert (ra == t) by lra.
          rewrite H in Ediff. 
          setoid_replace (t - t) with 0 in Ediff by ring.
          discriminate Ediff. }
        assert (Hq : inject_Z cw / t * t == inject_Z cw) by (field; lra).
        set (q := inject_Z cw / t) in *.
        assert (Hsh : (0 <= Js.round q <= ch)%Z).
        { split; [apply round_nonneg; nra | apply round_le; nra]. }
        unfold withinCanvas. cbn [fst snd]. rewrite round_half.
        pose proof (half_up_within (ch - Js.round q)).
        lia.
    + unfold withinCanvas. cbn [fst snd]. lia.
  - intros W H HW HH. unfold sourceRectangle. cbn [fst snd].
    replace (Js.gtb _ 0.01) with false; [reflexivity|].
    symmetry. unfold Js.gtb, Js.ltb, Js.abs.
    apply negb_false_iff, Qle_bool_iff.
    setoid_replace (inject_Z W / inject_Z H - inject_Z W / inject_Z H)
      with 0 by ring.
    discriminate.
Qed.

Lemma sourceRectangle_within_canvas_witness :
  withinCanvas (sourceRectangle (1600, 1200)%Z 128 128) (1600, 1200)%Z
  /\ sourceRectangle (128, 64)%Z (inject_Z 128) (inject_Z 64)
     = (0, 0, 128, 64)%Z.
Proof.
  destruct sourceRectangle_within_canvas as (Hin & Hwhole). split.
  - apply Hin; (lia || reflexivity).
  - apply Hwhole; lia.
Defined.

End RenderMore.

(** ** The composer and the live view across an export *)

Section ViewFacts.

Import Render View UseExport.
Local Open Scope Q_scope.

Lemma passes_ret {A : Type} (a : A) : keepsPasses (ret a).
Proof. intros c. reflexivity. Qed.

Lemma passes_throw {A : Type} (e : string) : keepsPasses (@throw A e).
Proof. intros c. reflexivity. Qed.

Lemma passes_get : keepsPasses get.
Proof. intros c. reflexivity. Qed.

Lemma passes_modify (f : Context -> Context) :
  (forall c, passCount (f c) = passCount c) -> keepsPasses (modify f).
Proof. intros Hf c. apply Hf. Qed.

Lemma passes_bind {A B : Type} (m : M A) (k : A -> M B) :
  keepsPasses m -> (forall a, keepsPasses (k a)) -> keepsPasses (bind m k).
Proof.
  intros Hm Hk c. unfold bind. specialize (Hm c).
  destruct (m c) as [c1 [e|a]]; [exact Hm|].
  cbn [fst] in Hm. rewrite <- Hm. apply Hk.
Qed.

Lemma passes_check (faults : FaultPoint -> bool) (p : FaultPoint) :
  keepsPasses (check faults p).
Proof.
  unfold check. destruct (faults p); [apply passes_throw | apply passes_ret].
Qed.

Lemma passes_drawImage (faults : FaultPoint -> bool) (canvas : Z * Z) :
  keepsPasses (drawImage faults canvas).
Proof.
  unfold drawImage.
  destruct (_ || _)%bool; [apply passes_throw | apply passes_check].
Qed.

Lemma passCount_onComposer (w h : Q) (c : Context) :
  passCount (onComposer (composerSetSize w h) c) = passCount c.
Proof.
  unfold passCount, onComposer. cbn.
  destruct (composer c) as [k|]; cbn; [|reflexivity].
  now rewrite length_map.
Qed.

Ltac passes_step :=
  lazymatch goal with
  | |- keepsPasses (bind _ _) => apply passes_bind; [|intros ?]
  | |- keepsPasses (modify (onComposer _)) =>
      apply passes_modify; intros ?; apply passCount_onComposer
  | |- keepsPasses (modify _) =>
      apply passes_modify; intros ?; reflexivity
  | |- keepsPasses (match composer ?c with _ => _ end) =>
      destruct (composer c)
  | |- keepsPasses (check _ _) => apply passes_check
  | |- keepsPasses (drawImage _ _) => apply passes_drawImage
  | |- keepsPasses get => apply passes_get
  | |- keepsPasses (ret _) => apply passes_ret
  end.

Lemma passes_renderBody (faults : FaultPoint -> bool) (width height : Q) :
  keepsPasses (renderBody faults width height).
Proof. unfold renderBody. repeat passes_step. Qed.

Lemma composerSetSize_same_count (w h : Q) (c1 c : Context) :
  passCount c1 = passCount c ->
  option_map (composerSetSize w h) (composer c1)
  = option_map (composerSetSize w h) (composer c).
Proof.
  unfold passCount.
  destruct (composer c1) as [k1|], (composer c) as [k|];
    cbn; try discriminate; [|reflexivity].
  intros E. injection E as E. unfold composerSetSize. do 2 f_equal.
  revert E. generalize (passSizes k). generalize (passSizes k1).
  induction l as [|x l IH]; intros [|y l'] E; cbn in *;
    try discriminate; [reflexivity|].
  f_equal. apply IH. now injection E.
Qed.

Lemma restore_composer (s : Snapshot) (c1 : Context) :
  composer (fst (restore s c1))
  = option_map (composerSetSize (fst (originalSize s)) (snd (originalSize s)))
               (composer c1).
Proof. reflexivity. Qed.

(** X4. However [renderFrame] ends, a composer stored on the canvas and
    every pass of it are left at the logical size the renderer had before
    the call, whatever size they had themselves; no composer appears or
    disappears. *)
Theorem renderFrame_resizes_composer :
  forall (faults : FaultPoint -> bool) (width height : Q) (frameIndex : Z)
         (c : Context),
    composer (fst (renderFrame faults width height frameIndex c))
    = option_map (composerSetSize (fst (size (renderer c)))
                                  (snd (size (renderer c))))
                 (composer c).
Proof.
  intros faults width height frameIndex c.
  rewrite renderFrame_exit, restore_composer.
  replace (originalSize (takeSnapshot c)) with (size (renderer c))
    by (unfold takeSnapshot; now destruct (projection (camera c))).
  apply composerSetSize_same_count, passes_renderBody.
Qed.

Lemma sameView_refl (c : Context) : sameView c c.
Proof. repeat split. Qed.

Lemma sameView_trans (c1 c2 c3 : Context) :
  sameView c1 c2 -> sameView c2 c3 -> sameView c1 c3.
Proof.
  unfold sameView. intros (A1 & A2 & A3 & A4 & A5 & A6)
                          (B1 & B2 & B3 & B4 & B5 & B6).
  repeat split; congruence.
Qed.

Lemma renderFrame_sameView (faults : FaultPoint -> bool) (width height : Q)
      (frameIndex : Z) (c : Context) :
  sameView c (fst (renderFrame faults width height frameIndex c)).
Proof.
  rewrite renderFrame_exit.
  destruct (restore_resets c (fst (renderBody faults width height c))
              (keeps_renderBody faults width height c))
    as (_ & Hsize & Hpr & Hcc & Hca & _ & Hbg & Hcam & _).
  repeat split; assumption.
Qed.

End ViewFacts.

(** ** More on the export of a frame and of a sequence *)

Section ExportFacts.

Import Sampling Render View UseExport Report.

Lemma last_item_snoc {A : Type} (l : list A) (x : A) :
  Js.last_item (l ++ [x]) = Some x.
Proof.
  unfold Js.last_item. rewrite length_app, nth_error_app2 by (cbn; lia).
  cbn [length].
  replace (length l + 1 - 1 - length l)%nat with 0%nat by lia.
  reflexivity.
Qed.


(** What the loop over the frames leaves: the files of a first part of
    the frames, in order, added to those written before; the same
    directories, downloads and stored context; the live view as found;
    and no error exactly when every frame was written. *)
Lemma exportLoop_spec (b : Bridge) (faults : Z -> FaultPoint -> bool)
      (st : Settings) (props : Viewport.Props) (folder : string)
      (T : Z) (count : nat) :
  forall (frames : list Z) (i : nat) (c : Context) (w : World),
    exists k : nat,
      (k <= length frames)%nat
      /\ written (snd (fst (exportLoop b faults st props folder T count i
                                       frames c w)))
         = written w ++ map (frameFilename folder) (firstn k frames)
      /\ directories (snd (fst (exportLoop b faults st props folder T count
                                           i frames c w)))
         = directories w
      /\ downloads (snd (fst (exportLoop b faults st props folder T count i
                                         frames c w)))
         = downloads w
      /\ sameView c (fst (fst (exportLoop b faults st props folder T count
                                          i frames c w)))
      /\ match snd (exportLoop b faults st props folder T count i
                               frames c w) with
         | None => k = length frames
         | Some _ => (k < length frames)%nat
         end.
Proof.
  induction frames as [|f rest IH]; intros i c w.
  - exists 0%nat. cbn. rewrite app_nil_r.
    split; [lia|]. repeat (split; [reflexivity|]).
    split; [apply sameView_refl | reflexivity].
  - cbn [exportLoop].
    pose proof (renderFrame_sameView (faults f) (width st) (height st) f c)
      as Hview.
    set (w1 := seek (Viewport.handleFrameChange props f T) w).
    assert (Hw1 : written w1 = written w /\ directories w1 = directories w
                  /\ downloads w1 = downloads w).
    { subst w1. unfold seek.
      destruct (Viewport.handleFrameChange props f T); repeat split. }
    destruct Hw1 as (Hwr & Hdir & Hdl).
    destruct (renderFrame (faults f) (width st) (height st) f c)
      as [c1 [message|dataURL]]; cbn [fst snd] in Hview.
    + exists 0%nat. cbn [fst snd firstn map length].
      rewrite app_nil_r.
      split; [lia|]. split; [exact Hwr|]. split; [exact Hdir|].
      split; [exact Hdl|]. split; [exact Hview|]. lia.
    + destruct (viaBridge b (electron_saveFile b)
                          (electronAPI_saveImageFile b)
                          (frameFilename folder f)).
      * match goal with
        | |- context [exportLoop _ _ _ _ _ _ _ ?i' rest c1 ?w'] =>
            destruct (IH i' c1 w') as (k & Hk & Hfiles & Hd & Hl & Hv & Hr)
        end.
        exists (S k). cbn [firstn map length].
        rewrite Hfiles, Hd, Hl.
        unfold written, toast, addFile. cbn [files directories downloads].
        rewrite map_app. cbn [map fst]. fold (written w1). rewrite Hwr.
        rewrite <- app_assoc. cbn [app].
        split; [lia|]. split; [reflexivity|]. split; [exact Hdir|].
        split; [exact Hdl|].
        split; [eapply sameView_trans; eassumption|].
        destruct (snd (exportLoop _ _ _ _ _ _ _ _ rest c1 _)); lia.
      * exists 0%nat. cbn [fst snd firstn map length].
        rewrite app_nil_r.
        split; [lia|]. split; [exact Hwr|]. split; [exact Hdir|].
        split; [exact Hdl|]. split; [exact Hview|]. lia.
Qed.



Lemma renderFrame_ok (width height : Q) (frameIndex : Z) (c : Context) :
  (1 <= width)%Q -> (width < 4294967296)%Q ->
  (1 <= height)%Q -> (height < 4294967296)%Q ->
  exists image,
    snd (renderFrame noFaults width height frameIndex c) = inr image.
Proof.
  intros Hw Hwmax Hh Hhmax.
  destruct (renderBody_returns width height c Hw Hwmax Hh Hhmax)
    as (d & Hret & _).
  rewrite renderFrame_result, Hret. eauto.
Qed.

Lemma viaBridge_works (b : Bridge) (path : string) :
  storageWorks b ->
  viaBridge b (electron_createDirectory b) (electronAPI_createDirectory b)
            path = true
  /\ viaBridge b (electron_saveFile b) (electronAPI_saveImageFile b) path
     = true.
Proof.
  intros (Hapi & Hdir & Hsave). unfold viaBridge.
  rewrite Hapi, Hdir, Hsave. cbn. auto.
Qed.

Lemma exportLoop_succeeds (b : Bridge) (st : Settings)
      (props : Viewport.Props) (folder : string) (T : Z) (count : nat) :
  storageWorks b ->
  (1 <= width st)%Q -> (width st < 4294967296)%Q ->
  (1 <= height st)%Q -> (height st < 4294967296)%Q ->
  forall (frames : list Z) (i : nat) (c : Context) (w : World),
    snd (exportLoop b (fun _ => noFaults) st props folder T count i
                    frames c w) = None.
Proof.
  intros Hb Hw Hwmax Hh Hhmax.
  induction frames as [|f rest IH]; intros i c w.
  - reflexivity.
  - cbn [exportLoop].
    destruct (renderFrame_ok (width st) (height st) f c Hw Hwmax Hh Hhmax)
      as (image & Himage).
    destruct (renderFrame noFaults (width st) (height st) f c) as [c1 r].
    cbn [snd] in Himage. subst r.
    rewrite (proj2 (viaBridge_works b (frameFilename folder f) Hb)).
    apply IH.
Qed.

(** A width of 2^32 wraps to an empty renderer canvas, and the copy from
    it fails: an export size of at least 1 x 1 is not enough for an
    export to go through. *)
Example wrapped_width_is_not_exported :
  snd (renderFrame noFaults 4294967296 128 0 Sample.context)
  = inl "InvalidStateError"%string.
Proof. vm_compute. reflexivity. Qed.

(** X6. With a working storage bridge, an initialised viewport, an
    export size of at least 1 x 1 and below 2^32 each way, and no call
    that throws, a sequence export creates the directory
    outputFolder/animation, writes one file per sampled frame, in
    sampling order and named by frame index, and ends with the toast
    "Export Complete". *)
Theorem exportSequence_writes_every_frame :
  forall (b : Bridge) (st : Settings) (props : Viewport.Props)
         (folder animation : string) (T : Z) (frames : list Z)
         (w : World) (c : Context),
    storageWorks b ->
    outputFolder st = Some folder ->
    folder <> EmptyString -> animation <> EmptyString ->
    context w = Some c ->
    (1 <= width st)%Q -> (width st < 4294967296)%Q ->
    (1 <= height st)%Q -> (height st < 4294967296)%Q ->
    framesToRender T (renderSteps st) = Some frames ->
    written (exportSequence b (fun _ => noFaults) st props
                            (Some animation) T w)
    = written w
      ++ map (frameFilename (folder ++ "/" ++ animation)%string) frames
    /\ directories (exportSequence b (fun _ => noFaults) st props
                                   (Some animation) T w)
       = directories w ++ [(folder ++ "/" ++ animation)%string]
    /\ exists t,
         lastToast (exportSequence b (fun _ => noFaults) st props
                                   (Some animation) T w) = Some t
         /\ title t = "Export Complete"%string
         /\ destructive t = false.
Proof.
  intros b st props folder animation T frames w c Hb Hfolder Hf Ha Hc
         Hw Hwmax Hh Hhmax Hframes.
  unfold exportSequence. rewrite Hfolder, Hframes, Hc.
  destruct folder as [|f0 folder']; [contradiction|].
  destruct animation as [|a0 animation']; [contradiction|].
  cbn [Js.truthy_string].
  destruct Hb as (Hapi & Hdir & Hsave). rewrite Hapi. cbn [negb andb].
  assert (Hb : storageWorks b) by (repeat split; assumption).
  rewrite (proj1 (viaBridge_works b _ Hb)).
  match goal with
  | |- context [exportLoop b ?fl st props ?af T ?n ?i frames c ?w'] =>
      pose proof (exportLoop_succeeds b st props af T n Hb Hw Hwmax Hh Hhmax
                    frames i c w') as Hnone;
      destruct (exportLoop_spec b fl st props af T n frames i c w')
        as (k & Hk & Hfiles & Hdirs & _ & _ & Hr);
      destruct (exportLoop b fl st props af T n i frames c w')
        as [[c' w3] r]
  end.
  cbn [fst snd] in *. subst r. subst k. rewrite firstn_all in Hfiles.
  unfold lastToast, toast, setContext, written, addDirectory in *.
  cbn [toasts files directories] in *.
  rewrite last_item_snoc, Hfiles, Hdirs.
  split; [reflexivity|]. split; [reflexivity|].
  eexists. split; [reflexivity|]. split; reflexivity.
Qed.

Lemma exportSequence_writes_every_frame_witness :
  written (exportSequence Sample.bridge (fun _ => noFaults)
             Sample2.thirtySteps Sample.props (Some "walk"%string) 60
             Sample.world)
  = map (frameFilename "out/walk") Sample2.evenFrames.
Proof.
  refine (proj1 (exportSequence_writes_every_frame
                   Sample.bridge Sample2.thirtySteps Sample.props
                   "out" "walk" 60 Sample2.evenFrames
                   Sample.world Sample.context _ eq_refl _ _ eq_refl _ _ _ _
                   eq_refl)).
  - repeat split.
  - discriminate.
  - discriminate.
  - discriminate.
  - reflexivity.
  - discriminate.
  - reflexivity.
Defined.


(** X8. The guards of [exportSequence], in their order: without an
    output folder (none or the empty string), then without an animation,
    then without any storage interface, it shows the matching error toast
    and does nothing else; when the directory cannot be created it
    renders nothing, writes nothing and reports the directory. *)
Theorem exportSequence_guards :
  forall (b : Bridge) (faults : Z -> FaultPoint -> bool) (st : Settings)
         (props : Viewport.Props) (animation : option string) (T : Z)
         (w : World),
    (Js.truthy_string (outputFolder st) = false ->
     exportSequence b faults st props animation T w
     = toast (mkToast "Error" "Please select an output folder first" true) w)
    /\ (Js.truthy_string (outputFolder st) = true ->
        Js.truthy_string animation = false ->
        exportSequence b faults st props animation T w
        = toast (mkToast "Error" "No animation selected" true) w)
    /\ (Js.truthy_string (outputFolder st) = true ->
        Js.truthy_string animation = true ->
        hasElectronAPI b = false -> hasElectronAPIFallback b = false ->
        exportSequence b faults st props animation T w
        = toast (mkToast "Error" "File system access is not available" true)
                w)
    /\ (forall folder name c,
           outputFolder st = Some folder -> animation = Some name ->
           Js.truthy_string (outputFolder st) = true ->
           Js.truthy_string animation = true ->
           context w = Some c ->
           hasElectronAPI b || hasElectronAPIFallback b = true ->
           viaBridge b (electron_createDirectory b)
                     (electronAPI_createDirectory b)
                     (folder ++ "/" ++ name)%string = false ->
           exportSequence b faults st props animation T w
           = toast (mkToast "Error"
                      ("Failed to export sequence: "
                       ++ "Failed to create directory: "
                       ++ folder ++ "/" ++ name)%string true)
                   (setContext c w)).
Proof.
  intros b faults st props animation T w. unfold exportSequence.
  split; [|split; [|split]].
  - intros Hf. destruct (outputFolder st) as [folder|]; [|reflexivity].
    now rewrite Hf.
  - intros Hf Ha.
    destruct (outputFolder st) as [folder|]; [|discriminate]. rewrite Hf.
    destruct animation as [name|]; [|reflexivity]. now rewrite Ha.
  - intros Hf Ha H1 H2.
    destruct (outputFolder st) as [folder|]; [|discriminate]. rewrite Hf.
    destruct animation as [name|]; [|discriminate]. rewrite Ha.
    now rewrite H1, H2.
  - intros folder name c Hfolder -> Hf Ha Hc Hapi Hdir.
    rewrite Hfolder in *. rewrite Hf, Ha, Hc, Hdir.
    destruct (hasElectronAPI b), (hasElectronAPIFallback b);
      (discriminate Hapi || reflexivity).
Qed.

Lemma exportSequence_guards_witness :
  exportSequence Sample.bridge (fun _ => noFaults) defaultSettings
                 Sample.props (Some "walk"%string) 60 Sample.world
  = toast (mkToast "Error" "Please select an output folder first" true)
          Sample.world
  /\ exportSequence Sample.bridge (fun _ => noFaults) Sample.settings
                    Sample.props (Some EmptyString) 60 Sample.world
     = toast (mkToast "Error" "No animation selected" true) Sample.world.
Proof.
  split.
  - apply (exportSequence_guards Sample.bridge (fun _ => noFaults)
             defaultSettings Sample.props (Some "walk"%string) 60
             Sample.world). reflexivity.
  - apply (exportSequence_guards Sample.bridge (fun _ => noFaults)
             Sample.settings Sample.props (Some EmptyString) 60
             Sample.world); reflexivity.
Defined.

Lemma returns_bind {A B : Type} (P : B -> Prop) (m : M A) (k : A -> M B) :
  (forall a, returnsOnly P (k a)) -> returnsOnly P (bind m k).
Proof.
  intros Hk c b0. unfold bind.
  destruct (m c) as [c1 [e|a]]; cbn [snd]; [discriminate | apply Hk].
Qed.

(** An image that the [try] block returns has the size of the export
    canvas. *)
Lemma renderBody_image (faults : FaultPoint -> bool) (width height : Q) :
  returnsOnly (fun image => imageWidth image = Canvas.width width
                            /\ imageHeight image = Canvas.height height)
              (renderBody faults width height).
Proof.
  unfold renderBody.
  repeat (apply returns_bind; intros ?).
  intros c image H. cbn -[Canvas.width Canvas.height] in H.
  injection H as <-. split; reflexivity.
Qed.

(** A negative width leaves both canvases at the default width of 300:
    the frame is exported, 300 pixels wide. *)
Example negative_width_exports_default :
  exists image,
    snd (renderFrame noFaults (-5) 128 0 Sample.context) = inr image
    /\ imageWidth image = 300%Z /\ imageHeight image = 128%Z.
Proof. eexists. split; [vm_compute; reflexivity|]. split; reflexivity. Qed.

(** X9. [exportFrame] on an initialised viewport, with an export size
    that is not negative and below 2^31 each way, ends in one of two
    ways: it triggers the download of one image, of the export size
    rounded down to whole pixels, and shows the toast "Success", or it
    triggers no download and shows an error toast that carries the
    message of the exception. In both cases it writes no file, creates
    no directory and seeks nothing. *)
Theorem exportFrame_outcomes :
  forall (faults : FaultPoint -> bool) (st : Settings) (w : World)
         (c : Context),
    context w = Some c ->
    (0 <= width st)%Q -> (width st < 2147483648)%Q ->
    (0 <= height st)%Q -> (height st < 2147483648)%Q ->
    files (exportFrame faults st w) = files w
    /\ directories (exportFrame faults st w) = directories w
    /\ seeks (exportFrame faults st w) = seeks w
    /\ ((exists image,
            downloads (exportFrame faults st w) = downloads w ++ [image]
            /\ imageWidth image = Js.floor (width st)
            /\ imageHeight image = Js.floor (height st)
            /\ lastToast (exportFrame faults st w)
               = Some (mkToast "Success"
                         "Frame exported successfully with effects applied"
                         false))
        \/ (exists message,
               downloads (exportFrame faults st w) = downloads w
               /\ lastToast (exportFrame faults st w)
                  = Some (mkToast "Error"
                            ("Failed to export frame: " ++ message)%string
                            true))).
Proof.
  intros faults st w c Hc Hw Hwmax Hh Hhmax. unfold exportFrame. rewrite Hc.
  pose proof (renderFrame_result faults (width st) (height st) 0 c) as Hres.
  destruct (renderFrame faults (width st) (height st) 0 c)
    as [c' [message|dataURL]]; cbn [snd] in Hres;
    unfold lastToast, toast, download, setContext;
    cbn [files directories seeks downloads toasts];
    rewrite last_item_snoc; repeat (split; [reflexivity|]).
  - right. exists message. split; reflexivity.
  - left. exists dataURL.
    destruct (renderBody_image faults (width st) (height st) c dataURL
                (eq_sym Hres)) as (Hiw & Hih).
    unfold Canvas.width, Canvas.height in Hiw, Hih.
    rewrite assigned_floor in Hiw, Hih by assumption.
    repeat split; assumption.
Qed.

Lemma exportFrame_outcomes_witness :
  files (exportFrame noFaults Sample.settings Sample.world) = []
  /\ directories (exportFrame noFaults Sample.settings Sample.world) = []
  /\ seeks (exportFrame noFaults Sample.settings Sample.world) = [].
Proof.
  destruct (exportFrame_outcomes noFaults Sample.settings Sample.world
              Sample.context eq_refl) as (Hf & Hd & Hs & _);
    try discriminate; try reflexivity.
  repeat split; assumption.
Defined.

End ExportFacts.

(** ** More on the frame sampling *)

Section SamplingMore.

Import Sampling.
Local Open Scope Z_scope.

(** X10. Called with no frames at all (or a negative count),
    [framesToRender] still returns one index, [totalFrames - 1], which is
    negative: the guard for the last frame pushes it onto the empty
    list. *)
Theorem framesToRender_without_frames :
  forall T rs : Z, T <= 0 -> framesToRender T rs = Some [T - 1].
Proof.
  intros T rs HT. unfold framesToRender.
  replace (Z.to_nat T) with 0%nat by lia. cbn [push_loop].
  destruct (Z.ltb_spec 0 T); [lia | reflexivity].
Qed.

Lemma framesToRender_without_frames_witness :
  framesToRender 0 1 = Some [-1].
Proof. apply (framesToRender_without_frames 0 1). lia. Defined.

Lemma filter_all {A : Type} (f : A -> bool) (l : list A) :
  (forall x, In x l -> f x = true) -> filter f l = l.
Proof.
  induction l as [|a l IH]; intros H; cbn; [reflexivity|].
  rewrite (H a) by now left. f_equal. apply IH. intros x Hx.
  apply H. now right.
Qed.

Lemma filter_none {A : Type} (f : A -> bool) (l : list A) :
  (forall x, In x l -> f x = false) -> filter f l = [].
Proof.
  induction l as [|a l IH]; intros H; cbn; [reflexivity|].
  rewrite (H a) by now left. apply IH. intros x Hx. apply H. now right.
Qed.

(** The multiples below [T] are the first [(T - 1) / s + 1] multiples. *)
Lemma multiples_below_count (T s : Z) :
  1 <= T -> 1 <= s ->
  multiples_below T s
  = map (fun k => Z.of_nat k * s) (seq 0 (Z.to_nat ((T - 1) / s + 1))).
Proof.
  intros HT Hs. unfold multiples_below.
  assert (Hq : 0 <= (T - 1) / s) by (apply Z.div_pos; lia).
  assert (Hqs : s * ((T - 1) / s) <= T - 1)
    by (apply Z.mul_div_le; lia).
  assert (Hqs' : T - 1 < s * ((T - 1) / s + 1)).
  { pose proof (Z.mod_pos_bound (T - 1) s ltac:(lia)).
    pose proof (Z.div_mod (T - 1) s ltac:(lia)). lia. }
  set (n := Z.to_nat ((T - 1) / s + 1)).
  assert (Hn : (n <= Z.to_nat T)%nat) by (subst n; nia).
  replace (Z.to_nat T) with (n + (Z.to_nat T - n))%nat by lia.
  rewrite seq_app, map_app, filter_app.
  rewrite filter_all, filter_none; [now rewrite app_nil_r| |].
  - intros x Hx. apply in_map_iff in Hx. destruct Hx as (k & <- & Hk).
    apply in_seq in Hk. apply Z.ltb_ge. subst n. nia.
  - intros x Hx. apply in_map_iff in Hx. destruct Hx as (k & <- & Hk).
    apply in_seq in Hk. apply Z.ltb_lt. subst n. nia.
Qed.

Lemma last_map_seq (f : nat -> Z) (n : nat) (d : Z) :
  last (map f (seq 0 (S n))) d = f n.
Proof.
  rewrite seq_S, map_app. cbn [map plus]. apply last_last.
Qed.

(** The number of sampled frames, from the stride. *)
Lemma sampled_frames_length (T rs : Z) :
  1 <= T ->
  Z.of_nat (length (sampled_frames_spec T rs))
  = (T - 1) / stride T rs + 1
    + (if (T - 1) mod stride T rs =? 0 then 0 else 1).
Proof.
  intros HT. unfold sampled_frames_spec.
  pose proof (stride_pos T rs) as Hs. set (s := stride T rs) in *.
  rewrite multiples_below_count by assumption.
  assert (Hq : 0 <= (T - 1) / s) by (apply Z.div_pos; lia).
  replace (Z.to_nat ((T - 1) / s + 1)) with (S (Z.to_nat ((T - 1) / s)))
    by lia.
  rewrite last_map_seq.
  pose proof (Z.div_mod (T - 1) s ltac:(lia)) as Hdm.
  pose proof (Z.mod_pos_bound (T - 1) s ltac:(lia)) as Hm.
  rewrite Z2Nat.id by assumption.
  destruct (Z.eqb_spec ((T - 1) mod s) 0) as [E|N];
    destruct (Z.eqb_spec ((T - 1) / s * s) (T - 1)) as [E'|N'];
    try nia;
    rewrite ?length_app, length_map, length_seq; cbn [length]; lia.
Qed.

Lemma stride_antitone (T rs rs' : Z) :
  0 <= T -> 1 <= rs <= rs' -> stride T rs' <= stride T rs.
Proof.
  intros HT Hrs. unfold stride.
  apply Z.max_le_compat_l. apply Z.div_le_compat_l; lia.
Qed.

Lemma count_antitone (m s s' : Z) :
  0 <= m -> 1 <= s' <= s ->
  m / s + (if m mod s =? 0 then 0 else 1)
  <= m / s' + (if m mod s' =? 0 then 0 else 1).
Proof.
  intros Hm Hs.
  pose proof (Z.div_mod m s ltac:(lia)) as H1.
  pose proof (Z.mod_pos_bound m s ltac:(lia)) as H2.
  pose proof (Z.div_mod m s' ltac:(lia)) as H3.
  pose proof (Z.mod_pos_bound m s' ltac:(lia)) as H4.
  assert (H5 : 0 <= m / s) by (apply Z.div_pos; lia).
  assert (H6 : 0 <= m / s') by (apply Z.div_pos; lia).
  destruct (Z.eqb_spec (m mod s) 0), (Z.eqb_spec (m mod s') 0); nia.
Qed.

(** X11. The number of frames sampled grows with the render steps: of
    the same animation, more render steps never sample fewer frames. The
    count is floor((T-1)/stride) + 1, plus 1 when stride does not divide
    T - 1. *)
Theorem more_steps_sample_no_fewer :
  forall (T rs rs' : Z) (l l' : list Z),
    1 <= T -> 1 <= rs -> rs <= rs' ->
    framesToRender T rs = Some l -> framesToRender T rs' = Some l' ->
    (length l <= length l')%nat
    /\ Z.of_nat (length l)
       = (T - 1) / stride T rs + 1
         + (if (T - 1) mod stride T rs =? 0 then 0 else 1).
Proof.
  intros T rs rs' l l' HT Hrs Hrs' Hl Hl'.
  rewrite framesToRender_refines in Hl, Hl' by assumption.
  injection Hl as <-. injection Hl' as <-.
  pose proof (sampled_frames_length T rs HT) as E.
  pose proof (sampled_frames_length T rs' HT) as E'.
  split; [|exact E].
  pose proof (stride_antitone T rs rs' ltac:(lia) ltac:(lia)) as Hs.
  pose proof (stride_pos T rs') as Hp.
  pose proof (count_antitone (T - 1) (stride T rs) (stride T rs')
                ltac:(lia) ltac:(lia)).
  lia.
Qed.

Lemma more_steps_sample_no_fewer_witness :
  (length [0; 50; 99] <= length [0; 14; 28; 42; 56; 70; 84; 98; 99])%nat.
Proof.
  refine (proj1 (more_steps_sample_no_fewer 100 2 7 [0; 50; 99]
                   [0; 14; 28; 42; 56; 70; 84; 98; 99]
                   _ _ _ eq_refl eq_refl)); lia.
Defined.

(** X12. With at least as many render steps as frames the stride is 1
    and every frame of the animation is sampled, in order. *)
Theorem framesToRender_every_frame :
  forall T rs : Z,
    1 <= T -> T <= rs ->
    framesToRender T rs = Some (map Z.of_nat (seq 0 (Z.to_nat T))).
Proof.
  intros T rs HT Hrs.
  rewrite framesToRender_refines by assumption.
  unfold sampled_frames_spec.
  assert (Hs : stride T rs = 1).
  { unfold stride. apply Z.max_l.
    destruct (Z.eq_dec T rs) as [->|Hne].
    - rewrite Z.div_same by lia. lia.
    - rewrite Z.div_small by lia. lia. }
  rewrite Hs, multiples_below_count by lia.
  rewrite Z.div_1_r. replace (T - 1 + 1) with T by lia.
  replace (Z.to_nat T) with (S (Z.to_nat (T - 1))) at 1 by lia.
  rewrite last_map_seq.
  replace (Z.of_nat (Z.to_nat (T - 1)) * 1) with (T - 1) by lia.
  rewrite Z.eqb_refl. f_equal. apply map_ext. intros k. lia.
Qed.

Lemma framesToRender_every_frame_witness :
  framesToRender 5 12 = Some (map Z.of_nat (seq 0 (Z.to_nat 5))).
Proof. apply framesToRender_every_frame; lia. Defined.


End SamplingMore.

(** ** The render steps as a number of frames *)

Section SamplingCount.

Import Sampling.
Local Open Scope Z_scope.

(** X13. The render steps act as the number of frames to export, not as
    a stride: with renderSteps * (renderSteps - 1) at most totalFrames,
    which holds for the whole slider (1 to 12) from 132 frames on, a
    sequence export samples at least renderSteps and at most
    renderSteps + 2 frames. *)
Theorem render_steps_count_frames :
  forall (T rs : Z) (frames : list Z),
    1 <= T -> 1 <= rs -> rs * (rs - 1) <= T ->
    framesToRender T rs = Some frames ->
    rs <= Z.of_nat (length frames) <= rs + 2.
Proof.
  intros T rs frames HT Hrs Hsq Hframes.
  rewrite framesToRender_refines in Hframes by assumption.
  injection Hframes as <-.
  rewrite sampled_frames_length by assumption.
  assert (HrsT : rs <= T) by nia.
  assert (Hs : stride T rs = T / rs).
  { unfold stride. apply Z.max_r.
    apply Z.div_le_lower_bound; lia. }
  rewrite Hs. set (s := T / rs).
  assert (Hs1 : 1 <= s) by (subst s; apply Z.div_le_lower_bound; lia).
  pose proof (Z.div_mod T rs ltac:(lia)) as HdT.
  pose proof (Z.mod_pos_bound T rs ltac:(lia)) as HmT.
  fold s in HdT.
  pose proof (Z.div_mod (T - 1) s ltac:(lia)) as Hd.
  pose proof (Z.mod_pos_bound (T - 1) s ltac:(lia)) as Hm.
  assert (Hrs1 : rs - 1 <= s).
  { subst s. apply Z.div_le_lower_bound; lia. }
  assert (Hlow : rs - 1 <= (T - 1) / s).
  { apply Z.div_le_lower_bound; [lia|]. nia. }
  assert (Hup : (T - 1) / s <= rs).
  { apply Z.lt_succ_r. apply Z.div_lt_upper_bound; [lia|]. nia. }
  destruct (Z.eqb_spec ((T - 1) mod s) 0); lia.
Qed.

Lemma render_steps_count_frames_witness :
  7 <= Z.of_nat (length [0; 14; 28; 42; 56; 70; 84; 98; 99]) <= 7 + 2.
Proof.
  apply (render_steps_count_frames 100 7); [lia | lia | lia | reflexivity].
Defined.

End SamplingCount.

(** ** More on the animation clock and the seeks *)

Section ClockMore.

Import Animation.
Local Open Scope Z_scope.

Lemma nextFrame_step (st : State) :
  1 <= totalFrames st -> frame_in_range st ->
  frame_in_range (nextFrame st)
  /\ totalFrames (nextFrame st) = totalFrames st
  /\ currentFrame (nextFrame st) = (currentFrame st + 1) mod totalFrames st.
Proof.
  intros HT Hin. unfold frame_in_range, nextFrame in *. cbn.
  destruct (Z.geb_spec (currentFrame st) (totalFrames st - 1)).
  - replace (currentFrame st + 1) with (totalFrames st) by lia.
    rewrite Z.mod_same by lia. lia.
  - rewrite Z.mod_small by lia. lia.
Qed.

Lemma previousFrame_step (st : State) :
  1 <= totalFrames st -> frame_in_range st ->
  frame_in_range (previousFrame st)
  /\ totalFrames (previousFrame st) = totalFrames st
  /\ currentFrame (previousFrame st)
     = (currentFrame st - 1) mod totalFrames st.
Proof.
  intros HT Hin. unfold frame_in_range, previousFrame in *. cbn.
  destruct (Z.leb_spec (currentFrame st) 0).
  - replace (currentFrame st - 1)
      with (totalFrames st - 1 + (-1) * totalFrames st) by lia.
    rewrite Z.mod_add, Z.mod_small by lia. lia.
  - rewrite Z.mod_small by lia. lia.
Qed.

Lemma iter_nextFrame (st : State) (n : nat) :
  1 <= totalFrames st -> frame_in_range st ->
  frame_in_range (Nat.iter n nextFrame st)
  /\ totalFrames (Nat.iter n nextFrame st) = totalFrames st
  /\ currentFrame (Nat.iter n nextFrame st)
     = (currentFrame st + Z.of_nat n) mod totalFrames st.
Proof.
  intros HT Hin. induction n as [|n (IHin & IHT & IHf)].
  - change (Nat.iter 0 nextFrame st) with st. unfold frame_in_range in *.
    rewrite Z.add_0_r, Z.mod_small by lia. auto.
  - rewrite !Nat.iter_succ.
    destruct (nextFrame_step (Nat.iter n nextFrame st)) as (A & B & C);
      [lia | assumption |].
    split; [exact A|]. split; [lia|].
    rewrite C, IHT, IHf, Zplus_mod_idemp_l. f_equal. lia.
Qed.

Lemma iter_previousFrame (st : State) (n : nat) :
  1 <= totalFrames st -> frame_in_range st ->
  frame_in_range (Nat.iter n previousFrame st)
  /\ totalFrames (Nat.iter n previousFrame st) = totalFrames st
  /\ currentFrame (Nat.iter n previousFrame st)
     = (currentFrame st - Z.of_nat n) mod totalFrames st.
Proof.
  intros HT Hin. induction n as [|n (IHin & IHT & IHf)].
  - change (Nat.iter 0 previousFrame st) with st.
    unfold frame_in_range in *.
    rewrite Z.sub_0_r, Z.mod_small by lia. auto.
  - rewrite !Nat.iter_succ.
    destruct (previousFrame_step (Nat.iter n previousFrame st))
      as (A & B & C); [lia | assumption |].
    split; [exact A|]. split; [lia|].
    rewrite C, IHT, IHf, Zminus_mod_idemp_l. f_equal. lia.
Qed.

Lemma previous_undoes_next (st : State) :
  1 <= totalFrames st -> frame_in_range st ->
  previousFrame (nextFrame st) = st.
Proof.
  destruct st as [p a l f T t]. unfold frame_in_range.
  cbn [currentFrame totalFrames]. intros HT Hin.
  unfold previousFrame, nextFrame, setCurrentFrame.
  cbn [currentFrame totalFrames isPlaying currentAnimation animations
       lastFrameTime].
  f_equal.
  destruct (Z.geb_spec f (T - 1)).
  - destruct (Z.leb_spec 0 0); lia.
  - destruct (Z.leb_spec (f + 1) 0); lia.
Qed.

Lemma next_undoes_previous (st : State) :
  1 <= totalFrames st -> frame_in_range st ->
  nextFrame (previousFrame st) = st.
Proof.
  destruct st as [p a l f T t]. unfold frame_in_range.
  cbn [currentFrame totalFrames]. intros HT Hin.
  unfold previousFrame, nextFrame, setCurrentFrame.
  cbn [currentFrame totalFrames isPlaying currentAnimation animations
       lastFrameTime].
  f_equal.
  destruct (Z.leb_spec f 0).
  - destruct (Z.geb_spec (T - 1) (T - 1)); lia.
  - destruct (Z.geb_spec (f - 1) (T - 1)); lia.
Qed.

(** X14. Stepping composes as arithmetic modulo the frame count: n
    presses of next move the frame forward by n, n presses of previous
    move it back by n, both modulo totalFrames; so totalFrames presses of
    either return to the same frame, and previous undoes next and next
    undoes previous, leaving the whole state of the clock as it was. *)
Theorem stepping_is_modular :
  forall (st : State) (n : nat),
    1 <= totalFrames st -> frame_in_range st ->
    currentFrame (Nat.iter n nextFrame st)
    = (currentFrame st + Z.of_nat n) mod totalFrames st
    /\ currentFrame (Nat.iter n previousFrame st)
       = (currentFrame st - Z.of_nat n) mod totalFrames st
    /\ currentFrame (Nat.iter (Z.to_nat (totalFrames st)) nextFrame st)
       = currentFrame st
    /\ currentFrame (Nat.iter (Z.to_nat (totalFrames st)) previousFrame st)
       = currentFrame st
    /\ previousFrame (nextFrame st) = st
    /\ nextFrame (previousFrame st) = st.
Proof.
  intros st n HT Hin.
  destruct (iter_nextFrame st n HT Hin) as (_ & _ & Hn).
  destruct (iter_previousFrame st n HT Hin) as (_ & _ & Hp).
  destruct (iter_nextFrame st (Z.to_nat (totalFrames st)) HT Hin)
    as (_ & _ & Hn').
  destruct (iter_previousFrame st (Z.to_nat (totalFrames st)) HT Hin)
    as (_ & _ & Hp').
  unfold frame_in_range in Hin.
  split; [exact Hn|]. split; [exact Hp|].
  split; [|split; [|split]].
  - rewrite Hn', Z2Nat.id by lia.
    replace (currentFrame st + totalFrames st)
      with (currentFrame st + 1 * totalFrames st) by lia.
    rewrite Z.mod_add, Z.mod_small by lia. reflexivity.
  - rewrite Hp', Z2Nat.id by lia.
    replace (currentFrame st - totalFrames st)
      with (currentFrame st + (-1) * totalFrames st) by lia.
    rewrite Z.mod_add, Z.mod_small by lia. reflexivity.
  - now apply previous_undoes_next.
  - now apply next_undoes_previous.
Qed.

Lemma stepping_is_modular_witness :
  currentFrame (Nat.iter 3 nextFrame Sample.clock) = 2
  /\ previousFrame (nextFrame Sample.clock) = Sample.clock.
Proof.
  assert (HT : 1 <= totalFrames Sample.clock) by (cbn; lia).
  assert (Hin : frame_in_range Sample.clock)
    by (unfold frame_in_range; cbn; lia).
  destruct (stepping_is_modular Sample.clock 3 HT Hin)
    as (Hn & _ & _ & _ & Hinv & _).
  split; [rewrite Hn; reflexivity | exact Hinv].
Defined.

(** X15. The playback tick is rate limited: a tick that comes less than
    a frame time (1000/30 ms) after the last advance leaves the clock
    exactly as it was, and the first tick after the reference time was
    cleared only records its time stamp. *)
Theorem tick_is_rate_limited :
  forall (st : State) (timestamp : Q),
    (forall t0 : Q,
        lastFrameTime st = Some t0 -> ~ (t0 == 0)%Q ->
        (timestamp < t0 + frameTime)%Q ->
        updateFrame timestamp st = st)
    /\ (lastFrameTime st = None ->
        currentFrame (updateFrame timestamp st) = currentFrame st
        /\ totalFrames (updateFrame timestamp st) = totalFrames st
        /\ lastFrameTime (updateFrame timestamp st) = Some timestamp).
Proof.
  intros st timestamp. split.
  - intros t0 Hlast Ht0 Hlt. unfold updateFrame. rewrite Hlast.
    unfold Js.eqb, Js.geb, Js.leb.
    destruct (Qeq_bool t0 0) eqn:E;
      [apply Qeq_bool_iff in E; contradiction|].
    replace (Qle_bool frameTime (timestamp - t0)) with false.
    + destruct st; cbn in *. now subst.
    + symmetry. apply not_true_is_false. intros H.
      apply Qle_bool_iff in H. lra.
  - intros Hlast. unfold updateFrame. rewrite Hlast.
    unfold Js.geb, Js.leb.
    replace (Qle_bool frameTime (timestamp - timestamp)) with false.
    + cbn. auto.
    + symmetry. apply not_true_is_false. intros H.
      apply Qle_bool_iff in H.
      assert (Hft : (0 < frameTime)%Q) by reflexivity. lra.
Qed.

Lemma tick_is_rate_limited_witness :
  updateFrame 1033 Sample.clock = Sample.clock.
Proof.
  apply (proj1 (tick_is_rate_limited Sample.clock 1033) 1000%Q);
    [reflexivity | discriminate | reflexivity].
Defined.

End ClockMore.

(** ** The seeks of the viewport *)

Section SeekFacts.

Import Viewport.
Local Open Scope Q_scope.

Lemma ratio_bounds (f n : Z) :
  (0 <= f)%Z -> (0 < n)%Z ->
  0 <= inject_Z f / inject_Z n
  /\ ((f < n)%Z -> inject_Z f / inject_Z n < 1)
  /\ ((f <= n)%Z -> inject_Z f / inject_Z n <= 1)
  /\ (inject_Z f / inject_Z n == 1 -> f = n)
  /\ (f = 0%Z -> inject_Z f / inject_Z n == 0).
Proof.
  intros Hf Hn.
  assert (Hfq : 0 <= inject_Z f)
    by (change 0 with (inject_Z 0); now rewrite <- Zle_Qle).
  assert (Hnq : 0 < inject_Z n)
    by (change 0 with (inject_Z 0); now rewrite <- Zlt_Qlt).
  split; [|split; [|split; [|split]]].
  - apply Qle_shift_div_l; lra.
  - intros Hlt. apply Qlt_shift_div_r; [exact Hnq|].
    rewrite Qmult_1_l. now rewrite <- Zlt_Qlt.
  - intros Hle. apply Qle_shift_div_r; [exact Hnq|].
    rewrite Qmult_1_l. now rewrite <- Zle_Qle.
  - intros E.
    assert (E' : inject_Z f == inject_Z n).
    { setoid_replace (inject_Z f)
        with (inject_Z f / inject_Z n * inject_Z n) by (field; lra).
      rewrite E. ring. }
    now apply inject_Z_injective.
  - intros ->. change (inject_Z 0) with 0. field. lra.
Qed.

(** X16. The seeks stay within the clip. While paused, the preview seeks
    frame f of totalFrames to a time in [0, duration), and while playing
    it seeks nothing. The listener that the export drives seeks a frame
    between 0 and total - 1 to a time in [0, duration]: frame 0 to the
    start, and the last frame, and only it, to the very end of the clip. *)
Theorem seeks_stay_within_clip :
  forall (props : Props) (clips : list Animation.Clip) (current : string)
         (anim : Animation.Clip),
    hasMixer props = true ->
    model props = Some clips ->
    currentAnimation props = Some current ->
    current <> EmptyString ->
    Animation.find_clip clips current = Some anim ->
    0 < Animation.duration anim ->
    (forall f : Z,
        (0 <= f < totalFrames props)%Z ->
        exists t, pausedSeek props false f = Some t
                  /\ 0 <= t /\ t < Animation.duration anim)
    /\ (forall f : Z, pausedSeek props true f = None)
    /\ (forall total f : Z,
           (2 <= total)%Z -> (0 <= f <= total - 1)%Z ->
           exists t, handleFrameChange props f total = Some t
                     /\ 0 <= t /\ t <= Animation.duration anim
                     /\ (t == Animation.duration anim <-> f = (total - 1)%Z)
                     /\ (f = 0%Z -> t == 0)).
Proof.
  intros props clips current anim Hmixer Hmodel Hcurrent Hname Hfind Hd.
  assert (Htruthy : Js.truthy_string (Some current) = true)
    by (destruct current; [contradiction | reflexivity]).
  split; [|split].
  - intros f Hf. unfold pausedSeek.
    rewrite Hmixer, Hmodel, Hcurrent, Htruthy, Hfind.
    destruct (Z.gtb_spec (totalFrames props) 0); [|lia]. cbn [andb negb].
    eexists. split; [reflexivity|].
    destruct (ratio_bounds f (totalFrames props)) as (H0 & H1 & _);
      [lia | lia |].
    specialize (H1 ltac:(lia)).
    set (q := inject_Z f / inject_Z (totalFrames props)) in *. nra.
  - intros f. unfold pausedSeek.
    rewrite Hmixer, Hmodel, Hcurrent, Htruthy, Hfind.
    now rewrite andb_false_r.
  - intros total f Htotal Hf.
    unfold handleFrameChange, normalizedTime.
    rewrite Hmixer, Hmodel, Hcurrent, Htruthy, Hfind.
    destruct (Z.eqb_spec total 0); [lia|].
    eexists. split; [reflexivity|].
    destruct (ratio_bounds f (total - 1)) as (H0 & _ & H1 & H2 & H3);
      [lia | lia |].
    specialize (H1 ltac:(lia)).
    set (q := inject_Z f / inject_Z (total - 1)) in *.
    split; [nra|]. split; [nra|]. split; [split|].
    + intros E. apply H2. nra.
    + intros ->. 
      assert (E : q == 1).
      { subst q. field. change 0 with (inject_Z 0).
        rewrite inject_Z_injective. lia. }
      rewrite E. ring.
    + intros Hz. rewrite (H3 Hz). ring.
Qed.

Lemma seeks_stay_within_clip_witness :
  (exists t, pausedSeek Sample.props false 59 = Some t
             /\ 0 <= t /\ t < 2)
  /\ pausedSeek Sample.props true 59 = None
  /\ exists t, handleFrameChange Sample.props 59 60 = Some t
               /\ 0 <= t /\ t <= 2
               /\ (t == 2 <-> 59%Z = (60 - 1)%Z)
               /\ (59%Z = 0%Z -> t == 0).
Proof.
  destruct (seeks_stay_within_clip Sample.props Sample.clips "walk"
              (Animation.mkClip "walk" 2))
    as (Hpaused & Hplaying & Hexport);
    try reflexivity; try discriminate.
  split; [|split].
  - apply Hpaused. cbn. lia.
  - apply Hplaying.
  - apply Hexport; lia.
Defined.

End SeekFacts.

(** ** More on the effects shader *)

Section ShaderMore.

Import Shader Grade.
Local Open Scope Q_scope.

Lemma ltb_true (x y : Q) : Js.ltb x y = true <-> x < y.
Proof.
  unfold Js.ltb. rewrite negb_true_iff.
  split.
  - intros H. apply Qnot_le_lt. intros Hle.
    apply Qle_bool_iff in Hle. congruence.
  - intros H. destruct (Qle_bool y x) eqn:E; [|reflexivity].
    apply Qle_bool_iff in E. lra.
Qed.

Lemma ltb_false (x y : Q) : Js.ltb x y = false <-> y <= x.
Proof.
  unfold Js.ltb. rewrite negb_false_iff. apply Qle_bool_iff.
Qed.

Lemma step_cases (edge x : Q) :
  (x < edge /\ step edge x = 0) \/ (edge <= x /\ step edge x = 1).
Proof.
  unfold step. destruct (Js.ltb x edge) eqn:E.
  - left. split; [now apply ltb_true | reflexivity].
  - right. split; [now apply ltb_false | reflexivity].
Qed.

Lemma posterize_channel_comp (cs c c' : Q) :
  c == c' -> posterize_channel cs c == posterize_channel cs c'.
Proof.
  intros H. unfold posterize_channel.
  destruct (Js.gtb cs 0); [|exact H].
  cbv zeta. unfold floorQ, Js.floor.
  assert (E : Qfloor (c * Js.max 2 (inject_Z (Qfloor cs)))
              = Qfloor (c' * Js.max 2 (inject_Z (Qfloor cs))))
    by (apply Qfloor_comp; now rewrite H).
  rewrite E. reflexivity.
Qed.

(** The number of steps of the posterization, as an integer. *)
Lemma steps_integer (cs : Q) :
  Js.max 2 (floorQ cs) == inject_Z (Z.max 2 (Js.floor cs)).
Proof.
  unfold Js.max, floorQ, Js.floor.
  destruct (Z.max_spec 2 (Qfloor cs)) as [[Hlt ->]|[Hle ->]].
  - apply Q.max_r. change 2 with (inject_Z 2). rewrite <- Zle_Qle. lia.
  - apply Q.max_l. change 2 with (inject_Z 2). now rewrite <- Zle_Qle.
Qed.

Lemma posterize_channel_on (cs c : Q) :
  0 < cs ->
  posterize_channel cs c
  == inject_Z (Js.floor (c * inject_Z (Z.max 2 (Js.floor cs))))
     / inject_Z (Z.max 2 (Js.floor cs)).
Proof.
  intros Hcs. unfold posterize_channel.
  assert (E : Js.gtb cs 0 = true) by now apply ltb_true.
  rewrite E. cbv zeta.
  pose proof (steps_integer cs) as Hs.
  unfold floorQ at 1, Js.floor at 1.
  assert (Ef : Qfloor (c * Js.max 2 (floorQ cs))
               = Js.floor (c * inject_Z (Z.max 2 (Js.floor cs))))
    by (apply Qfloor_comp; now rewrite Hs).
  rewrite Ef, Hs. reflexivity.
Qed.

(** X17. The posterization at the step counts that are powers of two,
    where the product c * n and the quotient by n lose nothing to
    rounding: with n = max(2, floor(colorSteps)) one of 2, 4, 8 and 16, a
    channel value c becomes floor(c * n) / n, the multiple of 1/n just
    below c; posterizing twice is posterizing once; a value of [0, 1]
    lands on one of the n + 1 levels 0, 1/n, ..., 1; and every setting
    below 3, the slider's 1 included, acts as 2 steps. *)
Theorem posterization_grid :
  forall cs c : Q,
    0 < cs ->
    let n := Z.max 2 (Js.floor cs) in
    In n [2; 4; 8; 16]%Z ->
    posterize_channel cs c == inject_Z (Js.floor (c * inject_Z n)) / inject_Z n
    /\ posterize_channel cs c <= c
    /\ c < posterize_channel cs c + 1 / inject_Z n
    /\ posterize_channel cs (posterize_channel cs c) == posterize_channel cs c
    /\ (0 <= c -> c <= 1 ->
        exists k : Z,
          (0 <= k <= n)%Z /\ posterize_channel cs c == inject_Z k / inject_Z n)
    /\ (cs < 3 -> posterize_channel cs c == posterize_channel 2 c).
Proof.
  intros cs c Hcs n Hpower.
  assert (Hn : (2 <= n)%Z) by (subst n; lia).
  assert (Hnq : 0 < inject_Z n)
    by (change 0 with (inject_Z 0); rewrite <- Zlt_Qlt; lia).
  pose proof (posterize_channel_on cs c Hcs) as Hon. fold n in Hon.
  pose proof (Qfloor_le (c * inject_Z n)) as Hle.
  pose proof (Qlt_floor (c * inject_Z n)) as Hlt.
  rewrite inject_Z_plus in Hlt. change (inject_Z 1) with 1 in Hlt.
  unfold Js.floor in *.
  set (k := Qfloor (c * inject_Z n)) in *.
  split; [exact Hon|]. split; [|split; [|split; [|split]]].
  - rewrite Hon. apply Qle_shift_div_r; [exact Hnq | exact Hle].
  - rewrite Hon.
    setoid_replace (inject_Z k / inject_Z n + 1 / inject_Z n)
      with ((inject_Z k + 1) / inject_Z n) by (field; lra).
    apply Qlt_shift_div_l; [exact Hnq | exact Hlt].
  - rewrite (posterize_channel_comp cs _ _ Hon).
    pose proof (posterize_channel_on cs (inject_Z k / inject_Z n) Hcs) as H2.
    unfold Js.floor in H2. fold n in H2.
    rewrite H2, Hon.
    assert (E : Qfloor (inject_Z k / inject_Z n * inject_Z n) = k).
    { rewrite <- (Qfloor_Z k) at 2. apply Qfloor_comp. field. lra. }
    rewrite E. reflexivity.
  - intros H0 H1. exists k. split; [|exact Hon]. split.
    + assert (H : (Qfloor 0 <= Qfloor (c * inject_Z n))%Z)
        by (apply Qfloor_resp_le; nra).
      exact H.
    + assert (H : (Qfloor (c * inject_Z n) <= Qfloor (inject_Z n))%Z)
        by (apply Qfloor_resp_le; nra).
      rewrite Qfloor_Z in H. exact H.
  - intros H3.
    assert (Hf : (Qfloor cs <= 2)%Z).
    { assert (H : inject_Z (Qfloor cs) < inject_Z 3)
        by (pose proof (Qfloor_le cs); change (inject_Z 3) with 3; lra).
      rewrite <- Zlt_Qlt in H. lia. }
    assert (E : n = 2%Z) by (subst n; unfold Js.floor; lia).
    rewrite Hon.
    assert (H2 : posterize_channel 2 c == inject_Z (Qfloor (c * 2)) / 2)
      by reflexivity.
    rewrite H2. subst k. rewrite E. reflexivity.
Qed.

Lemma posterization_grid_witness :
  posterize_channel 1 0.8 == posterize_channel 2 0.8
  /\ posterize_channel 16 0.8 <= 0.8.
Proof.
  split.
  - apply (posterization_grid 1 0.8);
      first [reflexivity | now left].
  - apply (posterization_grid 16 0.8);
      first [reflexivity | now right; right; right; left].
Defined.

(** The value channel of [rgb2hsv] is the largest channel. *)
Lemma rgb2hsv_value (c : vec3) :
  z3 (rgb2hsv c) == Js.max (x3 c) (Js.max (y3 c) (z3 c)).
Proof.
  unfold rgb2hsv, mix4, mix, Js.max. cbn [x3 y3 z3 x4 y4 z4 w4].
  destruct (step_cases (z3 c) (y3 c)) as [[H1 ->]|[H1 ->]];
    match goal with
    | |- context [step ?e ?x] =>
        destruct (step_cases e x) as [[H2 ->]|[H2 ->]]
    end;
    destruct (Q.max_spec (y3 c) (z3 c)) as [[Ha Ea]|[Ha Ea]];
    destruct (Q.max_spec (x3 c) (Qmax (y3 c) (z3 c))) as [[Hb Eb]|[Hb Eb]];
    rewrite Eb; try rewrite Ea; lra.
Qed.

(** On a grey colour [rgb2hsv] finds no saturation. *)
Lemma rgb2hsv_grey (g : Q) :
  y3 (rgb2hsv (mkVec3 g g g)) == 0 /\ z3 (rgb2hsv (mkVec3 g g g)) == g.
Proof.
  split.
  - unfold rgb2hsv, mix4, mix, Js.min. cbn [x3 y3 z3 x4 y4 z4 w4].
    destruct (step_cases g g) as [[H1 _]|[_ ->]]; [lra|].
    match goal with
    | |- context [step ?e ?x] =>
        destruct (step_cases e x) as [[H2 _]|[_ ->]]; [lra|]
    end.
    match goal with
    | |- ?d / ?x == 0 =>
        assert (Hd : d == 0);
        [|rewrite Hd; unfold Qdiv; ring]
    end.
    match goal with
    | |- context [Qmin ?a ?b] =>
        destruct (Q.min_spec a b) as [[_ ->]|[_ ->]]; ring
    end.
  - rewrite rgb2hsv_value. cbn [x3 y3 z3]. unfold Js.max.
    now rewrite !Q.max_id.
Qed.

(** Without saturation [hsv2rgb] returns the value on every channel. *)
Lemma mix_unsaturated (v b s : Q) : s == 0 -> v * mix 1 b s == v.
Proof. intros Hs. unfold mix. rewrite Hs. ring. Qed.

Lemma hsv2rgb_unsaturated (h s v : Q) :
  s == 0 -> greyOf v (hsv2rgb (mkVec3 h s v)).
Proof.
  intros Hs. unfold greyOf, hsv2rgb, map3.
  cbn [x3 y3 z3 x4 y4 z4 w4].
  repeat split; now apply mix_unsaturated.
Qed.

Lemma main_rgb (u : ImageEffects) (texel : vec4) :
  rgb (main u texel) = posterize (colorSteps u) (graded u texel).
Proof.
  unfold main, rgb. cbn [x4 y4 z4].
  now destruct (posterize (colorSteps u) (graded u texel)).
Qed.

Lemma posterize_grey (cs v : Q) (a : vec3) :
  greyOf v a -> greyOf (posterize_channel cs v) (posterize cs a).
Proof.
  intros (Hx & Hy & Hz). unfold greyOf, posterize, map3.
  cbn [x3 y3 z3].
  repeat split; now apply posterize_channel_comp.
Qed.

Lemma graded_let (u : ImageEffects) (texel : vec4) :
  graded u texel
  = (let hsv := rgb2hsv (contrasted u texel) in
     let hsv := mkVec3 (fract (x3 hsv + hue u / 360)) (y3 hsv) (z3 hsv) in
     let hsv := mkVec3 (x3 hsv) (y3 hsv * saturation u) (z3 hsv) in
     hsv2rgb hsv).
Proof. reflexivity. Qed.

Lemma x3_mk (a b c : Q) : x3 (mkVec3 a b c) = a.
Proof. reflexivity. Qed.

Lemma y3_mk (a b c : Q) : y3 (mkVec3 a b c) = b.
Proof. reflexivity. Qed.

Lemma z3_mk (a b c : Q) : z3 (mkVec3 a b c) = c.
Proof. reflexivity. Qed.

Lemma graded_hsv (u : ImageEffects) (texel : vec4) :
  graded u texel
  = hsv2rgb (mkVec3 (fract (x3 (rgb2hsv (contrasted u texel)) + hue u / 360))
                    (y3 (rgb2hsv (contrasted u texel)) * saturation u)
                    (z3 (rgb2hsv (contrasted u texel)))).
Proof.
  rewrite graded_let. cbv zeta. rewrite !x3_mk, !y3_mk, !z3_mk. reflexivity.
Qed.

(** In the exact arithmetic of the model, without saturation the three
    outputs are the posterized largest channel that the pixel has after
    brightness and contrast. *)
Lemma unsaturated_value (u : ImageEffects) (texel : vec4) :
  saturation u == 0 ->
  greyOf (posterize_channel (colorSteps u)
            (Js.max (x3 (contrasted u texel))
               (Js.max (y3 (contrasted u texel)) (z3 (contrasted u texel)))))
         (rgb (main u texel)).
Proof.
  intros Hsat. rewrite main_rgb. apply posterize_grey.
  rewrite graded_hsv. set (c := contrasted u texel).
  destruct (hsv2rgb_unsaturated
              (fract (x3 (rgb2hsv c) + hue u / 360))
              (y3 (rgb2hsv c) * saturation u)
              (z3 (rgb2hsv c))) as (Hx & Hy & Hz).
  - rewrite Hsat. ring.
  - pose proof (rgb2hsv_value c) as Hv.
    unfold greyOf. rewrite Hx, Hy, Hz, Hv. repeat split; reflexivity.
Qed.

(** In the exact arithmetic of the model, the outputs of a grey texel
    are its posterized value after brightness and contrast. *)
Lemma grey_texel_value (u : ImageEffects) (v a : Q) :
  greyOf (posterize_channel (colorSteps u)
            ((v * brightness u - (1 # 2)) * contrast u + (1 # 2)))
         (rgb (main u (mkVec4 v v v a))).
Proof.
  rewrite main_rgb. apply posterize_grey.
  rewrite graded_hsv.
  set (g := (v * brightness u - (1 # 2)) * contrast u + (1 # 2)).
  change (contrasted u (mkVec4 v v v a)) with (mkVec3 g g g).
  destruct (rgb2hsv_grey g) as (Hs & Hv).
  destruct (hsv2rgb_unsaturated
              (fract (x3 (rgb2hsv (mkVec3 g g g)) + hue u / 360))
              (y3 (rgb2hsv (mkVec3 g g g)) * saturation u)
              (z3 (rgb2hsv (mkVec3 g g g)))) as (Hx & Hy & Hz).
  - rewrite Hs. ring.
  - unfold greyOf. rewrite Hx, Hy, Hz, Hv. repeat split; reflexivity.
Qed.

Lemma greyOf_isGrey (v : Q) (a : vec3) : greyOf v a -> isGrey a.
Proof.
  intros (Hx & Hy & Hz). unfold isGrey. rewrite Hx, Hy, Hz.
  split; reflexivity.
Qed.

Lemma greyOf_same (v : Q) (a b : vec3) :
  greyOf v a -> greyOf v b -> sameColour a b.
Proof.
  intros (Hx & Hy & Hz) (Hx' & Hy' & Hz'). unfold sameColour.
  rewrite Hx, Hy, Hz, Hx', Hy', Hz'. split; [|split]; reflexivity.
Qed.

(** X18. With the saturation at 0 every pixel comes out grey, its red,
    green and blue alike, and the hue shift has no effect on it: the
    picture is the same for every hue. (The saturation of the pixel is
    multiplied by 0, the mix at weight 0 is 1 and the value is multiplied
    by 1: steps that lose nothing to rounding.) *)
Theorem zero_saturation_gives_grey :
  forall (u : ImageEffects) (texel : vec4) (h : Q),
    saturation u == 0 ->
    isGrey (rgb (main u texel))
    /\ sameColour (rgb (main (withHue u h) texel)) (rgb (main u texel)).
Proof.
  intros u texel h Hsat.
  pose proof (unsaturated_value u texel Hsat) as Hu.
  pose proof (unsaturated_value (withHue u h) texel Hsat) as Hh.
  split.
  - exact (greyOf_isGrey _ _ Hu).
  - exact (greyOf_same _ _ _ Hh Hu).
Qed.

Lemma zero_saturation_gives_grey_witness :
  isGrey (rgb (main Sample2.greyscale Sample2.orange))
  /\ sameColour
       (rgb (main (withHue Sample2.greyscale 240) Sample2.orange))
       (rgb (main Sample2.greyscale Sample2.orange)).
Proof.
  exact (zero_saturation_gives_grey Sample2.greyscale Sample2.orange 240
           eq_refl).
Defined.

(** X19. A grey pixel stays grey, and comes out the same under every hue
    shift and every saturation: on a texel (v, v, v, a) the conversion
    to HSV finds the saturation 0, whatever the other settings. *)
Theorem grey_pixels_ignore_hue_and_saturation :
  forall (u : ImageEffects) (v a h s : Q),
    isGrey (rgb (main u (mkVec4 v v v a)))
    /\ sameColour
         (rgb (main (withSaturation (withHue u h) s) (mkVec4 v v v a)))
         (rgb (main u (mkVec4 v v v a))).
Proof.
  intros u v a h s.
  pose proof (grey_texel_value u v a) as Hu.
  pose proof (grey_texel_value (withSaturation (withHue u h) s) v a) as Hs.
  split.
  - exact (greyOf_isGrey _ _ Hu).
  - exact (greyOf_same _ _ _ Hs Hu).
Qed.

End ShaderMore.

(** ** The vertical pan of the left panel *)

Section PanFacts.

Import Render LeftPanel.
Local Open Scope Q_scope.

Lemma ltb_ceiling (i : Z) (bound : Q) :
  Js.ltb (inject_Z i) bound = true <-> (i < Qceiling bound)%Z.
Proof.
  unfold Js.ltb. rewrite negb_true_iff. split.
  - intros H.
    assert (Hlt : inject_Z i < bound).
    { apply Qnot_le_lt. intros Hle. apply Qle_bool_iff in Hle. congruence. }
    pose proof (Qle_ceiling bound) as Hc.
    rewrite Zlt_Qlt. lra.
  - intros H. destruct (Qle_bool bound (inject_Z i)) eqn:E; [|reflexivity].
    apply Qle_bool_iff in E.
    pose proof (Qceiling_lt bound) as Hc.
    assert (Hi : inject_Z i <= inject_Z (Qceiling bound - 1))
      by (rewrite <- Zle_Qle; lia).
    lra.
Qed.

(** The loop never runs out of the fuel the handler gives it, and runs
    the pan the ceiling of the bound many times. *)
Lemma pan_loop_runs (pan : UseCamera.State -> UseCamera.State) :
  forall (fuel : nat) (i : Z) (bound : Q) (c : UseCamera.State),
    (Qceiling bound - i <= Z.of_nat fuel)%Z ->
    pan_loop fuel i bound pan c
    = Some (Nat.iter (Z.to_nat (Qceiling bound - i)) pan c).
Proof.
  induction fuel as [|fuel IH]; intros i bound c Hfuel; cbn [pan_loop].
  - destruct (Js.ltb (inject_Z i) bound) eqn:E.
    + apply ltb_ceiling in E. lia.
    + assert (Hn : ~ (i < Qceiling bound)%Z)
        by (rewrite <- ltb_ceiling; congruence).
      replace (Z.to_nat (Qceiling bound - i)) with 0%nat by lia.
      reflexivity.
  - destruct (Js.ltb (inject_Z i) bound) eqn:E.
    + apply ltb_ceiling in E.
      rewrite IH by lia.
      replace (Z.to_nat (Qceiling bound - i))
        with (S (Z.to_nat (Qceiling bound - (i + 1)))) by lia.
      now rewrite Nat.iter_succ_r.
    + assert (Hn : ~ (i < Qceiling bound)%Z)
        by (rewrite <- ltb_ceiling; congruence).
      replace (Z.to_nat (Qceiling bound - i)) with 0%nat by lia.
      reflexivity.
Qed.

Lemma keepsView_refl (c : UseCamera.State) : keepsView c c.
Proof. repeat split. Qed.

Lemma keepsView_trans (c1 c2 c3 : UseCamera.State) :
  keepsView c1 c2 -> keepsView c2 c3 -> keepsView c1 c3.
Proof.
  unfold keepsView. intros (A1 & A2 & A3 & A4 & A5 & A6)
                           (B1 & B2 & B3 & B4 & B5 & B6).
  repeat split; congruence.
Qed.

Lemma iter_panCameraUp (n : nat) (c : UseCamera.State) :
  keepsView c (Nat.iter n UseCamera.panCameraUp c)
  /\ vy (UseCamera.modelOffset (Nat.iter n UseCamera.panCameraUp c))
     == vy (UseCamera.modelOffset c) - inject_Z (Z.of_nat n) / 4.
Proof.
  induction n as [|n (IH & IHy)].
  - split; [apply keepsView_refl|].
    change (Nat.iter 0 UseCamera.panCameraUp c) with c.
    change (inject_Z (Z.of_nat 0)) with 0. field.
  - rewrite Nat.iter_succ.
    set (c' := Nat.iter n UseCamera.panCameraUp c) in *.
    split.
    + apply (keepsView_trans _ c' _ IH). repeat split.
    + cbn [UseCamera.panCameraUp UseCamera.setModelOffset
           UseCamera.modelOffset vy].
      rewrite IHy, Nat2Z.inj_succ. unfold Z.succ.
      rewrite inject_Z_plus. change (inject_Z 1) with 1. field.
Qed.

Lemma iter_panCameraDown (n : nat) (c : UseCamera.State) :
  keepsView c (Nat.iter n UseCamera.panCameraDown c)
  /\ vy (UseCamera.modelOffset (Nat.iter n UseCamera.panCameraDown c))
     == vy (UseCamera.modelOffset c) + inject_Z (Z.of_nat n) / 4.
Proof.
  induction n as [|n (IH & IHy)].
  - split; [apply keepsView_refl|].
    change (Nat.iter 0 UseCamera.panCameraDown c) with c.
    change (inject_Z (Z.of_nat 0)) with 0. field.
  - rewrite Nat.iter_succ.
    set (c' := Nat.iter n UseCamera.panCameraDown c) in *.
    split.
    + apply (keepsView_trans _ c' _ IH). repeat split.
    + cbn [UseCamera.panCameraDown UseCamera.setModelOffset
           UseCamera.modelOffset vy].
      rewrite IHy, Nat2Z.inj_succ. unfold Z.succ.
      rewrite inject_Z_plus. change (inject_Z 1) with 1. field.
Qed.

Lemma halfStep_spec (value : Q) :
  isHalfStep value = true <-> exists k : Z, value == inject_Z k / 2.
Proof.
  unfold isHalfStep, Js.eqb, Js.floor. rewrite Qeq_bool_iff. split.
  - intros H. exists (Qfloor (value * 2)). rewrite H. field.
  - intros (k & Hk).
    assert (E : value * 2 == inject_Z k) by (rewrite Hk; field).
    rewrite (Qfloor_comp _ _ E), Qfloor_Z. now rewrite E.
Qed.

Lemma clamp_halfStep (value : Q) :
  isHalfStep value = true ->
  isHalfStep (Js.max (-4) (Js.min 4 value)) = true
  /\ -4 <= Js.max (-4) (Js.min 4 value) <= 4.
Proof.
  intros H. unfold Js.max, Js.min.
  destruct (Q.min_spec 4 value) as [[Hm Em]|[Hm Em]];
    destruct (Q.max_spec (-4) (Qmin 4 value)) as [[Hx Ex]|[Hx Ex]];
    (split; [|rewrite Ex; rewrite ?Em; rewrite Em in Hx; lra]);
    apply halfStep_spec.
  - exists 8%Z. rewrite Ex, Em. reflexivity.
  - exists (-8)%Z. rewrite Ex. reflexivity.
  - apply halfStep_spec in H. destruct H as (k & Hk).
    exists k. now rewrite Ex, Em.
  - exists (-8)%Z. rewrite Ex. reflexivity.
Qed.

(** One move of the slider on the half-step grid. *)
Lemma handleVerticalInputChange_step (value : Q) (st : State) :
  isHalfStep (verticalPan st) = true ->
  isHalfStep value = true ->
  exists st',
    handleVerticalInputChange value st = Some st'
    /\ verticalPan st' = Js.max (-4) (Js.min 4 value)
    /\ modelHeight st' + verticalPan st' / 2
       == modelHeight st + verticalPan st / 2
    /\ keepsView (camera st) (camera st').
Proof.
  intros Hp Hv.
  destruct (clamp_halfStep value Hv) as (Hc & _).
  apply halfStep_spec in Hp, Hc.
  destruct Hp as (j & Hj). destruct Hc as (k & Hk).
  unfold handleVerticalInputChange, modelHeight.
  set (clamped := Js.max (-4) (Js.min 4 value)) in *.
  set (diff := clamped - verticalPan st).
  assert (Hdiff : diff == inject_Z (k - j) / 2).
  { subst diff. rewrite Hk, Hj. unfold Zminus.
    rewrite inject_Z_plus, inject_Z_opp. field. }
  destruct (Js.eqb diff 0) eqn:E; cbn [negb].
  - apply Qeq_bool_iff in E.
    eexists. split; [reflexivity|]. cbn [verticalPan camera].
    split; [reflexivity|]. split; [|apply keepsView_refl].
    subst diff. assert (E' : clamped == verticalPan st) by lra.
    now rewrite E'.
  - cbv zeta.
    assert (Hne : ~ diff == 0) by now apply Qeq_bool_neq.
    destruct (Js.gtb diff 0) eqn:G.
    + assert (Hpos : 0 < diff).
      { unfold Js.gtb, Js.ltb in G. apply negb_true_iff in G.
        apply Qnot_le_lt. intros Hle. apply Qle_bool_iff in Hle.
        congruence. }
      assert (Hb : Js.abs diff * 2 == inject_Z (k - j)).
      { unfold Js.abs. rewrite Qabs_pos by lra. rewrite Hdiff. field. }
      rewrite pan_loop_runs by lia.
      rewrite (Qceiling_comp _ _ Hb), Qceiling_Z, Z.sub_0_r.
      assert (Hkj : (0 < k - j)%Z).
      { rewrite Zlt_Qlt. change (inject_Z 0) with 0. rewrite <- Hb.
        unfold Js.abs. rewrite Qabs_pos by lra. lra. }
      destruct (iter_panCameraUp (Z.to_nat (k - j)) (camera st))
        as (Hkeep & Hy).
      eexists. split; [reflexivity|]. cbn [verticalPan camera].
      split; [reflexivity|]. split; [|exact Hkeep].
      rewrite Hy, Z2Nat.id by lia. fold clamped. rewrite Hk, Hj.
      unfold Zminus. rewrite inject_Z_plus, inject_Z_opp. field.
    + assert (Hneg : diff < 0).
      { unfold Js.gtb, Js.ltb in G. apply negb_false_iff in G.
        apply Qle_bool_iff in G. lra. }
      assert (Hb : Js.abs diff * 2 == inject_Z (j - k)).
      { unfold Js.abs. rewrite Qabs_neg by lra. rewrite Hdiff.
        unfold Zminus. rewrite !inject_Z_plus, !inject_Z_opp. field. }
      rewrite pan_loop_runs by lia.
      rewrite (Qceiling_comp _ _ Hb), Qceiling_Z, Z.sub_0_r.
      assert (Hkj : (0 < j - k)%Z).
      { rewrite Zlt_Qlt. change (inject_Z 0) with 0. rewrite <- Hb.
        unfold Js.abs. rewrite Qabs_neg by lra. lra. }
      destruct (iter_panCameraDown (Z.to_nat (j - k)) (camera st))
        as (Hkeep & Hy).
      eexists. split; [reflexivity|]. cbn [verticalPan camera].
      split; [reflexivity|]. split; [|exact Hkeep].
      rewrite Hy, Z2Nat.id by lia. fold clamped. rewrite Hk, Hj.
      unfold Zminus. rewrite inject_Z_plus, inject_Z_opp. field.
Qed.

(** [lra] with the halves written as products. *)
Ltac lra_halves :=
  unfold Qdiv in *; change (/ 2) with (1 # 2) in *; lra.

(** X21. The vertical-pan slider and the model stay in step. Over any run
    of the panel's camera controls with the slider moved on its
    half-step grid, every event is handled, the model's height plus half
    the slider value stays what it was, and nothing else of the model
    offset moves. From the initial state the model is therefore at minus
    half the slider value, at most 2 away from the centre, and back at
    the centre whenever the slider is back at 0. *)
Theorem vertical_pan_tracks_slider :
  forall (controls : list Control) (st : State),
    isHalfStep (verticalPan st) = true ->
    -4 <= verticalPan st <= 4 ->
    (forall value, In (VerticalPanSlider value) controls ->
                   isHalfStep value = true) ->
    exists st',
      handleAll controls st = Some st'
      /\ modelHeight st' + verticalPan st' / 2
         == modelHeight st + verticalPan st / 2
      /\ vx (UseCamera.modelOffset (camera st'))
         = vx (UseCamera.modelOffset (camera st))
      /\ vz (UseCamera.modelOffset (camera st'))
         = vz (UseCamera.modelOffset (camera st))
      /\ isHalfStep (verticalPan st') = true
      /\ -4 <= verticalPan st' <= 4
      /\ (modelHeight st == - (verticalPan st / 2) ->
          modelHeight st' == - (verticalPan st' / 2)
          /\ -2 <= modelHeight st' <= 2
          /\ (verticalPan st' == 0 -> modelHeight st' == 0)).
Proof.
  induction controls as [|control rest IH]; intros st Hp Hrange Hgrid.
  - exists st. cbn [handleAll].
    repeat split; try reflexivity; try assumption; try lra_halves.
  - assert (Hstep : exists st1,
               handle control st = Some st1
               /\ modelHeight st1 + verticalPan st1 / 2
                  == modelHeight st + verticalPan st / 2
               /\ vx (UseCamera.modelOffset (camera st1))
                  = vx (UseCamera.modelOffset (camera st))
               /\ vz (UseCamera.modelOffset (camera st1))
                  = vz (UseCamera.modelOffset (camera st))
               /\ isHalfStep (verticalPan st1) = true
               /\ -4 <= verticalPan st1 <= 4).
    { destruct control as [v|z|value|checked]; cbn [handle].
      - eexists. split; [reflexivity|].
        unfold modelHeight. cbn [verticalPan camera].
        destruct v; cbn; repeat split; try reflexivity; try assumption;
          lra_halves.
      - eexists. split; [reflexivity|].
        unfold modelHeight. cbn.
        repeat split; try reflexivity; try assumption; lra_halves.
      - assert (Hv : isHalfStep value = true)
          by (apply Hgrid; now left).
        destruct (handleVerticalInputChange_step value st Hp Hv)
          as (st1 & Hrun & Hpan & Hsum & _ & _ & _ & _ & Hx & Hz).
        destruct (clamp_halfStep value Hv) as (Hc & Hr).
        exists st1. rewrite Hpan.
        split; [exact Hrun|]. split; [now rewrite <- Hpan|].
        split; [exact Hx|]. split; [exact Hz|]. split; [exact Hc|].
        exact Hr.
      - eexists. split; [reflexivity|].
        unfold modelHeight. cbn.
        repeat split; try reflexivity; try assumption; lra_halves. }
    destruct Hstep as (st1 & Hrun & Hsum & Hx & Hz & Hp1 & Hr1).
    destruct (IH st1 Hp1 Hr1) as (st' & Hall & Hsum' & Hx' & Hz' & Hp' & Hr' & _).
    { intros value Hin. apply Hgrid. now right. }
    exists st'. cbn [handleAll]. rewrite Hrun.
    split; [exact Hall|]. split; [now rewrite Hsum'|].
    split; [congruence|]. split; [congruence|]. split; [exact Hp'|].
    split; [exact Hr'|].
    intros H0.
    assert (E : modelHeight st' == - (verticalPan st' / 2)) by lra_halves.
    split; [exact E|]. split; [lra_halves|]. intros Hz0. lra_halves.
Qed.

Lemma vertical_pan_tracks_slider_witness :
  exists st',
    handleAll [VerticalPanSlider 2.5; PresetButton Top;
               VerticalPanSlider (-1); ZoomSlider 3; VerticalPanSlider 0]
              initial = Some st'
    /\ modelHeight st' == 0.
Proof.
  destruct (vertical_pan_tracks_slider
              [VerticalPanSlider 2.5; PresetButton Top;
               VerticalPanSlider (-1); ZoomSlider 3; VerticalPanSlider 0]
              initial)
    as (st' & Hall & Hsum & _ & _ & _ & _ & Hcentre).
  - reflexivity.
  - split; discriminate.
  - intros value [E|[E|[E|[E|[E|[]]]]]]; inversion E; reflexivity.
  - exists st'. split; [exact Hall|].
    apply Hcentre; [reflexivity|].
    vm_compute in Hall. injection Hall as <-. reflexivity.
Defined.

End PanFacts.

(** ** The export frame of the viewport container *)

Section FrameFacts.

Import Container.
Local Open Scope Q_scope.

Lemma round_bounds (x : Q) :
  inject_Z (Js.round x) <= x + (1 # 2) /\ x - (1 # 2) < inject_Z (Js.round x).
Proof.
  unfold Js.round.
  pose proof (Qfloor_le (x + (1 # 2))) as Hle.
  pose proof (Qlt_floor (x + (1 # 2))) as Hlt.
  rewrite inject_Z_plus in Hlt. change (inject_Z 1) with 1 in Hlt.
  split; lra.
Qed.

Lemma round_centres (W : Q) (w : Z) :
  inject_Z w <= W - 1 ->
  (0 <= Js.round ((W - inject_Z w) / 2))%Z
  /\ inject_Z (Js.round ((W - inject_Z w) / 2) + w) <= W.
Proof.
  intros Hw.
  change ((W - inject_Z w) / 2) with ((W - inject_Z w) * (1 # 2)).
  destruct (round_bounds ((W - inject_Z w) * (1 # 2))) as (Hle & Hlt).
  split.
  - apply round_nonneg. lra.
  - rewrite inject_Z_plus. lra.
Qed.

Lemma div_lt_mul (a c b : Q) : 0 < c -> a / c < b -> a < b * c.
Proof.
  intros Hc H. rewrite <- (div_mul_cancel a c Hc).
  now apply Qmult_lt_r.
Qed.

Lemma div_ge_mul (a c b : Q) : 0 < c -> b <= a / c -> b * c <= a.
Proof.
  intros Hc H. rewrite <- (div_mul_cancel a c Hc).
  apply Qmult_le_r; assumption.
Qed.

(** The size before rounding, by cases on the export's aspect ratio. *)
Lemma frameSize_cases (W H ew eh : Q) :
  0 < W -> 0 < H -> 0 < ew -> 0 < eh ->
  let ar := ew / eh in
  let m := Js.min W H * 0.3 in
  (m * ar <= W * 0.9 ->
   fst (frameSize W H ew eh) == snd (frameSize W H ew eh) * ar)
  /\ (W * 0.9 < m * ar ->
      fst (frameSize W H ew eh) == W * 0.9
      /\ snd (frameSize W H ew eh) == m)
  /\ fst (frameSize W H ew eh) <= W * 0.9
  /\ snd (frameSize W H ew eh) <= H * 0.9
  /\ m <= snd (frameSize W H ew eh)
  /\ 0 < fst (frameSize W H ew eh).
Proof.
  intros HW HH Hew Heh ar m.
  assert (Har : 0 < ar).
  { subst ar. apply Qlt_shift_div_l; [exact Heh|]. rewrite Qmult_0_l.
    exact Hew. }
  assert (Hm : 0 < m /\ m <= W * 0.3 /\ m <= H * 0.3).
  { subst m. unfold Js.min.
    destruct (Q.min_spec W H) as [[Hlt ->]|[Hle ->]]; lra. }
  unfold frameSize. fold ar. cbv zeta. fold m.
  destruct (Js.gtb ar (W / H)) eqn:E.
  - apply gtb_true in E.
    assert (Hwide : W < ar * H).
    { now apply div_lt_mul. }
    set (d := W * 0.8 / ar).
    assert (Hd : d * ar == W * 0.8) by (subst d; field; lra).
    cbn [fst snd]. unfold Js.max, Js.min.
    destruct (Q.max_spec (W * 0.8) (m * ar)) as [[H1 ->]|[H1 ->]];
      destruct (Q.max_spec d m) as [[H2 ->]|[H2 ->]];
      repeat match goal with
             | |- context [Qmin ?a ?b] =>
                 destruct (Q.min_spec a b) as [[? ->]|[? ->]]
             end;
      repeat split; try (intros; nra); try nra.
  - apply gtb_false in E.
    assert (Htall : ar * H <= W).
    { now apply div_ge_mul. }
    cbn [fst snd]. unfold Js.max, Js.min.
    destruct (Q.max_spec (H * 0.8 * ar) (m * ar)) as [[H1 ->]|[H1 ->]];
      destruct (Q.max_spec (H * 0.8) m) as [[H2 ->]|[H2 ->]];
      repeat match goal with
             | |- context [Qmin ?a ?b] =>
                 destruct (Q.min_spec a b) as [[? ->]|[? ->]]
             end;
      repeat split; try (intros; nra); try nra.
Qed.

(** X22. The export frame stays inside the viewport box. For a viewport
    of at least 15 by 15 pixels and any positive export size the frame is
    placed at a non-negative left and top, ends within the viewport's
    width and height, has a positive height and a non-negative width,
    and is at most 90% of the viewport on each axis, up to the
    rounding. *)
Theorem export_frame_within_viewport :
  forall W H ew eh : Q,
    15 <= W -> 15 <= H -> 0 < ew -> 0 < eh ->
    exists r : ExportFrame,
      updateExportFrame true (Some (W, H)) ew eh = Some r
      /\ (0 <= left r)%Z /\ (0 <= top r)%Z
      /\ (0 <= width r)%Z /\ (0 < height r)%Z
      /\ inject_Z (left r + width r) <= W
      /\ inject_Z (top r + height r) <= H
      /\ inject_Z (width r) <= W * 0.9 + (1 # 2)
      /\ inject_Z (height r) <= H * 0.9 + (1 # 2).
Proof.
  intros W H ew eh HW HH Hew Heh.
  destruct (frameSize_cases W H ew eh) as (_ & _ & Hw & Hh & Hm & Hpos);
    try lra.
  assert (Hmin : 4 <= Js.min W H * 0.3).
  { unfold Js.min. destruct (Q.min_spec W H) as [[_ ->]|[_ ->]]; lra. }
  unfold updateExportFrame.
  destruct (frameSize W H ew eh) as [fw fh]. cbn [fst snd] in *.
  eexists. split; [reflexivity|]. cbn [left top width height].
  destruct (round_bounds fw) as (Hfw1 & Hfw2).
  destruct (round_bounds fh) as (Hfh1 & Hfh2).
  destruct (round_centres W (Js.round fw)) as (Hl1 & Hl2); [lra|].
  destruct (round_centres H (Js.round fh)) as (Ht1 & Ht2); [lra|].
  split; [exact Hl1|]. split; [exact Ht1|].
  split; [apply round_nonneg; lra|].
  split.
  - rewrite Zlt_Qlt. change (inject_Z 0) with 0. lra.
  - split; [exact Hl2|]. split; [exact Ht2|]. split; lra.
Qed.

Lemma export_frame_within_viewport_witness :
  exists r : ExportFrame,
    updateExportFrame true (Some (800, 600)) 128 128 = Some r
    /\ (0 <= left r)%Z /\ (0 <= top r)%Z
    /\ (0 <= width r)%Z /\ (0 < height r)%Z
    /\ inject_Z (left r + width r) <= 800
    /\ inject_Z (top r + height r) <= 600
    /\ inject_Z (width r) <= 800 * 0.9 + (1 # 2)
    /\ inject_Z (height r) <= 600 * 0.9 + (1 # 2).
Proof.
  apply (export_frame_within_viewport 800 600 128 128);
    first [discriminate | reflexivity].
Defined.

(** X23. The shape of the export frame before rounding. With
    m = 30% of the shorter viewport side: as long as m times the
    export's aspect ratio fits in 90% of the viewport width, the frame
    has exactly the export's aspect ratio; for a wider export the frame
    is 90% of the viewport width by m, which is less wide than the
    export's shape. *)
Theorem export_frame_aspect :
  forall W H ew eh : Q,
    0 < W -> 0 < H -> 0 < ew -> 0 < eh ->
    let ar := ew / eh in
    let m := Js.min W H * 0.3 in
    let fw := fst (frameSize W H ew eh) in
    let fh := snd (frameSize W H ew eh) in
    (m * ar <= W * 0.9 -> fw == fh * ar)
    /\ (W * 0.9 < m * ar -> fw == W * 0.9 /\ fh == m /\ fw < fh * ar).
Proof.
  intros W H ew eh HW HH Hew Heh ar m fw fh.
  destruct (frameSize_cases W H ew eh HW HH Hew Heh)
    as (Hfit & Hwide & _).
  fold ar m fw fh in Hfit, Hwide.
  split; [exact Hfit|].
  intros Hlt. destruct (Hwide Hlt) as (E1 & E2).
  split; [exact E1|]. split; [exact E2|]. rewrite E1, E2. exact Hlt.
Qed.

Lemma export_frame_aspect_witness :
  fst (frameSize 800 600 128 128)
  == snd (frameSize 800 600 128 128) * (128 / 128)
  /\ fst (frameSize 800 600 4096 64) < snd (frameSize 800 600 4096 64)
                                        * (4096 / 64).
Proof.
  split.
  - apply (export_frame_aspect 800 600 128 128);
      first [reflexivity | vm_compute; discriminate].
  - apply (export_frame_aspect 800 600 4096 64); reflexivity.
Defined.

End FrameFacts.

(** ** The preview rectangle of the running program *)

Section MountedFacts.

Import Mounted.
Local Open Scope Q_scope.

(** With the default export size of the viewport, in a viewport that is
    at least as wide as high and at least 400 pixels high, the preview
    is higher than 90% of the viewport. *)
Lemma default_preview_height (W H : Q) :
  400 <= H -> H <= W ->
  0.9 * H < snd (Preview.previewSize W H 128 128).
Proof.
  intros HH HW. unfold Preview.previewSize.
  assert (Har : 128 / 128 == 1) by reflexivity.
  set (ar := 128 / 128) in *.
  assert (Hca : 1 <= W / H) by (apply Qle_shift_div_l; lra).
  destruct (Js.gtb ar (W / H)) eqn:E;
    [apply gtb_true in E; lra|].
  cbv zeta. cbn [fst snd]. unfold Js.max.
  apply Qlt_le_trans
    with (H * Js.min 0.98 (0.85 + H / 1000 * 0.13)); [|apply Q.le_max_l].
  assert (Hs : 0.902 <= Js.min 0.98 (0.85 + H / 1000 * 0.13)).
  { unfold Js.min. apply Q.min_glb; [discriminate|].
    assert (Hq : 0.4 <= H / 1000) by (apply Qle_shift_div_l; lra).
    set (q := H / 1000) in *. lra. }
  set (sf := Js.min 0.98 (0.85 + H / 1000 * 0.13)) in *. nra.
Qed.

(** C4. The preview rectangle of the running program does not follow the
    export size: [ViewportContainer] mounts [<Viewport>] without
    [exportWidth] and [exportHeight], so [updateExportPreview] always
    runs with the default 128 x 128. For an export of 256 x 128 in a
    viewport of 1000 x 1000 the rectangle is 980 x 980 at (10, 10): its
    aspect ratio is 1, not 2, and its sides are 98% of the viewport, not
    at most 90%. In every viewport at least as wide as high and at least
    400 pixels high the rectangle is higher than 90% of the viewport,
    whatever the export size. The export frame that the container
    computes itself for 256 x 128 in 1000 x 1000, 800 x 400 at
    (100, 300), is as the specification describes the rectangle. *)
Theorem mounted_preview_ignores_export_size :
  (forall W H ew eh : Q,
      exportPreview W H ew eh = Preview.updateExportPreview W H 128 128)
  /\ (let r := exportPreview 1000 1000 256 128 in
      (Preview.left r, Preview.top r, Preview.width r, Preview.height r)
      = (10, 10, 980, 980)%Z)
  /\ ~ asSpecified 1000 1000 256 128
  /\ (forall W H ew eh : Q,
         400 <= H -> H <= W -> 1 <= ew -> 1 <= eh ->
         ~ asSpecified W H ew eh)
  /\ frameAsSpecified 1000 1000 256 128.
Proof.
  assert (Hgeneral : forall W H ew eh : Q,
             400 <= H -> H <= W -> ~ asSpecified W H ew eh).
  { intros W H ew eh HH HW (_ & _ & _ & (_ & Hph)).
    unfold previewSize, viewportPreviewSize, mountedProps in Hph.
    cbn [exportWidth exportHeight orDefault] in Hph.
    pose proof (default_preview_height W H HH HW). lra. }
  split; [reflexivity|]. split; [reflexivity|].
  split; [apply Hgeneral; discriminate|].
  split; [intros W H ew eh HH HW _ _; now apply Hgeneral|].
  unfold frameAsSpecified, specified.
  cbn [Container.updateExportFrame].
  vm_compute. repeat split; discriminate.
Qed.

Lemma mounted_preview_ignores_export_size_witness :
  ~ asSpecified 1500 1000 128 128.
Proof.
  destruct mounted_preview_ignores_export_size as (_ & _ & _ & Hall & _).
  apply Hall; discriminate.
Defined.

End MountedFacts.

(** ** The folder selection *)

Section FolderFacts.

Import UseExport Folder.

Ltac answer_cases a :=
  destruct a as [[[[|? ?]|]|?]|].

(** X24. [selectOutputFolder] always ends with exactly one toast and
    changes nothing else of the world and no other setting. An error
    toast leaves the output folder as it was; a success toast comes with
    a non-empty folder, the answer of the last picker opened, stored as
    the output folder and shown in the toast. A folder selected before
    is therefore never lost. *)
Theorem selectOutputFolder_outcomes :
  forall (d : Dialogs) (st : Settings) (w : World),
    let st' := fst (fst (selectOutputFolder d st w)) in
    let w' := snd (fst (selectOutputFolder d st w)) in
    let opened := snd (selectOutputFolder d st w) in
    (exists t : Toast,
        toasts w' = toasts w ++ [t]
        /\ ((destructive t = true /\ st' = st)
            \/ (destructive t = false
                /\ exists folder : string,
                    folder <> EmptyString
                    /\ outputFolder st' = Some folder
                    /\ description t = folder
                    /\ option_map (answerOf d) (Js.last_item opened)
                       = Some (Some (Resolves (Some folder))))))
    /\ sameButToasts w w'
    /\ (width st' = width st /\ height st' = height st
        /\ backgroundColor st' = backgroundColor st
        /\ renderSteps st' = renderSteps st)
    /\ (Js.truthy_string (outputFolder st) = true ->
        Js.truthy_string (outputFolder st') = true).
Proof.
  intros [a1 a2 a3] st w. cbv zeta.
  answer_cases a1; answer_cases a2; answer_cases a3;
    cbn -[String.append];
    (split; [eexists; split; [reflexivity|];
             first [ left; split; reflexivity
                   | right; split; [reflexivity|];
                     eexists;
                     (split; [|split; [reflexivity|split; reflexivity]]);
                     discriminate ]
            |]);
    (split; [repeat split|]);
    (split; [repeat split|]);
    intros H; first [exact H | reflexivity].
Qed.

Lemma selectOutputFolder_outcomes_witness :
  Js.truthy_string
    (outputFolder
       (fst (fst (selectOutputFolder
                    (mkDialogs (Some (Resolves None)) None None)
                    Sample.settings Sample.world)))) = true.
Proof.
  apply (selectOutputFolder_outcomes
           (mkDialogs (Some (Resolves None)) None None)
           Sample.settings Sample.world).
  reflexivity.
Defined.

(** X25. Cancelling does not end the selection. When every picker the
    bridge offers is closed without a folder, [selectOutputFolder] opens
    each of them in turn, keeps the output folder, and ends with the
    error toast that no selection method is available. *)
Theorem cancelled_dialogs_cascade :
  forall (d : Dialogs) (st : Settings) (w : World),
    (forall (p : Picker) (a : Answer),
        answerOf d p = Some a -> cancelled a = true) ->
    selectOutputFolder d st w
    = (st,
       toast (mkToast "Error"
                "Failed to select output folder: No working directory selection method available"
                true) w,
       offered d).
Proof.
  intros [a1 a2 a3] st w Hcancel.
  pose proof (Hcancel ElectronSelectDirectory) as H1.
  pose proof (Hcancel ElectronAPISelectDirectory) as H2.
  pose proof (Hcancel ElectronAPIOpenFileDialog) as H3.
  cbn [answerOf electron_selectDirectory electronAPI_selectDirectory
       electronAPI_openFileDialog] in H1, H2, H3.
  answer_cases a1;
    try (specialize (H1 _ eq_refl); discriminate H1);
    answer_cases a2;
    try (specialize (H2 _ eq_refl); discriminate H2);
    answer_cases a3;
    try (specialize (H3 _ eq_refl); discriminate H3);
    reflexivity.
Qed.

Lemma cancelled_dialogs_cascade_witness :
  snd (selectOutputFolder
         (mkDialogs (Some (Resolves None)) (Some (Resolves (Some EmptyString)))
                    (Some (Resolves None)))
         Sample.settings Sample.world)
  = [ElectronSelectDirectory; ElectronAPISelectDirectory;
     ElectronAPIOpenFileDialog].
Proof.
  rewrite (cancelled_dialogs_cascade
             (mkDialogs (Some (Resolves None))
                        (Some (Resolves (Some EmptyString)))
                        (Some (Resolves None)))
             Sample.settings Sample.world).
  - reflexivity.
  - intros [| |] a E; cbn in E; injection E as <-; reflexivity.
Defined.

End FolderFacts.

(** ** The names of the frame files *)

From Stdlib Require DecimalPos DecimalZ.

Section NameFacts.

Import Sampling UseExport Names.

Lemma string_length_append (a b : string) :
  String.length (a ++ b) = (String.length a + String.length b)%nat.
Proof. induction a as [|c a IH]; cbn; [reflexivity | now rewrite IH]. Qed.

Lemma append_inv_head (a b c : string) :
  (a ++ b = a ++ c)%string -> b = c.
Proof.
  induction a as [|x a IH]; cbn; intros H; [exact H|].
  injection H as H. now apply IH.
Qed.

Lemma append_inv_tail (s : string) :
  forall a b : string, (a ++ s = b ++ s)%string -> a = b.
Proof.
  induction a as [|x a IH]; intros [|y b] H; cbn in H.
  - reflexivity.
  - apply (f_equal String.length) in H. cbn in H.
    rewrite string_length_append in H. lia.
  - apply (f_equal String.length) in H. cbn in H.
    rewrite string_length_append in H. lia.
  - injection H as -> H. f_equal. now apply IH.
Qed.

(** Padding with zeros writes leading zero digits. *)
Lemma repeat_zero_digits (k : nat) (d : Decimal.uint) :
  (Js.repeat_char "0" k ++ NilEmpty.string_of_uint d)%string
  = NilEmpty.string_of_uint (Nat.iter k Decimal.D0 d).
Proof.
  induction k as [|k IH]; [reflexivity|].
  rewrite Nat.iter_succ. cbn [Js.repeat_char String.append]. rewrite IH.
  reflexivity.
Qed.

Lemma of_uint_leading_zeros (k : nat) (d : Decimal.uint) :
  Z.of_uint (Nat.iter k Decimal.D0 d) = Z.of_uint d.
Proof.
  induction k as [|k IH]; [reflexivity|].
  rewrite Nat.iter_succ. exact IH.
Qed.

(** The frame index can be read back from its padded form. *)
Lemma frameIndexOf_paddedIndex (f : Z) :
  (0 <= f)%Z -> frameIndexOf (paddedIndex f) = Some f.
Proof.
  intros Hf. unfold frameIndexOf, paddedIndex, Js.padStart, Js.toString.
  assert (Hd : exists d : Decimal.uint,
             Z.to_int f = Decimal.Pos d /\ d <> Decimal.Nil).
  { destruct f as [|p|p]; [| |lia]; cbn [Z.to_int].
    - eexists. split; [reflexivity | discriminate].
    - eexists. split; [reflexivity|].
      apply DecimalPos.Unsigned.to_uint_nonnil. }
  destruct Hd as (d & Hd & Hnil).
  rewrite Hd. cbn [NilZero.string_of_int].
  assert (E : NilZero.string_of_uint d = NilEmpty.string_of_uint d)
    by (destruct d; [contradiction|reflexivity..]).
  rewrite E, repeat_zero_digits, NilEmpty.usu. cbn [option_map].
  rewrite of_uint_leading_zeros.
  change (Z.of_uint d) with (Z.of_int (Decimal.Pos d)).
  now rewrite <- Hd, DecimalZ.of_to.
Qed.

Lemma frameFilename_inj (folder : string) (f f' : Z) :
  (0 <= f)%Z -> (0 <= f')%Z ->
  frameFilename folder f = frameFilename folder f' -> f = f'.
Proof.
  intros Hf Hf' H. unfold frameFilename in H.
  apply append_inv_head, append_inv_head, append_inv_tail in H.
  assert (E : frameIndexOf (paddedIndex f) = frameIndexOf (paddedIndex f'))
    by (unfold paddedIndex; now rewrite H).
  rewrite !frameIndexOf_paddedIndex in E by assumption.
  now injection E.
Qed.

Lemma sorted_NoDup (l : list Z) : StronglySorted Z.lt l -> NoDup l.
Proof.
  induction 1 as [|x l Hs IH Hall]; constructor; [|exact IH].
  intros Hin. rewrite Forall_forall in Hall.
  specialize (Hall x Hin). lia.
Qed.

Lemma NoDup_map_on {A B : Type} (g : A -> B) (l : list A) :
  (forall x y, In x l -> In y l -> g x = g y -> x = y) ->
  NoDup l -> NoDup (map g l).
Proof.
  intros Hinj Hnd. induction Hnd as [|x l Hx Hnd IH]; cbn; constructor.
  - intros Hin. apply in_map_iff in Hin. destruct Hin as (y & Hy & Hin).
    assert (y = x) by (apply Hinj; [now right | now left | exact Hy]).
    subst y. contradiction.
  - apply IH. intros a b Ha Hb. apply Hinj; now right.
Qed.

(** X26. The frame files of an export never collide. The frame index
    can be read back from the padded index of a file name, so two
    different frames get two different file names in the same folder,
    and the files of the sampled frames of a sequence export are
    pairwise different. *)
Theorem frame_files_do_not_collide :
  (forall f : Z, (0 <= f)%Z -> frameIndexOf (paddedIndex f) = Some f)
  /\ (forall (folder : string) (f f' : Z),
         (0 <= f)%Z -> (0 <= f')%Z ->
         frameFilename folder f = frameFilename folder f' -> f = f')
  /\ (forall (folder : string) (T rs : Z) (frames : list Z),
         (1 <= T)%Z ->
         framesToRender T rs = Some frames ->
         NoDup (map (frameFilename folder) frames)).
Proof.
  split; [exact frameIndexOf_paddedIndex|].
  split; [exact frameFilename_inj|].
  intros folder T rs frames HT Hframes.
  rewrite (framesToRender_refines T rs HT) in Hframes.
  injection Hframes as <-.
  apply NoDup_map_on.
  - intros x y Hx Hy.
    apply (In_sampled_frames T rs _ HT) in Hx, Hy.
    apply frameFilename_inj; lia.
  - apply sorted_NoDup. now apply sampled_frames_sorted.
Qed.

Lemma frame_files_do_not_collide_witness :
  frameIndexOf (paddedIndex 59) = Some 59%Z
  /\ NoDup (map (frameFilename "out/walk") Sample2.evenFrames).
Proof.
  destruct frame_files_do_not_collide as (Hread & _ & Hdistinct).
  split.
  - apply Hread. lia.
  - apply (Hdistinct "out/walk"%string 60%Z 30%Z Sample2.evenFrames).
    + lia.
    + reflexivity.
Defined.

End NameFacts.
